(** * edgin_around: geometry, entities, tasks and animation dispatch

    A shallow embedding of the simulation kernel of edgin_around
    ([src/geometry.py], [src/entities.py], [src/tasks.py],
    [src/animations.py]).  Python floats are read as exact real numbers and
    the functions of Python's [math] module as their real counterparts. *)

From Stdlib Require Import Reals Lra Psatz Lia ZArith List String Bool.
Import ListNotations.

(** ** Python's [math] functions over the reals *)

Module PyMath.
Local Open Scope R_scope.

(** [math.atan2(y, x)]: the angle of the vector [(x, y)], in [(-pi, pi]],
    and [0] at the origin. *)
Definition atan2 (y x : R) : R :=
  if Rlt_dec 0 x then atan (y / x)
  else if Rlt_dec x 0 then
    if Rle_dec 0 y then atan (y / x) + PI else atan (y / x) - PI
  else if Rlt_dec 0 y then PI / 2
  else if Rlt_dec y 0 then - (PI / 2)
  else 0.

End PyMath.

(** ** [src/geometry.py] *)

Module Geometry.
Import PyMath.
Local Open Scope R_scope.

(** [class Coordinate]: geographical coordinates, in radians. *)
Record Coordinate : Type := mkCoordinate { lat : R; lon : R }.

(** [class Point]: spherical coordinates. *)
Record Point : Type := mkPoint { theta : R; phi : R }.

(** The static methods of [class Coordinates]. *)
Module Coordinates.

Definition spherical_to_cartesian (r theta phi : R) : R * R * R :=
  let z := r * sin theta * cos phi in
  let x := r * sin theta * sin phi in
  let y := r * cos theta in
  (x, y, z).

Definition spherical_to_geographical_radians (r theta phi : R) : R * R * R :=
  let lat := 0.5 * PI - theta in
  let lon := if Rle_dec phi PI then phi else phi - 2.0 * PI in
  (r, lat, lon).

Definition geographical_radians_to_spherical (r lat lon : R) : R * R * R :=
  let theta := 0.5 * PI - lat in
  let phi := if Rge_dec lon 0 then lon else lon + 2.0 * PI in
  (r, theta, phi).

End Coordinates.

(** [Coordinate.bearing_to] *)
Definition coord_bearing_to (self other : Coordinate) : R :=
  let x := sin (lon other - lon self) * cos (lat other) in
  let y := cos (lat self) * sin (lat other)
           - sin (lat self) * cos (lat other) * cos (lon other - lon self) in
  atan2 x y.

(** The argument of [sqrt] in [Coordinate.great_circle_distance_to]. *)
Definition haversine (self other : Coordinate) : R :=
  let sin1 := sin (0.5 * Rabs (lat self - lat other)) in
  let sin2 := sin (0.5 * Rabs (lon self - lon other)) in
  sin1 * sin1 + cos (lat self) * cos (lat other) * sin2 * sin2.

(** [Coordinate.great_circle_distance_to] *)
Definition coord_great_circle_distance_to
    (self other : Coordinate) (radius : R) : R :=
  let sin1 := sin (0.5 * Rabs (lat self - lat other)) in
  let sin2 := sin (0.5 * Rabs (lon self - lon other)) in
  2 * radius
  * asin (sqrt (sin1 * sin1 + cos (lat self) * cos (lat other) * sin2 * sin2)).

(** [Coordinate.moved_by] *)
Definition coord_moved_by (self : Coordinate) (distance bearing radius : R)
  : Coordinate :=
  let angular_distance := distance / radius in
  let cad := cos angular_distance in
  let sad := sin angular_distance in
  let cb := cos bearing in
  let sb := sin bearing in
  let slat1 := sin (lat self) in
  let clat1 := cos (lat self) in
  let lat2 := asin (slat1 * cad + clat1 * sad * cb) in
  let slat2 := sin lat2 in
  let lon2 := lon self + atan2 (sb * sad * clat1) (cad - slat1 * slat2) in
  mkCoordinate lat2 lon2.

(** [Coordinate.to_point] *)
Definition to_point (self : Coordinate) : Point :=
  let '(_, theta, phi) :=
    Coordinates.geographical_radians_to_spherical 1.0 (lat self) (lon self) in
  mkPoint theta phi.

(** [Point.to_coordinate] *)
Definition to_coordinate (self : Point) : Coordinate :=
  let '(_, lat, lon) :=
    Coordinates.spherical_to_geographical_radians 1.0 (theta self) (phi self) in
  mkCoordinate lat lon.

(** [Point.bearing_to] *)
Definition bearing_to (self other : Point) : R :=
  coord_bearing_to (to_coordinate self) (to_coordinate other).

(** [Point.great_circle_distance_to] *)
Definition great_circle_distance_to (self other : Point) (radius : R) : R :=
  let coord1 := to_coordinate self in
  let coord2 := to_coordinate other in
  coord_great_circle_distance_to coord1 coord2 radius.


(** The position vector of a point of the unit sphere, and the central angle
    between two points: the angle between their position vectors. *)
Definition unit_vector (p : Point) : R * R * R :=
  Coordinates.spherical_to_cartesian 1 (theta p) (phi p).

Definition dot (u v : R * R * R) : R :=
  let '(ux, uy, uz) := u in
  let '(vx, vy, vz) := v in
  ux * vx + uy * vy + uz * vz.

Definition central_angle (p q : Point) : R :=
  acos (dot (unit_vector p) (unit_vector q)).

(** The cosine of the central angle of two coordinates. *)
Definition cos_central (c1 c2 : Coordinate) : R :=
  sin (lat c1) * sin (lat c2)
  + cos (lat c1) * cos (lat c2) * cos (lon c1 - lon c2).

End Geometry.

(** ** Declarations the sources rely on

    [src/defs.py], [src/craft.py], [src/features.py], [src/inventory.py],
    [src/events.py], [src/jobs.py], [src/actions.py], [src/scene.py] and
    [src/essentials.py] are used by the sources through the names below. *)

Module Defs.

(** Modelled from the spec: [defs.ActorId], the identity of an entity. *)
Definition ActorId : Type := Z.

(** Modelled from the spec: [defs.Hand], the hand slots [{LEFT, RIGHT}]. *)
Inductive Hand : Type := LEFT | RIGHT.

(** Modelled from the spec: [defs.DamageVariant], one per purpose of a tool
    or weapon (hit, chop, smash, attack). *)
Inductive DamageVariant : Type := HIT | CHOP | SMASH | ATTACK.

(** Modelled from the spec: [defs.UpdateVariant] of an inventory update
    (swap or merge). *)
Inductive UpdateVariant : Type := SWAP | MERGE.

(** Modelled from the spec: [craft.Essence], the craft-material category. *)
Inductive Essence : Type := ROCKS | GOLD | LOGS | TOOL | PLANT | HERO.

(** Modelled from the spec: [features.Claim]. *)
Inductive Claim : Type := PAIN | FOOD | CARGO.

(** Equality of essences, [==] on the enumeration. *)
Definition Essence_eqb (a b : Essence) : bool :=
  match a, b with
  | ROCKS, ROCKS | GOLD, GOLD | LOGS, LOGS
  | TOOL, TOOL | PLANT, PLANT | HERO, HERO => true
  | _, _ => false
  end.

(** A Python [dict] with integer keys, in insertion order: the registry
    of the state and the pockets of an inventory. *)
Section Dict.
Context {V : Type}.

Fixpoint dict_get (d : list (Z * V)) (k : Z) : option V :=
  match d with
  | [] => None
  | (k', v) :: rest => if Z.eqb k' k then Some v else dict_get rest k
  end.

(** [d[k] = v]: an existing key keeps its place, a new one goes last. *)
Fixpoint dict_set (d : list (Z * V)) (k : Z) (v : V) : list (Z * V) :=
  match d with
  | [] => [(k, v)]
  | (k', v') :: rest =>
      if Z.eqb k' k then (k, v) :: rest else (k', v') :: dict_set rest k v
  end.

Fixpoint dict_del (d : list (Z * V)) (k : Z) : list (Z * V) :=
  match d with
  | [] => []
  | (k', v') :: rest =>
      if Z.eqb k' k then dict_del rest k else (k', v') :: dict_del rest k
  end.

Definition dict_keys (d : list (Z * V)) : list Z := map fst d.

End Dict.

End Defs.

(** ** Features, inventory and entities *)

Module Essentials.
Import Defs Geometry.

(** Modelled from the spec: the entry of an inventory slot, what
    [Entity.as_info()] returns and [Inventory.store] and [Inventory.insert]
    take in [test/test_state.py] (id, essence, quantity, codename). *)
Record EntityInfo : Type := mkEntityInfo {
  info_id : ActorId;
  info_essence : Essence;
  info_quantity : Z;
  info_codename : string;
}.

(** Modelled from the spec: [inventory.Inventory] owns the hand slots
    [{LEFT, RIGHT}] and indexed pocket slots, each holding an item reference,
    quantity, essence and codename. *)
Record Inventory : Type := mkInventory {
  left_hand : option EntityInfo;
  right_hand : option EntityInfo;
  entries : list (Z * EntityInfo);
}.

(** Modelled from the spec: [inventory.Inventory()], with every slot empty. *)
Definition empty_inventory : Inventory := mkInventory None None [].

(** Modelled from the spec: [Inventory.get_hand_entry], the entry of a hand
    slot. *)
Definition get_hand_entry (inv : Inventory) (hand : Hand) : option EntityInfo :=
  match hand with LEFT => left_hand inv | RIGHT => right_hand inv end.

(** Modelled from the spec: assignment to a hand slot of the inventory. *)
Definition set_hand_entry (inv : Inventory) (hand : Hand)
    (entry : option EntityInfo) : Inventory :=
  match hand with
  | LEFT => mkInventory entry (right_hand inv) (entries inv)
  | RIGHT => mkInventory (left_hand inv) entry (entries inv)
  end.

(** Modelled from the spec: [Inventory.get_pocket_entry], the entry of an
    indexed pocket slot. *)
Definition get_pocket_entry (inv : Inventory) (index : Z) : option EntityInfo :=
  dict_get (entries inv) index.

(** Modelled from the spec: assignment to a pocket slot of the inventory;
    an emptied pocket leaves the dictionary. *)
Definition set_pocket_entry (inv : Inventory) (index : Z)
    (entry : option EntityInfo) : Inventory :=
  match entry with
  | Some e => mkInventory (left_hand inv) (right_hand inv)
                (dict_set (entries inv) index e)
  | None => mkInventory (left_hand inv) (right_hand inv)
              (dict_del (entries inv) index)
  end.

(** Modelled from the spec: [Inventory.get_hand], the id of the item held
    in a hand. *)
Definition get_hand (inv : Inventory) (hand : Hand) : option ActorId :=
  option_map info_id (get_hand_entry inv hand).

(** Modelled from the spec: [Inventory.store_entry] puts an entry in a
    hand. *)
Definition store_entry (inv : Inventory) (hand : Hand) (info : EntityInfo)
  : Inventory :=
  set_hand_entry inv hand (Some info).

(** Modelled from the spec: [Inventory.swap] exchanges the content of a
    hand and of a pocket. *)
Definition swap (inv : Inventory) (hand : Hand) (index : Z) : Inventory :=
  let h := get_hand_entry inv hand in
  let p := get_pocket_entry inv index in
  set_pocket_entry (set_hand_entry inv hand p) index h.

(** Modelled from the spec: [get_free_hand] of the inventory feature, a
    hand that holds nothing, if any. *)
Definition get_free_hand (inv : Inventory) : option Hand :=
  match right_hand inv, left_hand inv with
  | None, _ => Some RIGHT
  | Some _, None => Some LEFT
  | Some _, Some _ => None
  end.

(** Modelled from the spec: the features, each present or absent. *)
Record Inventorable : Type := mkInventorable { stored_by : option ActorId }.

(** Modelled from the spec: [Stackable] carries a quantity; [max_size] is
    the capacity of one stack. *)
Record Stackable : Type := mkStackable { size : Z; max_size : Z }.

(** Modelled from the spec: [Damageable], a health pool, the maximal health
    and the accepted damage variant. *)
Record Damageable : Type := mkDamageable {
  health : Z;
  max_health : Z;
  damage_variant : DamageVariant;
}.

(** Modelled from the spec: [ToolOrWeapon], the damage per purpose. *)
Record ToolOrWeapon : Type := mkToolOrWeapon {
  hit_damage : Z;
  chop_damage : Z;
  smash_damage : Z;
  attack_damage : Z;
}.

(** Modelled from the spec: [Eater], hunger capacity and consumption. *)
Record Eater : Type := mkEater { max_capacity : R; hunger_value : R }.

(** Modelled from the spec: [features.Features], a record of optional
    capabilities. *)
Record Features : Type := mkFeatures {
  inventorable : option Inventorable;
  stackable : option Stackable;
  damageable : option Damageable;
  tool_or_weapon : option ToolOrWeapon;
  inventory : option Inventory;
  eater : option Eater;
  performer : bool;
}.

(** Modelled from the spec: the features of a new entity, all absent. *)
Definition no_features : Features :=
  mkFeatures None None None None None None false.

(** Modelled from the spec: the capacity of a stack;
    [test_merge_entities_not_fit] fills a pocket of rocks up to 20. *)
Definition MAX_STACK_SIZE : Z := 20.

(** Modelled from the spec: the setters of [features.Features], as the
    entities call them. *)
Definition set_inventorable (f : Features) : Features :=
  mkFeatures (Some (mkInventorable None)) (stackable f) (damageable f)
    (tool_or_weapon f) (inventory f) (eater f) (performer f).

Definition set_stackable (f : Features) (sz : Z) : Features :=
  mkFeatures (inventorable f) (Some (mkStackable sz MAX_STACK_SIZE))
    (damageable f) (tool_or_weapon f) (inventory f) (eater f) (performer f).

Definition set_damageable (f : Features) (start_health max_health : Z)
    (variant : DamageVariant) : Features :=
  mkFeatures (inventorable f) (stackable f)
    (Some (mkDamageable start_health max_health variant))
    (tool_or_weapon f) (inventory f) (eater f) (performer f).

Definition set_tool_or_weapon (f : Features)
    (hit_damage chop_damage smash_damage attack_damage : Z) : Features :=
  mkFeatures (inventorable f) (stackable f) (damageable f)
    (Some (mkToolOrWeapon hit_damage chop_damage smash_damage attack_damage))
    (inventory f) (eater f) (performer f).

Definition set_eater (f : Features) (max_capacity hunger_value : R) : Features :=
  mkFeatures (inventorable f) (stackable f) (damageable f)
    (tool_or_weapon f) (inventory f)
    (Some (mkEater max_capacity hunger_value)) (performer f).

Definition set_performer (f : Features) : Features :=
  mkFeatures (inventorable f) (stackable f) (damageable f)
    (tool_or_weapon f) (inventory f) (eater f) true.

Definition set_inventory (f : Features) (inv : option Inventory) : Features :=
  mkFeatures (inventorable f) (stackable f) (damageable f)
    (tool_or_weapon f) inv (eater f) (performer f).

Definition with_inventorable (f : Features) (i : option Inventorable) : Features :=
  mkFeatures i (stackable f) (damageable f)
    (tool_or_weapon f) (inventory f) (eater f) (performer f).

Definition with_stackable (f : Features) (s : option Stackable) : Features :=
  mkFeatures (inventorable f) s (damageable f)
    (tool_or_weapon f) (inventory f) (eater f) (performer f).

(** Modelled from the spec: [essentials.Entity], with its identity, kind
    ([CODENAME], [ESSENCE]), position and features.  The current task of the
    entity is kept outside. *)
Record Entity : Type := mkEntity {
  id : ActorId;
  codename : string;
  essence : Essence;
  position : option Point;
  features : Features;
}.

(** Modelled from the spec: the accessors of [essentials.Entity]. *)
Definition get_id (e : Entity) : ActorId := id e.
Definition get_name (e : Entity) : string := codename e.
Definition get_position (e : Entity) : option Point := position e.

(** Modelled from the spec: assignment to the attributes of an entity. *)
Definition set_id (e : Entity) (i : ActorId) : Entity :=
  mkEntity i (codename e) (essence e) (position e) (features e).

Definition set_position (e : Entity) (p : option Point) : Entity :=
  mkEntity (id e) (codename e) (essence e) p (features e).

Definition set_features (e : Entity) (f : Features) : Entity :=
  mkEntity (id e) (codename e) (essence e) (position e) f.

(** Modelled from the spec: [Entity.as_info], the entry an inventory
    keeps for the entity. *)
Definition as_info (e : Entity) : EntityInfo :=
  mkEntityInfo (id e) (essence e)
    (match stackable (features e) with Some s => size s | None => 1%Z end)
    (codename e).

End Essentials.

(** ** [src/entities.py] *)

Module Entities.
Import Defs Geometry Essentials.
Local Open Scope string_scope.
Local Open Scope Z_scope.

(** [essentials.Entity.__init__] followed by the kind's own [__init__]. *)
Definition Rocks (id : ActorId) (position : option Point) : Entity :=
  mkEntity id "rocks" ROCKS position
    (set_stackable (set_inventorable no_features) 1).

Definition Gold (id : ActorId) (position : option Point) : Entity :=
  mkEntity id "gold" GOLD position
    (set_stackable (set_inventorable no_features) 1).

Definition Log (id : ActorId) (position : option Point) : Entity :=
  mkEntity id "log" LOGS position (set_inventorable no_features).

Definition Spruce (id : ActorId) (position : option Point) : Entity :=
  mkEntity id "spruce" PLANT position
    (set_damageable no_features 200 400 CHOP).

Definition Axe (id : ActorId) (position : option Point) : Entity :=
  mkEntity id "axe" TOOL position
    (set_tool_or_weapon (set_inventorable no_features) 10 100 20 50).

Definition Warrior (id : ActorId) (position : option Point) : Entity :=
  mkEntity id "warrior" HERO position (set_performer no_features).

Definition Pirate (id : ActorId) (position : option Point) : Entity :=
  mkEntity id "pirate" HERO position
    (set_eater (set_inventory no_features (Some empty_inventory)) 100.0 50.0).

(** [Spruce.generate_drops]: [[Log(-1, self.position) for i in range(3)]].
    The assertion on the position fails for a spruce without one. *)
Definition generate_drops (self : Entity) : option (list Entity) :=
  match position self with
  | None => None
  | Some _ => Some (map (fun _ => Log (-1) (position self)) (seq 0%nat 3%nat))
  end.

End Entities.

(** ** Events, jobs and actions *)

Module Vocabulary.
Import Defs Geometry Essentials.
Local Open Scope R_scope.

(** Modelled from the spec: [craft.Item] and [craft.Assembly], a recipe
    codename with grouped source items. *)
Record Item : Type := mkItem {
  item_actor_id : ActorId;
  item_essence : Essence;
  item_quantity : Z;
}.

Record Assembly : Type := mkAssembly {
  recipe_codename : string;
  sources : list (list Item);
}.

(** Modelled from the spec: the closed set of events, with the payload the
    entities read. *)
Inductive Event : Type :=
| ResumeEvent (receiver_id : ActorId)
| StopEvent (receiver_id : ActorId)
| FinishedEvent (receiver_id : ActorId)
| ConcludeEvent (receiver_id : ActorId)
| StartMovingEvent (receiver_id : ActorId) (bearing : R)
| HandActivationEvent (receiver_id : ActorId) (hand : Hand)
    (object_id : option ActorId)
| InventorySwapEvent (receiver_id : ActorId) (hand : Hand) (inventory_index : Z)
| CraftEvent (receiver_id : ActorId) (assembly : Assembly)
| DamageEvent (receiver_id : ActorId) (damage_amount : Z).

(** Modelled from the spec: the jobs, as the tasks construct them. *)
Inductive Job : Type :=
| MovementJob (entity_id : ActorId) (speed bearing duration : R)
    (events : list Event)
| WaitJob (duration : R) (events : list Event)
| DamageJob (performer_id receiver_id item_id : ActorId) (hand : Hand)
    (events : list Event).

(** [geometry.ElevationFunction] *)
Inductive TerrainInfo : Type :=
| Hills (origin : Point)
| Ranges (origin : Point)
| Continents (origin : Point).

Record ElevationFunction : Type := mkElevationFunction {
  radius : R;
  terrain : list TerrainInfo;
}.

Definition ElevationFunction_init (radius : R) : ElevationFunction :=
  mkElevationFunction radius [].

Definition ef_get_radius (self : ElevationFunction) : R := radius self.

(** Modelled from the spec: [scene.Actor], as [DieAndDropTask.start]
    constructs it. *)
Record Actor : Type := mkActor {
  actor_id_of : ActorId;
  actor_name : string;
  actor_position : option Point;
}.

(** Modelled from the spec: the statistics a [StatUpdateAction] carries. *)
Record Stats : Type := mkStats { hunger : R; max_hunger : R }.

(** Modelled from the spec: the closed set of actions, with the fields the
    tasks set and the animations read. *)
Inductive Action : Type :=
| ConfigurationAction (hero_actor_id : ActorId)
    (elevation_function : ElevationFunction)
| CraftStartAction (crafter_id : ActorId)
| CraftEndAction (crafter_id : ActorId)
| CreateActorsAction (actors : list Actor)
| DeleteActorsAction (actor_ids : list ActorId)
| MovementAction (actor_id : ActorId) (speed bearing duration : R)
| LocalizeAction (actor_id : ActorId) (position : Point)
| StatUpdateAction (actor_id : ActorId) (stats : Stats)
| PickStartAction (who what : ActorId)
| PickEndAction (who : ActorId)
| UpdateInventoryAction (owner_id : ActorId) (inventory : Inventory)
| DamageAction (dealer_id receiver_id : ActorId) (variant : DamageVariant)
    (hand : Hand).

End Vocabulary.

(** ** The state of the world *)

Module StateModel.
Import Defs Geometry Essentials Vocabulary.
Local Open Scope R_scope.

(** Modelled from the spec: [state.State], the registry of all entities,
    keyed by id, plus the elevation function of the world. *)
Record State : Type := mkState {
  elevation_function : ElevationFunction;
  entities : list (ActorId * Entity);
}.

(** Modelled from the spec: [State(elevation_function, entities)]
    registers every entity under its own id. *)
Definition State_init (ef : ElevationFunction) (ents : list Entity) : State :=
  mkState ef (fold_left (fun d e => dict_set d (get_id e) e) ents []).

(** Modelled from the spec: [State.get_radius], the radius of the world. *)
Definition get_radius (st : State) : R := ef_get_radius (elevation_function st).

(** Modelled from the spec: [get_entity(id) -> Entity|none]. *)
Definition get_entity (st : State) (id : ActorId) : option Entity :=
  dict_get (entities st) id.

(** Modelled from the spec: the ids in use, in the order of the registry. *)
Definition entity_ids (st : State) : list ActorId := dict_keys (entities st).

(** Modelled from the spec: whether an id is in use. *)
Definition is_registered (st : State) (id : ActorId) : bool :=
  match get_entity st id with Some _ => true | None => false end.

(** Writes back the entity registered under a key; the Python code mutates
    the registered object in place. *)
Definition update_entity (st : State) (key : ActorId) (e : Entity) : State :=
  match get_entity st key with
  | Some _ => mkState (elevation_function st) (dict_set (entities st) key e)
  | None => st
  end.

(** Modelled from the spec: removal of an entity by id. *)
Definition delete_entity (st : State) (id : ActorId) : State :=
  mkState (elevation_function st) (dict_del (entities st) id).

(** Modelled from the spec: [calculate_distance(a, b) -> float|none], none
    if either lacks a position, otherwise the great-circle distance on the
    radius of the world. *)
Definition calculate_distance (st : State) (a b : Entity) : option R :=
  match get_position a, get_position b with
  | Some pa, Some pb => Some (great_circle_distance_to pa pb (get_radius st))
  | _, _ => None
  end.

(** Modelled from the spec: the parts of [state.State] and
    [features.Features] the tasks call and whose result the properties below
    do not depend on, taken as parameters.  The generator of entity ids
    yields an id that is not in use. *)
Class Collaborators : Type := {
  generate_new_entity_id : list ActorId -> ActorId;
  generate_new_entity_id_fresh :
    forall ids, ~ In (generate_new_entity_id ids) ids;
  find_closest_delivering_within :
    State -> ActorId -> list Claim -> R -> option ActorId;
  find_closest_absorbing_within :
    State -> ActorId -> list Claim -> R -> option ActorId;
  validate_assembly : State -> Assembly -> Inventory -> bool;
  delivery_claims : Features -> list Claim;
  get_first_absorbed : Features -> list Claim -> option Claim;
}.

Section WithCollaborators.
Context `{Collaborators}.

(** Modelled from the spec: [add_entity]; entities are created by a task's
    drop or craft effect with a fresh id and ids must be unique on insert.
    An entity that arrives with a placeholder id (a negative one, as the logs
    of [Spruce.generate_drops]) or with an id in use is registered under a
    fresh id, any other under its own; the entity as registered is returned
    (the Python code mutates the object). *)
Definition add_entity (st : State) (e : Entity) : State * Entity :=
  let e' :=
    if (get_id e <? 0)%Z || is_registered st (get_id e)
    then set_id e (generate_new_entity_id (entity_ids st))
    else e in
  (mkState (elevation_function st) (dict_set (entities st) (get_id e') e'), e').

(** [for drop in drops: state.add_entity(drop)] *)
Fixpoint add_entities (st : State) (drops : list Entity) : State * list Entity :=
  match drops with
  | [] => (st, [])
  | drop :: rest =>
      let '(st1, drop') := add_entity st drop in
      let '(st2, rest') := add_entities st1 rest in
      (st2, drop' :: rest')
  end.

End WithCollaborators.

(** Modelled from the spec: [Stackable.set_size] on the stack an entity
    carries. *)
Definition set_size (e : Entity) (n : Z) : Entity :=
  match stackable (features e) with
  | Some s => set_features e
                (with_stackable (features e) (Some (mkStackable n (max_size s))))
  | None => e
  end.

(** The size of the stack of the entity registered under a key, if any. *)
Definition stack_size (st : State) (key : ActorId) : option Z :=
  match get_entity st key with
  | Some e => option_map size (stackable (features e))
  | None => None
  end.

(** The quantity an inventory slot holds, if any. *)
Definition quantity (entry : option EntityInfo) : option Z :=
  option_map info_quantity entry.

(** Modelled from the spec: assignment to the quantity of an inventory
    entry. *)
Definition set_quantity (i : EntityInfo) (n : Z) : EntityInfo :=
  mkEntityInfo (info_id i) (info_essence i) n (info_codename i).

(** Modelled from the spec: [merge_entities(inventory, hand, pocket_index)]
    combines two stacks of identical essence at hand and pocket.  If the
    combined quantity fits the capacity of one stack, the hand slot and its
    backing entity are removed and the pocket stack absorbs the full
    quantity; if it overflows, the pocket stack is filled to capacity and
    the remainder stays in the hand; entities and inventory slots carry the
    new quantities.  Nothing happens if the essences differ, or if a slot, a
    backing entity or its stack is missing. *)
Definition merge_entities (st : State) (inv : Inventory) (hand : Hand)
    (pocket_index : Z) : State * Inventory :=
  match get_hand_entry inv hand, get_pocket_entry inv pocket_index with
  | Some source_entry, Some target_entry =>
      if negb (Essence_eqb (info_essence source_entry) (info_essence target_entry))
      then (st, inv)
      else
        match get_entity st (info_id source_entry),
              get_entity st (info_id target_entry) with
        | Some source, Some target =>
            match stackable (features source), stackable (features target) with
            | Some ss, Some ts =>
                let total := (size ss + size ts)%Z in
                if (total <=? max_size ts)%Z then
                  let st1 := update_entity st (info_id target_entry)
                               (set_size target total) in
                  let st2 := delete_entity st1 (info_id source_entry) in
                  let inv1 := set_pocket_entry inv pocket_index
                                (Some (set_quantity target_entry total)) in
                  (st2, set_hand_entry inv1 hand None)
                else
                  let rest := (total - max_size ts)%Z in
                  let st1 := update_entity st (info_id target_entry)
                               (set_size target (max_size ts)) in
                  let st2 := update_entity st1 (info_id source_entry)
                               (set_size
                                  (match get_entity st1 (info_id source_entry) with
                                   | Some s => s | None => source end) rest) in
                  let inv1 := set_pocket_entry inv pocket_index
                                (Some (set_quantity target_entry (max_size ts))) in
                  (st2, set_hand_entry inv1 hand
                          (Some (set_quantity source_entry rest)))
            | _, _ => (st, inv)
            end
        | _, _ => (st, inv)
        end
  | _, _ => (st, inv)
  end.

End StateModel.

(** ** [src/tasks.py] *)

Module Tasks.
Import Defs Geometry Essentials Vocabulary StateModel.
Local Open Scope R_scope.

Record MovementTask : Type := mkMovementTask {
  mt_entity_id : ActorId;
  mt_speed : R;
  mt_bearing : R;
  mt_job : option Job;
}.

Record WalkTask : Type := mkWalkTask {
  wt_entity_id : ActorId;
  wt_speed : R;
  wt_bearing : R;
  wt_duration : R;
}.

Record PickItemTask : Type := mkPickItemTask {
  pt_who_id : ActorId;
  pt_what_id : option ActorId;
  pt_hand : Hand;
  pt_job : option Job;
}.

Record UseItemTask : Type := mkUseItemTask {
  ut_performer_id : ActorId;
  ut_item_id : ActorId;
  ut_receiver_id : option ActorId;
  ut_hand : Hand;
  ut_job : option Job;
}.

Record InventoryUpdateTask : Type := mkInventoryUpdateTask {
  it_performer_id : ActorId;
  it_hand : Hand;
  it_inventory_index : Z;
  it_update_variant : UpdateVariant;
}.

Record DieAndDropTask : Type := mkDieAndDropTask {
  dt_dier_id : ActorId;
  dt_drops : list Entity;
  dt_job : option Job;
}.

Record CraftTask : Type := mkCraftTask {
  ct_crafter_id : ActorId;
  ct_assembly : Assembly;
  ct_job : option Job;
}.

(** The kinds of task of [src/tasks.py]. *)
Inductive Task : Type :=
| TMovement (t : MovementTask)
| TWalk (t : WalkTask)
| TPickItem (t : PickItemTask)
| TUseItem (t : UseItemTask)
| TInventoryUpdate (t : InventoryUpdateTask)
| TDieAndDrop (t : DieAndDropTask)
| TCraft (t : CraftTask).

(** What a call of [start] or [finish] leaves: the task, the state and the
    actions returned. *)
Definition task_of {T : Type} (r : T * State * list Action) : T := fst (fst r).
Definition state_of {T : Type} (r : T * State * list Action) : State := snd (fst r).
Definition actions_of {T : Type} (r : T * State * list Action) : list Action := snd r.

Definition MovementTask_TIMEOUT : R := 20.0.
Definition PickItemTask_PICK_DURATION : R := 1.0.
Definition PickItemTask_MAX_DISTANCE : R := 1.0.
Definition UseItemTask_MAX_DISTANCE : R := 1.0.
Definition InventoryUpdateTask_SWAP_DURATION : R := 0.01.
Definition DieAndDropTask_DIE_DURATION : R := 0.01.
Definition CraftTask_CRAFT_DURATION : R := 1.0.

(** The [__init__] methods. *)
Definition MovementTask_init (entity_id : ActorId) (speed bearing : R)
  : MovementTask :=
  mkMovementTask entity_id speed bearing
    (Some (MovementJob entity_id speed bearing MovementTask_TIMEOUT [])).

Definition WalkTask_init (entity_id : ActorId) (speed bearing duration : R)
  : WalkTask :=
  mkWalkTask entity_id speed bearing duration.

Definition PickItemTask_init (who_id : ActorId) (what_id : option ActorId)
    (hand : Hand) : PickItemTask :=
  mkPickItemTask who_id what_id hand None.

Definition UseItemTask_init (performer_id item_id : ActorId)
    (receiver_id : option ActorId) (hand : Hand) : UseItemTask :=
  mkUseItemTask performer_id item_id receiver_id hand None.

Definition InventoryUpdateTask_init (performer_id : ActorId) (hand : Hand)
    (inventory_index : Z) (update_variant : UpdateVariant)
  : InventoryUpdateTask :=
  mkInventoryUpdateTask performer_id hand inventory_index update_variant.

Definition DieAndDropTask_init (dier_id : ActorId) (drops : list Entity)
  : DieAndDropTask :=
  mkDieAndDropTask dier_id drops
    (Some (WaitJob DieAndDropTask_DIE_DURATION [FinishedEvent dier_id])).

Definition CraftTask_init (crafter_id : ActorId) (assembly : Assembly)
  : CraftTask :=
  mkCraftTask crafter_id assembly None.

(** The truth value of an optional id: [None] and [0] are false. *)
Definition truthy_id (i : option ActorId) : bool :=
  match i with
  | Some v => negb (Z.eqb v 0)
  | None => false
  end.

Section WithCollaborators.
Context `{Collaborators}.

(** Every [start] and [finish] returns the task and the state as the call
    leaves them, and the list of actions. *)

Definition MovementTask_start (self : MovementTask) (state : State)
  : MovementTask * State * list Action :=
  (self, state,
   [MovementAction (mt_entity_id self) (mt_speed self) (mt_bearing self)
      MovementTask_TIMEOUT]).

Definition MovementTask_get_job (self : MovementTask) : option Job :=
  mt_job self.

Definition WalkTask_start (self : WalkTask) (state : State)
  : WalkTask * State * list Action :=
  (self, state,
   [MovementAction (wt_entity_id self) (wt_speed self) (wt_bearing self)
      (wt_duration self)]).

Definition WalkTask_get_job (self : WalkTask) : option Job :=
  Some (MovementJob (wt_entity_id self) (wt_speed self) (wt_bearing self)
          (wt_duration self) [FinishedEvent (wt_entity_id self)]).

Definition PickItemTask_start (self : PickItemTask) (state : State)
  : PickItemTask * State * list Action :=
  let what_id :=
    match pt_what_id self with
    | None => find_closest_delivering_within state (pt_who_id self) [CARGO]
                PickItemTask_MAX_DISTANCE
    | Some w => Some w
    end in
  let self := mkPickItemTask (pt_who_id self) what_id (pt_hand self) (pt_job self) in
  match what_id with
  | None => (self, state, [])
  | Some what =>
      match get_entity state (pt_who_id self), get_entity state what with
      | Some entity, Some item =>
          match calculate_distance state entity item with
          | None => (self, state, [])
          | Some distance =>
              if Rlt_dec PickItemTask_MAX_DISTANCE distance
              then (self, state, [])
              else
                (mkPickItemTask (pt_who_id self) what_id (pt_hand self)
                   (Some (WaitJob PickItemTask_PICK_DURATION
                            [FinishedEvent (pt_who_id self)])),
                 state,
                 [PickStartAction (pt_who_id self) what])
          end
      | _, _ => (self, state, [])
      end
  end.

Definition PickItemTask_get_job (self : PickItemTask) : option Job :=
  pt_job self.

(** The target [PickItemTask.start] settles on. *)
Definition resolved_target (self : PickItemTask) (state : State)
  : option ActorId :=
  match pt_what_id self with
  | None => find_closest_delivering_within state (pt_who_id self) [CARGO]
              PickItemTask_MAX_DISTANCE
  | Some w => Some w
  end.

(** The ways the preconditions of a pick can fail for a picker and a target:
    no target, picker or item absent from the registry, distance undefined
    or greater than [MAX_DISTANCE]. *)
Inductive PickFailure (state : State) (who : ActorId)
    (target : option ActorId) : Prop :=
| no_target : target = None -> PickFailure state who target
| picker_absent : get_entity state who = None -> PickFailure state who target
| item_absent (what : ActorId) :
    target = Some what -> get_entity state what = None ->
    PickFailure state who target
| distance_undefined (what : ActorId) (entity item : Entity) :
    target = Some what ->
    get_entity state who = Some entity -> get_entity state what = Some item ->
    calculate_distance state entity item = None ->
    PickFailure state who target
| too_far (what : ActorId) (entity item : Entity) (distance : R) :
    target = Some what ->
    get_entity state who = Some entity -> get_entity state what = Some item ->
    calculate_distance state entity item = Some distance ->
    PickItemTask_MAX_DISTANCE < distance ->
    PickFailure state who target.

(** The picker lacks the inventory feature or the item is not inventorable. *)
Inductive FeatureFailure (state : State) (who : ActorId)
    (target : option ActorId) : Prop :=
| no_inventory (entity : Entity) :
    get_entity state who = Some entity ->
    inventory (features entity) = None ->
    FeatureFailure state who target
| not_inventorable (what : ActorId) (item : Entity) :
    target = Some what -> get_entity state what = Some item ->
    inventorable (features item) = None ->
    FeatureFailure state who target.

Definition PickItemTask_finish (self : PickItemTask) (state : State)
  : PickItemTask * State * list Action :=
  match pt_what_id self with
  | None => (self, state, [])
  | Some what =>
      match get_entity state (pt_who_id self), get_entity state what with
      | Some entity, Some item =>
          match inventory (features entity), inventorable (features item) with
          | Some inv, Some _ =>
              match calculate_distance state entity item with
              | None => (self, state, [])
              | Some distance =>
                  if Rlt_dec PickItemTask_MAX_DISTANCE distance
                  then (self, state, [])
                  else
                    let inv' := store_entry inv (pt_hand self) (as_info item) in
                    let state1 :=
                      update_entity state (pt_who_id self)
                        (set_features entity
                           (set_inventory (features entity) (Some inv'))) in
                    let item1 :=
                      match get_entity state1 what with
                      | Some i => i
                      | None => item
                      end in
                    let state2 :=
                      update_entity state1 what
                        (set_position
                           (set_features item1
                              (with_inventorable (features item1)
                                 (Some (mkInventorable (Some (get_id entity))))))
                           None) in
                    (self, state2,
                     [PickEndAction (pt_who_id self);
                      UpdateInventoryAction (pt_who_id self) inv'])
              end
          | _, _ => (self, state, [])
          end
      | _, _ => (self, state, [])
      end
  end.

Definition UseItemTask_start (self : UseItemTask) (state : State)
  : UseItemTask * State * list Action :=
  match get_entity state (ut_performer_id self),
        get_entity state (ut_item_id self) with
  | Some performer, Some item =>
      let claims := delivery_claims (features item) in
      let receiver_id :=
        if truthy_id (ut_receiver_id self) then ut_receiver_id self
        else find_closest_absorbing_within state (ut_performer_id self) claims
               UseItemTask_MAX_DISTANCE in
      let self :=
        mkUseItemTask (ut_performer_id self) (ut_item_id self) receiver_id
          (ut_hand self) (ut_job self) in
      match receiver_id with
      | None => (self, state, [])
      | Some rid =>
          match get_entity state rid with
          | None => (self, state, [])
          | Some receiver =>
              match calculate_distance state performer receiver with
              | None => (self, state, [])
              | Some distance =>
                  if Rlt_dec UseItemTask_MAX_DISTANCE distance
                  then (self, state, [])
                  else
                    match get_first_absorbed (features receiver) claims with
                    | None => (self, state, [])
                    | Some PAIN =>
                        (mkUseItemTask (ut_performer_id self) (ut_item_id self)
                           receiver_id (ut_hand self)
                           (Some (DamageJob (ut_performer_id self) rid
                                    (ut_item_id self) (ut_hand self)
                                    [FinishedEvent (ut_performer_id self)])),
                         state, [])
                    | Some FOOD => (self, state, [])
                    | Some CARGO => (self, state, [])
                    end
              end
          end
      end
  | _, _ => (self, state, [])
  end.

Definition UseItemTask_get_job (self : UseItemTask) : option Job := ut_job self.

Definition UseItemTask_finish (self : UseItemTask) (state : State)
  : UseItemTask * State * list Action :=
  (self, state, []).

Definition InventoryUpdateTask_start (self : InventoryUpdateTask) (state : State)
  : InventoryUpdateTask * State * list Action :=
  (self, state, []).

Definition InventoryUpdateTask_get_job (self : InventoryUpdateTask) : option Job :=
  Some (WaitJob InventoryUpdateTask_SWAP_DURATION
          [FinishedEvent (it_performer_id self)]).

Definition write_inventory (state : State) (owner : ActorId) (inv : Inventory)
  : State :=
  match get_entity state owner with
  | Some e => update_entity state owner
                (set_features e (set_inventory (features e) (Some inv)))
  | None => state
  end.

Definition InventoryUpdateTask_finish (self : InventoryUpdateTask) (state : State)
  : InventoryUpdateTask * State * list Action :=
  match get_entity state (it_performer_id self) with
  | None => (self, state, [])
  | Some performer =>
      match inventory (features performer) with
      | None => (self, state, [])
      | Some inv =>
          let '(state', inv') :=
            match it_update_variant self with
            | SWAP => (state, swap inv (it_hand self) (it_inventory_index self))
            | MERGE => merge_entities state inv (it_hand self)
                         (it_inventory_index self)
            end in
          (self, write_inventory state' (it_performer_id self) inv',
           [UpdateInventoryAction (it_performer_id self) inv'])
      end
  end.

Definition actor_of (drop : Entity) : Actor :=
  mkActor (id drop) (get_name drop) (position drop).

Definition DieAndDropTask_start (self : DieAndDropTask) (state : State)
  : DieAndDropTask * State * list Action :=
  match get_entity state (dt_dier_id self) with
  | None => (self, state, [])
  | Some dier =>
      let '(state', drops') := add_entities state (dt_drops self) in
      (mkDieAndDropTask (dt_dier_id self) drops' (dt_job self), state',
       [CreateActorsAction (map actor_of drops');
        DeleteActorsAction [dt_dier_id self]])
  end.

Definition DieAndDropTask_get_job (self : DieAndDropTask) : option Job :=
  dt_job self.

Definition DieAndDropTask_finish (self : DieAndDropTask) (state : State)
  : DieAndDropTask * State * list Action :=
  (self, state, []).

Definition CraftTask_start (self : CraftTask) (state : State)
  : CraftTask * State * list Action :=
  match get_entity state (ct_crafter_id self) with
  | None => (self, state, [])
  | Some crafter =>
      match inventory (features crafter) with
      | None => (self, state, [])
      | Some inv =>
          match get_free_hand inv with
          | None => (self, state, [])
          | Some _ =>
              if negb (validate_assembly state (ct_assembly self) inv)
              then (self, state, [])
              else
                (mkCraftTask (ct_crafter_id self) (ct_assembly self)
                   (Some (WaitJob CraftTask_CRAFT_DURATION
                            [FinishedEvent (ct_crafter_id self)])),
                 state,
                 [CraftStartAction (ct_crafter_id self)])
          end
      end
  end.

Definition CraftTask_get_job (self : CraftTask) : option Job := ct_job self.

(** [Task.start] and [Task.get_job], by kind. *)
Definition start (task : Task) (state : State) : Task * State * list Action :=
  match task with
  | TMovement t =>
      let '(t', s, a) := MovementTask_start t state in (TMovement t', s, a)
  | TWalk t =>
      let '(t', s, a) := WalkTask_start t state in (TWalk t', s, a)
  | TPickItem t =>
      let '(t', s, a) := PickItemTask_start t state in (TPickItem t', s, a)
  | TUseItem t =>
      let '(t', s, a) := UseItemTask_start t state in (TUseItem t', s, a)
  | TInventoryUpdate t =>
      let '(t', s, a) := InventoryUpdateTask_start t state in
      (TInventoryUpdate t', s, a)
  | TDieAndDrop t =>
      let '(t', s, a) := DieAndDropTask_start t state in (TDieAndDrop t', s, a)
  | TCraft t =>
      let '(t', s, a) := CraftTask_start t state in (TCraft t', s, a)
  end.

Definition get_job (task : Task) : option Job :=
  match task with
  | TMovement t => MovementTask_get_job t
  | TWalk t => WalkTask_get_job t
  | TPickItem t => PickItemTask_get_job t
  | TUseItem t => UseItemTask_get_job t
  | TInventoryUpdate t => InventoryUpdateTask_get_job t
  | TDieAndDrop t => DieAndDropTask_get_job t
  | TCraft t => CraftTask_get_job t
  end.

End WithCollaborators.

End Tasks.

(** ** [src/animations.py] *)

Module Animations.
Import Defs Geometry Essentials Vocabulary.
Local Open Scope R_scope.

(** What a Python call can raise here: a failed dictionary lookup and a
    failed attribute access. *)
Inductive Exception : Type := KeyError | AttributeError.

Inductive Result (A : Type) : Type :=
| Ok (value : A)
| Raise (exn : Exception).
Arguments Ok {A} value.
Arguments Raise {A} exn.

Definition bind {A B : Type} (r : Result A) (k : A -> Result B) : Result B :=
  match r with
  | Ok v => k v
  | Raise e => Raise e
  end.

Notation "x <- r ;; k" := (bind r (fun x => k))
  (at level 61, r at next level, right associativity).

(** The class of an action: [type(action)]. *)
Inductive ActionClass : Type :=
| ConfigurationActionC | CraftStartActionC | CraftEndActionC
| CreateActorsActionC | DeleteActorsActionC | MovementActionC
| LocalizeActionC | StatUpdateActionC | PickStartActionC | PickEndActionC
| UpdateInventoryActionC | DamageActionC.

Definition type_of (action : Action) : ActionClass :=
  match action with
  | ConfigurationAction _ _ => ConfigurationActionC
  | CraftStartAction _ => CraftStartActionC
  | CraftEndAction _ => CraftEndActionC
  | CreateActorsAction _ => CreateActorsActionC
  | DeleteActorsAction _ => DeleteActorsActionC
  | MovementAction _ _ _ _ => MovementActionC
  | LocalizeAction _ _ => LocalizeActionC
  | StatUpdateAction _ _ => StatUpdateActionC
  | PickStartAction _ _ => PickStartActionC
  | PickEndAction _ => PickEndActionC
  | UpdateInventoryAction _ _ => UpdateInventoryActionC
  | DamageAction _ _ _ _ => DamageActionC
  end.

Definition ActionClass_eqb (a b : ActionClass) : bool :=
  match a, b with
  | ConfigurationActionC, ConfigurationActionC
  | CraftStartActionC, CraftStartActionC
  | CraftEndActionC, CraftEndActionC
  | CreateActorsActionC, CreateActorsActionC
  | DeleteActorsActionC, DeleteActorsActionC
  | MovementActionC, MovementActionC
  | LocalizeActionC, LocalizeActionC
  | StatUpdateActionC, StatUpdateActionC
  | PickStartActionC, PickStartActionC
  | PickEndActionC, PickEndActionC
  | UpdateInventoryActionC, UpdateInventoryActionC
  | DamageActionC, DamageActionC => true
  | _, _ => false
  end.

(** Attribute access on an action: an attribute the action does not have
    raises [AttributeError]. *)
Module Attr.

Definition hero_actor_id (a : Action) : Result ActorId :=
  match a with ConfigurationAction h _ => Ok h | _ => Raise AttributeError end.
Definition elevation_function (a : Action) : Result ElevationFunction :=
  match a with ConfigurationAction _ e => Ok e | _ => Raise AttributeError end.
Definition crafter_id (a : Action) : Result ActorId :=
  match a with
  | CraftStartAction c | CraftEndAction c => Ok c
  | _ => Raise AttributeError
  end.
Definition actors (a : Action) : Result (list Actor) :=
  match a with CreateActorsAction l => Ok l | _ => Raise AttributeError end.
Definition actor_ids (a : Action) : Result (list ActorId) :=
  match a with DeleteActorsAction l => Ok l | _ => Raise AttributeError end.
Definition actor_id (a : Action) : Result ActorId :=
  match a with
  | MovementAction i _ _ _ | LocalizeAction i _ | StatUpdateAction i _ => Ok i
  | _ => Raise AttributeError
  end.
Definition speed (a : Action) : Result R :=
  match a with MovementAction _ s _ _ => Ok s | _ => Raise AttributeError end.
Definition bearing (a : Action) : Result R :=
  match a with MovementAction _ _ b _ => Ok b | _ => Raise AttributeError end.
Definition duration (a : Action) : Result R :=
  match a with MovementAction _ _ _ d => Ok d | _ => Raise AttributeError end.
Definition position (a : Action) : Result Point :=
  match a with LocalizeAction _ p => Ok p | _ => Raise AttributeError end.
Definition stats (a : Action) : Result Stats :=
  match a with StatUpdateAction _ s => Ok s | _ => Raise AttributeError end.
Definition who (a : Action) : Result ActorId :=
  match a with
  | PickStartAction w _ | PickEndAction w => Ok w
  | _ => Raise AttributeError
  end.
Definition what (a : Action) : Result ActorId :=
  match a with PickStartAction _ w => Ok w | _ => Raise AttributeError end.
Definition owner_id (a : Action) : Result ActorId :=
  match a with UpdateInventoryAction o _ => Ok o | _ => Raise AttributeError end.
Definition inventory (a : Action) : Result Inventory :=
  match a with UpdateInventoryAction _ i => Ok i | _ => Raise AttributeError end.
Definition dealer_id (a : Action) : Result ActorId :=
  match a with DamageAction d _ _ _ => Ok d | _ => Raise AttributeError end.
Definition receiver_id (a : Action) : Result ActorId :=
  match a with DamageAction _ r _ _ => Ok r | _ => Raise AttributeError end.
Definition variant (a : Action) : Result DamageVariant :=
  match a with DamageAction _ _ v _ => Ok v | _ => Raise AttributeError end.
Definition hand (a : Action) : Result Hand :=
  match a with DamageAction _ _ _ h => Ok h | _ => Raise AttributeError end.

End Attr.

(** [Animation.__init__]: [start_time] is [time.monotonic()] at the call. *)
Record AnimationBase : Type := mkAnimationBase {
  _expired : bool;
  start_time : R;
  timeout : option R;
}.

Definition Animation_init (now : R) (timeout : option R) : AnimationBase :=
  mkAnimationBase false now timeout.

Inductive Animation : Type :=
| ConfigurationAnimation (base : AnimationBase) (hero_actor_id : ActorId)
    (elevation_function : ElevationFunction)
| CraftStartAnimation (base : AnimationBase) (crafter_id : ActorId)
| CraftEndAnimation (base : AnimationBase) (crafter_id : ActorId)
| CreateActorsAnimation (base : AnimationBase) (actors : list Actor)
| DeleteActorsAnimation (base : AnimationBase) (actor_ids : list ActorId)
| MovementAnimation (base : AnimationBase) (actor_id : ActorId)
    (speed bearing : R) (_tick_count : Z)
| LocalizeAnimation (base : AnimationBase) (actor_id : ActorId)
    (position : Point)
| StatUpdateAnimation (base : AnimationBase) (actor_id : ActorId)
    (stats : Stats)
| PickStartAnimation (base : AnimationBase) (actor_id item_id : ActorId)
| PickEndAnimation (base : AnimationBase) (actor_id : ActorId)
| UpdateInventoryAnimation (base : AnimationBase) (owner_id : ActorId)
    (inventory : Inventory)
| DamageAnimation (base : AnimationBase) (dealer_id receiver_id : ActorId)
    (variant : DamageVariant) (hand : Hand).

(** The class of an animation. *)
Inductive AnimationClass : Type :=
| ConfigurationAnimationC | CraftStartAnimationC | CraftEndAnimationC
| CreateActorsAnimationC | DeleteActorsAnimationC | MovementAnimationC
| LocalizeAnimationC | StatUpdateAnimationC | PickStartAnimationC
| PickEndAnimationC | UpdateInventoryAnimationC | DamageAnimationC.

Definition class_of (animation : Animation) : AnimationClass :=
  match animation with
  | ConfigurationAnimation _ _ _ => ConfigurationAnimationC
  | CraftStartAnimation _ _ => CraftStartAnimationC
  | CraftEndAnimation _ _ => CraftEndAnimationC
  | CreateActorsAnimation _ _ => CreateActorsAnimationC
  | DeleteActorsAnimation _ _ => DeleteActorsAnimationC
  | MovementAnimation _ _ _ _ _ => MovementAnimationC
  | LocalizeAnimation _ _ _ => LocalizeAnimationC
  | StatUpdateAnimation _ _ _ => StatUpdateAnimationC
  | PickStartAnimation _ _ _ => PickStartAnimationC
  | PickEndAnimation _ _ => PickEndAnimationC
  | UpdateInventoryAnimation _ _ _ => UpdateInventoryAnimationC
  | DamageAnimation _ _ _ _ _ => DamageAnimationC
  end.

(** The [__init__] of each animation class, applied to any action. *)
Definition ConfigurationAnimation_init (now : R) (action : Action)
  : Result Animation :=
  h <- Attr.hero_actor_id action ;;
  e <- Attr.elevation_function action ;;
  Ok (ConfigurationAnimation (Animation_init now None) h e).

Definition CraftStartAnimation_init (now : R) (action : Action)
  : Result Animation :=
  c <- Attr.crafter_id action ;;
  Ok (CraftStartAnimation (Animation_init now None) c).

Definition CraftEndAnimation_init (now : R) (action : Action)
  : Result Animation :=
  c <- Attr.crafter_id action ;;
  Ok (CraftEndAnimation (Animation_init now None) c).

Definition CreateActorsAnimation_init (now : R) (action : Action)
  : Result Animation :=
  l <- Attr.actors action ;;
  Ok (CreateActorsAnimation (Animation_init now None) l).

Definition DeleteActorsAnimation_init (now : R) (action : Action)
  : Result Animation :=
  l <- Attr.actor_ids action ;;
  Ok (DeleteActorsAnimation (Animation_init now None) l).

Definition MovementAnimation_init (now : R) (action : Action)
  : Result Animation :=
  d <- Attr.duration action ;;
  i <- Attr.actor_id action ;;
  s <- Attr.speed action ;;
  b <- Attr.bearing action ;;
  Ok (MovementAnimation (Animation_init now (Some d)) i s b 0%Z).

Definition LocalizeAnimation_init (now : R) (action : Action)
  : Result Animation :=
  i <- Attr.actor_id action ;;
  p <- Attr.position action ;;
  Ok (LocalizeAnimation (Animation_init now None) i p).

Definition StatUpdateAnimation_init (now : R) (action : Action)
  : Result Animation :=
  i <- Attr.actor_id action ;;
  s <- Attr.stats action ;;
  Ok (StatUpdateAnimation (Animation_init now None) i s).

Definition PickStartAnimation_init (now : R) (action : Action)
  : Result Animation :=
  w <- Attr.who action ;;
  t <- Attr.what action ;;
  Ok (PickStartAnimation (Animation_init now None) w t).

Definition PickEndAnimation_init (now : R) (action : Action)
  : Result Animation :=
  w <- Attr.who action ;;
  Ok (PickEndAnimation (Animation_init now None) w).

Definition UpdateInventoryAnimation_init (now : R) (action : Action)
  : Result Animation :=
  o <- Attr.owner_id action ;;
  i <- Attr.inventory action ;;
  Ok (UpdateInventoryAnimation (Animation_init now None) o i).

Definition DamageAnimation_init (now : R) (action : Action)
  : Result Animation :=
  d <- Attr.dealer_id action ;;
  r <- Attr.receiver_id action ;;
  v <- Attr.variant action ;;
  h <- Attr.hand action ;;
  Ok (DamageAnimation (Animation_init now None) d r v h).

Definition _ANIMITION_CONSTRUCTORS
  : list (ActionClass * (R -> Action -> Result Animation)) :=
  [ (ConfigurationActionC, ConfigurationAnimation_init);
    (CraftStartActionC, CraftStartAnimation_init);
    (CraftEndActionC, CraftEndAnimation_init);
    (CreateActorsActionC, CreateActorsAnimation_init);
    (DeleteActorsActionC, DeleteActorsAnimation_init);
    (MovementActionC, MovementAnimation_init);
    (LocalizeActionC, LocalizeAnimation_init);
    (StatUpdateActionC, StatUpdateAnimation_init);
    (PickStartActionC, PickStartAnimation_init);
    (PickEndActionC, PickEndAnimation_init);
    (UpdateInventoryActionC, UpdateInventoryAnimation_init);
    (DamageActionC, DamageAnimation_init) ].

(** [table[key]]: raises [KeyError] for a key the table lacks. *)
Fixpoint getitem {V : Type} (table : list (ActionClass * V)) (key : ActionClass)
  : Result V :=
  match table with
  | [] => Raise KeyError
  | (k, v) :: rest => if ActionClass_eqb k key then Ok v else getitem rest key
  end.

Definition animation_from_action (now : R) (action : Action) : Result Animation :=
  constructor <- getitem _ANIMITION_CONSTRUCTORS (type_of action) ;;
  constructor now action.

(** The animation class that goes with each action class. *)
Definition animation_class_for (c : ActionClass) : AnimationClass :=
  match c with
  | ConfigurationActionC => ConfigurationAnimationC
  | CraftStartActionC => CraftStartAnimationC
  | CraftEndActionC => CraftEndAnimationC
  | CreateActorsActionC => CreateActorsAnimationC
  | DeleteActorsActionC => DeleteActorsAnimationC
  | MovementActionC => MovementAnimationC
  | LocalizeActionC => LocalizeAnimationC
  | StatUpdateActionC => StatUpdateAnimationC
  | PickStartActionC => PickStartAnimationC
  | PickEndActionC => PickEndAnimationC
  | UpdateInventoryActionC => UpdateInventoryAnimationC
  | DamageActionC => DamageAnimationC
  end.

End Animations.

(** ** A world to run the tasks in *)

Module Example.
Import Defs Geometry Essentials Entities Vocabulary StateModel Tasks.
Local Open Scope Z_scope.

(** An id above every id in use. *)
Definition next_id (ids : list ActorId) : ActorId :=
  1 + fold_right Z.max 0 ids.

(** Claims after the glossary of the spec: a weapon delivers [PAIN] to a
    damageable, food goes to an eater, an item delivers [CARGO] to an
    inventory. *)
Definition glossary_delivery_claims (f : Features) : list Claim :=
  (match tool_or_weapon f with Some _ => [PAIN] | None => [] end)
  ++ (match inventorable f with Some _ => [CARGO] | None => [] end).

Definition absorbs (f : Features) (c : Claim) : bool :=
  match c with
  | PAIN => match damageable f with Some _ => true | None => false end
  | FOOD => match eater f with Some _ => true | None => false end
  | CARGO => match inventory f with Some _ => true | None => false end
  end.

Definition glossary_get_first_absorbed (f : Features) (claims : list Claim)
  : option Claim :=
  find (absorbs f) claims.

(** Collaborators for the examples: fresh ids count upwards, the searches
    find nothing, every assembly is valid. *)
Definition collaborators : Collaborators.
Proof.
  refine {| generate_new_entity_id := next_id;
            find_closest_delivering_within := fun _ _ _ _ => None;
            find_closest_absorbing_within := fun _ _ _ _ => None;
            validate_assembly := fun _ _ _ => true;
            delivery_claims := glossary_delivery_claims;
            get_first_absorbed := glossary_get_first_absorbed |}.
  intros ids Hin.
  assert (Hle : forall l x, In x l -> x <= fold_right Z.max 0 l).
  { induction l as [| y l IH]; simpl; intros x Hx; [contradiction |].
    destruct Hx as [-> | Hx]; [lia | specialize (IH x Hx); lia]. }
  specialize (Hle ids _ Hin). unfold next_id in Hle. lia.
Defined.

Definition origin : Point := mkPoint 0 0.

Definition world : ElevationFunction := ElevationFunction_init 1000.

Definition axe_info : EntityInfo := as_info (Axe 2 None).

(** A pirate holding an axe in the left hand, next to a spruce. *)
Definition armed_pirate : Entity :=
  set_features (Pirate 1 (Some origin))
    (set_inventory (features (Pirate 1 (Some origin)))
       (Some (store_entry empty_inventory LEFT axe_info))).

Definition forest : State :=
  State_init world [armed_pirate; Axe 2 None; Spruce 7 (Some origin)].

(** The logs the spruce of the forest drops. *)
Definition spruce_drops : list Entity :=
  match generate_drops (Spruce 7 (Some origin)) with
  | Some logs => logs
  | None => []
  end.

(** A warrior, who has no inventory, next to rocks. *)
Definition quarry : State :=
  State_init world [Warrior 1 (Some origin); Rocks 4 (Some origin)].

(** A pirate with both hands full. *)
Definition busy_pirate : Entity :=
  set_features (Pirate 1 (Some origin))
    (set_inventory (features (Pirate 1 (Some origin)))
       (Some (store_entry
                (store_entry empty_inventory LEFT axe_info)
                RIGHT (as_info (Rocks 4 None))))).

Definition workshop : State :=
  State_init world [busy_pirate; Axe 2 None; Rocks 4 None].

Definition axe_assembly : Assembly :=
  mkAssembly "axe"
    [[mkItem 4 ROCKS 1]; [mkItem 2 TOOL 1]].

(** The stacks of [test_merge_entities_fit] and
    [test_merge_entities_not_fit]. *)
Definition rocks_of (id : ActorId) (n : Z) : Entity :=
  set_size (Rocks id None) n.

Definition rocks_inventory (n1 n2 : Z) : Inventory :=
  set_pocket_entry
    (store_entry empty_inventory LEFT (as_info (rocks_of 1 n1)))
    2 (Some (as_info (rocks_of 2 n2))).

Definition rocks_state (n1 n2 : Z) : State :=
  State_init world [rocks_of 1 n1; rocks_of 2 n2].

End Example.

(** ** The rest of [src/geometry.py] *)

Module Space.
Import PyMath Geometry Vocabulary.
Local Open Scope R_scope.

(** [math.degrees] and [math.radians]. *)
Definition degrees (x : R) : R := x * 180 / PI.
Definition radians (x : R) : R := x * PI / 180.

(** [Coordinates.cartesian_to_spherical] *)
Definition cartesian_to_spherical (x y z : R) : R * R * R :=
  let r := sqrt (x * x + y * y + z * z) in
  let theta :=
    if Req_dec_T y 0 then 0.5 * PI else atan2 (sqrt (x * x + z * z)) y in
  let phi := if Req_dec_T z 0 then 0.5 * PI else atan2 x z in
  (r, theta, phi).

(** [Coordinates.cartesian_to_geographical_radians] *)
Definition cartesian_to_geographical_radians (x y z : R) : R * R * R :=
  let '(r, theta, phi) := cartesian_to_spherical x y z in
  Coordinates.spherical_to_geographical_radians r theta phi.

(** [Coordinates.spherical_to_geographical_degrees] *)
Definition spherical_to_geographical_degrees (r theta phi : R) : R * R * R :=
  let '(r, lat, lon) :=
    Coordinates.spherical_to_geographical_radians r theta phi in
  (r, degrees lat, degrees lon).

(** [Coordinates.cartesian_to_geographical_degrees] *)
Definition cartesian_to_geographical_degrees (x y z : R) : R * R * R :=
  let '(r, theta, phi) := cartesian_to_spherical x y z in
  spherical_to_geographical_degrees r theta phi.

(** [Coordinates.geographical_degrees_to_spherical] *)
Definition geographical_degrees_to_spherical (r lat lon : R) : R * R * R :=
  Coordinates.geographical_radians_to_spherical r (radians lat) (radians lon).

(** A [numpy] array of floats with two axes, as the list of its rows, and
    one with a single axis. *)
Definition Matrix : Type := list (list R).
Definition Vector : Type := list R.

Fixpoint inner (u v : Vector) : R :=
  match u, v with
  | a :: u', b :: v' => a * b + inner u' v'
  | _, _ => 0
  end.

Definition column (j : nat) (m : Matrix) : Vector :=
  map (fun row => nth j row 0) m.

(** [a @ b] on two matrices. *)
Definition matmul (a b : Matrix) : Matrix :=
  map (fun row =>
         map (fun j => inner row (column j b))
           (seq 0 (List.length (hd [] b)))) a.

(** [m @ v.reshape(n, 1)]: a matrix applied to a column. *)
Definition matvec (m : Matrix) (v : Vector) : Vector :=
  map (fun row => inner row v) m.

(** [class Matrices3D] *)
Module Matrices3D.

Definition identity : Matrix :=
  [ [1; 0; 0; 0];
    [0; 1; 0; 0];
    [0; 0; 1; 0];
    [0; 0; 0; 1] ].

(** The divisions of [perspective] and [orthographic] raise
    [ZeroDivisionError] for a divisor [0] ([None] here). *)
Definition perspective (fovy width height near far : R) : option Matrix :=
  if Req_dec_T (tan (0.5 * fovy)) 0 then None
  else if Req_dec_T width 0 then None
  else if Req_dec_T (near - far) 0 then None
  else
    let s := 1.0 / tan (0.5 * fovy) in
    let sx := s * height / width in
    let sy := s in
    let zz := (far + near) / (near - far) in
    let zw := 2 * far * near / (near - far) in
    Some [ [sx; 0; 0; 0];
           [0; sy; 0; 0];
           [0; 0; zz; zw];
           [0; 0; -1; 0] ].

Definition orthographic (left right bottom top near far : R) : option Matrix :=
  if Req_dec_T (right - left) 0 then None
  else if Req_dec_T (top - bottom) 0 then None
  else if Req_dec_T (far - near) 0 then None
  else
    let wr := 1.0 / (right - left) in
    let hr := 1.0 / (top - bottom) in
    let dr := 1.0 / (far - near) in
    Some [ [2.0 * wr; 0; 0; - (right + left) * wr];
           [0; 2.0 * hr; 0; - (top + bottom) * hr];
           [0; 0; -2.0 * dr; - (far + near) * dr];
           [0; 0; 0; 1] ].

Definition translation (vector : R * R * R) : Matrix :=
  let '(x, y, z) := vector in
  [ [1; 0; 0; x];
    [0; 1; 0; y];
    [0; 0; 1; z];
    [0; 0; 0; 1] ].

Definition rotation_x (a : R) : Matrix :=
  let c := cos a in let s := sin a in
  [ [1.0; 0.0; 0.0; 0.0];
    [0.0; c; - s; 0.0];
    [0.0; s; c; 0.0];
    [0.0; 0.0; 0.0; 1.0] ].

Definition rotation_y (a : R) : Matrix :=
  let c := cos a in let s := sin a in
  [ [c; 0.0; s; 0.0];
    [0.0; 1.0; 0.0; 0.0];
    [- s; 0.0; c; 0.0];
    [0.0; 0.0; 0.0; 1.0] ].

Definition rotation_z (a : R) : Matrix :=
  let c := cos a in let s := sin a in
  [ [c; - s; 0.0; 0.0];
    [s; c; 0.0; 0.0];
    [0.0; 0.0; 1.0; 0.0];
    [0.0; 0.0; 0.0; 1.0] ].

Definition personal_to_global (theta phi bearing : R) : Matrix :=
  matmul (matmul (rotation_y phi) (rotation_x theta)) (rotation_y (- bearing)).

End Matrices3D.

(** [class Matrices2D] *)
Module Matrices2D.

Definition identity : Matrix :=
  [ [1; 0; 0];
    [0; 1; 0];
    [0; 0; 1] ].

Definition translation (vector : R * R) : Matrix :=
  let '(x, y) := vector in
  [ [1; 0; x];
    [0; 1; y];
    [0; 0; 1] ].

Definition rotation (a : R) : Matrix :=
  let c := cos a in let s := sin a in
  [ [c; - s; 0.0];
    [s; c; 0.0];
    [0.0; 0.0; 1.0] ].

Definition scale (scale : R * R) : Matrix :=
  let '(x, y) := scale in
  [ [x; 0.0; 0.0];
    [0.0; y; 0.0];
    [0.0; 0.0; 1.0] ].

End Matrices2D.

(** [a < b] on floats, as a truth value. *)
Definition Rltb (a b : R) : bool := if Rlt_dec a b then true else false.

(** [class Tile]: an id and the four corners, in homogeneous coordinates.
    A corner is kept as the list of its three numbers, before a transform
    (an array of shape [(3,)]) as after it (of shape [(3, 1)]). *)
Record Tile : Type := mkTile {
  tile_id : list string;
  points : list Vector;
}.

Definition Tile_init (id : list string) (position size : R * R) : Tile :=
  mkTile id
    [ [fst position; snd position; 1.0];
      [fst position; snd position + snd size; 1.0];
      [fst position + fst size; snd position + snd size; 1.0];
      [fst position + fst size; snd position; 1.0] ].

Definition transform (self : Tile) (matrix : Matrix) : Tile :=
  mkTile (tile_id self) (map (matvec matrix) (points self)).

Definition rotate (self : Tile) (angle : R) : Tile :=
  transform self (Matrices2D.rotation angle).

Definition translate (self : Tile) (vector : R * R) : Tile :=
  transform self (Matrices2D.translation vector).

Definition scale (self : Tile) (vector : R * R) : Tile :=
  transform self (Matrices2D.scale vector).

Definition rotated := rotate.
Definition translated := translate.
Definition scaled := scale.
Definition transformed := transform.

(** [Hills.evaluate], [Ranges.evaluate], [Continents.evaluate] *)
Definition evaluate (self : TerrainInfo) (pos : Point) (radius : R) : R :=
  match self with
  | Hills _ =>
      0.006 * radius
      * (theta pos / PI - 1) * sin (50 * phi pos)
      * (theta pos / PI - 2) * sin (50 * theta pos)
  | Ranges _ =>
      0.012 * radius * cos (10 * theta pos + PI) * cos (10 * phi pos)
  | Continents _ =>
      0.018 * radius * sin (theta pos) * sin (phi pos)
  end.

(** [ElevationFunction.add] *)
Definition add (self : ElevationFunction) (t : TerrainInfo) : ElevationFunction :=
  mkElevationFunction (radius self) (terrain self ++ [t]).

(** [sum(...)] of floats, from [0]. *)
Definition sum (l : list R) : R := fold_left Rplus l 0.

(** [ElevationFunction.evaluate_without_radius] *)
Definition evaluate_without_radius (self : ElevationFunction) (position : Point)
  : R :=
  sum (map (fun t => evaluate t position (radius self)) (terrain self)).

(** [ElevationFunction.evaluate_with_radius] *)
Definition evaluate_with_radius (self : ElevationFunction) (position : Point)
  : R :=
  radius self + evaluate_without_radius self position.

(** [class Polyhedron]: the vertices in order, and the set of triangles,
    each a sorted triple of indices. *)
Definition Point3D : Type := R * R * R.
Definition Indices3D : Type := Z * Z * Z.

Record Polyhedron : Type := mkPolyhedron {
  vertices : list Point3D;
  triangles : list Indices3D;
}.

(** [tuple(sorted(indices))] on a triple. *)
Definition sorted3 (t : Indices3D) : Indices3D :=
  let '(a, b, c) := t in
  let lo := Z.min a (Z.min b c) in
  let hi := Z.max a (Z.max b c) in
  (lo, (a + b + c - lo - hi)%Z, hi).

Definition Indices3D_eqb (s t : Indices3D) : bool :=
  let '(a, b, c) := s in
  let '(a', b', c') := t in
  (a =? a')%Z && (b =? b')%Z && (c =? c')%Z.

(** [set.add]: a set as the list of its elements, without repetition. *)
Definition set_add (t : Indices3D) (s : list Indices3D) : list Indices3D :=
  if existsb (Indices3D_eqb t) s then s else s ++ [t].

(** [set(... for indices in triangles)] *)
Definition set_of (l : list Indices3D) : list Indices3D :=
  fold_left (fun s t => set_add t s) l [].

Definition Polyhedron_init (vertices : list Point3D) (triangles : list Indices3D)
  : Polyhedron :=
  mkPolyhedron vertices (set_of (map sorted3 triangles)).




(** [Structures.icosahedron] *)
Definition icosahedron : Polyhedron :=
  let f := (sqrt 5.0 + 1.0) / 2.0 in
  let b := sqrt (2.0 / (5.0 + sqrt 5.0)) in
  let a := b * f in
  Polyhedron_init
    [ (0, b, a); (0, b, - a); (0, - b, a); (0, - b, - a);
      (a, 0, b); (a, 0, - b); (- a, 0, b); (- a, 0, - b);
      (b, a, 0); (b, - a, 0); (- b, a, 0); (- b, - a, 0) ]
    [ (0, 2, 4); (0, 2, 6); (1, 3, 5); (1, 3, 7);
      (4, 5, 8); (4, 5, 9); (6, 7, 10); (6, 7, 11);
      (8, 10, 0); (8, 10, 1); (9, 11, 2); (9, 11, 3);
      (4, 8, 0); (5, 8, 1); (4, 9, 2); (5, 9, 3);
      (6, 10, 0); (7, 10, 1); (6, 11, 2); (7, 11, 3) ]%Z.

(** [WorldGenerator.generate] of [src/generator.py] builds the elevation
    function of the world: hills, ranges and continents at the origin. *)
Definition generate_elevation_function (radius : R) : ElevationFunction :=
  let origin := mkPoint 0.0 0.0 in
  let elevation_function := ElevationFunction_init radius in
  let elevation_function := add elevation_function (Hills origin) in
  let elevation_function := add elevation_function (Ranges origin) in
  add elevation_function (Continents origin).

(** The square of the length of a vector of space. *)
Definition norm2 (v : Point3D) : R :=
  let '(x, y, z) := v in x * x + y * y + z * z.


(** How many triangles use a vertex. *)
Definition uses (i : Z) (t : Indices3D) : bool :=
  let '(a, b, c) := t in ((a =? i) || (b =? i) || (c =? i))%Z.

(** The vertex a triangle refers to by its index, and the square of the
    distance of two vectors. *)
Definition vertex_at (p : Polyhedron) (i : Z) : Point3D :=
  nth (Z.to_nat i) (vertices p) (0, 0, 0).

Definition dist2 (u v : Point3D) : R :=
  let '(x, y, z) := u in
  let '(x', y', z') := v in
  (x - x') * (x - x') + (y - y') * (y - y') + (z - z') * (z - z').

End Space.

(** ** What a Python call comes to *)

Module Python.

Inductive Error : Type :=
| AssertionError
| AttributeError
| KeyError.

(** A call returns a value or raises. *)
Inductive Outcome (A : Type) : Type :=
| Done (value : A)
| Raised (error : Error).
Arguments Done {A} value.
Arguments Raised {A} error.

End Python.

(** ** The rest of [src/animations.py] *)

Module Playback.
Import Defs Geometry Essentials Vocabulary Animations Python Space.
Local Open Scope R_scope.

(** [class AnimationName] *)
Definition IDLE : string := "idle"%string.
Definition WALK : string := "walk"%string.
Definition PICK : string := "pick"%string.
Definition DAMAGED : string := "damaged"%string.
Definition SWING_LEFT : string := "swing_left"%string.
Definition SWING_RIGHT : string := "swing_right"%string.

(** The attributes [Animation.__init__] sets. *)
Definition base_of (a : Animation) : AnimationBase :=
  match a with
  | ConfigurationAnimation b _ _ | CraftStartAnimation b _
  | CraftEndAnimation b _ | CreateActorsAnimation b _
  | DeleteActorsAnimation b _ | MovementAnimation b _ _ _ _
  | LocalizeAnimation b _ _ | StatUpdateAnimation b _ _
  | PickStartAnimation b _ _ | PickEndAnimation b _
  | UpdateInventoryAnimation b _ _ | DamageAnimation b _ _ _ _ => b
  end.

Definition with_base (a : Animation) (b : AnimationBase) : Animation :=
  match a with
  | ConfigurationAnimation _ h e => ConfigurationAnimation b h e
  | CraftStartAnimation _ c => CraftStartAnimation b c
  | CraftEndAnimation _ c => CraftEndAnimation b c
  | CreateActorsAnimation _ l => CreateActorsAnimation b l
  | DeleteActorsAnimation _ l => DeleteActorsAnimation b l
  | MovementAnimation _ i s g n => MovementAnimation b i s g n
  | LocalizeAnimation _ i p => LocalizeAnimation b i p
  | StatUpdateAnimation _ i s => StatUpdateAnimation b i s
  | PickStartAnimation _ i t => PickStartAnimation b i t
  | PickEndAnimation _ i => PickEndAnimation b i
  | UpdateInventoryAnimation _ o i => UpdateInventoryAnimation b o i
  | DamageAnimation _ d r v h => DamageAnimation b d r v h
  end.

(** [Animation.expired], at the moment [time.monotonic()] returns [now]. *)
Definition expired (self : Animation) (now : R) : bool :=
  if _expired (base_of self) then true
  else
    match timeout (base_of self) with
    | Some t => Rltb (start_time (base_of self) + t) now
    | None => false
    end.

(** [Animation.expire] *)
Definition expire (self : Animation) : Animation :=
  with_base self
    (mkAnimationBase true (start_time (base_of self)) (timeout (base_of self))).

(** [Animation.get_actor_id], as [MovementAnimation] and
    [LocalizeAnimation] override it. *)
Definition get_actor_id (self : Animation) : option ActorId :=
  match self with
  | MovementAnimation _ actor_id _ _ _ => Some actor_id
  | LocalizeAnimation _ actor_id _ => Some actor_id
  | _ => None
  end.

(** Modelled from the spec: [defs.Attachement], where an item hangs on the
    skeleton of its owner. *)
Inductive Attachement : Type := LEFT_ITEM | RIGHT_ITEM.

(** Modelled from the spec: what [tick] asks of [scene.Scene], the actor
    with an id, [None] when the scene has none ([LocalizeAnimation.tick]
    tests for it), and the radius of the world. *)
Record Scene : Type := mkScene {
  get_actor : ActorId -> option Actor;
  scene_get_radius : R;
}.

(** The calls [tick] makes on the scene, its actors, the world and the
    gui, in the order it makes them. *)
Inductive Call : Type :=
| scene_configure (hero_actor_id : ActorId) (ef : ElevationFunction)
| scene_create_actors (actors : list Actor)
| world_create_renderers (actors : list Actor)
| scene_delete_actors (ids : list ActorId)
| world_delete_renderers (ids : list ActorId)
| actor_move_by (id : ActorId) (distance bearing radius : R)
| actor_set_position (id : ActorId) (position : Point)
| world_play_animation (id : ActorId) (name : string)
| gui_set_stats (stats : Stats)
| gui_set_inventory (inventory : Inventory)
| scene_hide_actors (ids : list ActorId)
| world_attach_skeleton (owner : ActorId) (item : option ActorId)
    (attachement : Attachement).

(** Modelled from the spec: [Inventory.get_all_ids], the ids of the items
    in the hands and in the pockets. *)
Definition get_all_ids (inv : Inventory) : list ActorId :=
  (match left_hand inv with Some e => [info_id e] | None => [] end)
  ++ (match right_hand inv with Some e => [info_id e] | None => [] end)
  ++ map (fun kv => info_id (snd kv)) (entries inv).

(** The [tick] of each animation class. *)
Definition tick (self : Animation) (interval : R) (scene : Scene)
  : Outcome (Animation * list Call) :=
  match self with
  | ConfigurationAnimation _ hero_actor_id elevation_function =>
      Done (expire self, [scene_configure hero_actor_id elevation_function])
  | CraftStartAnimation _ _ => Done (expire self, [])
  | CraftEndAnimation _ _ => Done (expire self, [])
  | CreateActorsAnimation _ actors =>
      Done (expire self,
            [scene_create_actors actors; world_create_renderers actors])
  | DeleteActorsAnimation _ actor_ids =>
      Done (expire self,
            [scene_delete_actors actor_ids; world_delete_renderers actor_ids])
  | MovementAnimation b actor_id speed bearing _tick_count =>
      let distance := speed * interval in
      match get_actor scene actor_id with
      | None => Raised AttributeError
      | Some _ =>
          Done (MovementAnimation b actor_id speed bearing (_tick_count + 1)%Z,
                actor_move_by actor_id distance bearing (scene_get_radius scene)
                :: (if (_tick_count =? 0)%Z
                    then [world_play_animation actor_id WALK] else []))
      end
  | LocalizeAnimation _ actor_id position =>
      Done (expire self,
            (match get_actor scene actor_id with
             | Some _ => [actor_set_position actor_id position]
             | None => []
             end)
            ++ [world_play_animation actor_id IDLE])
  | StatUpdateAnimation _ _ stats => Done (expire self, [gui_set_stats stats])
  | PickStartAnimation _ actor_id _ =>
      Done (expire self, [world_play_animation actor_id PICK])
  | PickEndAnimation _ actor_id =>
      Done (expire self, [world_play_animation actor_id IDLE])
  | UpdateInventoryAnimation _ owner_id inventory =>
      Done (expire self,
            [gui_set_inventory inventory;
             scene_hide_actors (get_all_ids inventory);
             world_attach_skeleton owner_id (get_hand inventory LEFT) LEFT_ITEM;
             world_attach_skeleton owner_id (get_hand inventory RIGHT) RIGHT_ITEM])
  | DamageAnimation _ dealer_id receiver_id _ hand =>
      Done (expire self,
            [match hand with
             | LEFT => world_play_animation dealer_id SWING_LEFT
             | RIGHT => world_play_animation dealer_id SWING_RIGHT
             end;
             world_play_animation receiver_id DAMAGED])
  end.

(** One [tick] per interval, on a scene that stays as it is; the calls of
    all the ticks, in order. *)
Fixpoint ticks (self : Animation) (intervals : list R) (scene : Scene)
  : Outcome (Animation * list Call) :=
  match intervals with
  | [] => Done (self, [])
  | interval :: rest =>
      match tick self interval scene with
      | Raised e => Raised e
      | Done (self1, calls1) =>
          match ticks self1 rest scene with
          | Raised e => Raised e
          | Done (self2, calls2) => Done (self2, calls1 ++ calls2)
          end
      end
  end.

(** The distances of the [move_by] calls, and how often an animation is
    played, in a list of calls. *)
Definition moved_distance (c : Call) : R :=
  match c with
  | actor_move_by _ distance _ _ => distance
  | _ => 0
  end.

Definition plays (name : string) (c : Call) : bool :=
  match c with
  | world_play_animation _ n => String.eqb n name
  | _ => false
  end.

(** The [_tick_count] of a [MovementAnimation]. *)
Definition tick_count (a : Animation) : Z :=
  match a with
  | MovementAnimation _ _ _ _ n => n
  | _ => 0%Z
  end.

End Playback.

(** ** [src/controls.py] *)

(** The key symbols of [pyglet.window.key] the controls bind, and any
    other symbol by its code. *)
Module key.

Inductive Symbol : Type :=
| BRACKETLEFT | BRACKETRIGHT | PLUS | NUM_ADD | MINUS | NUM_SUBTRACT
| A | D | E | Q | S | W | LEFT | RIGHT | UP | DOWN
| Other (code : Z).

Definition eqb (a b : Symbol) : bool :=
  match a, b with
  | BRACKETLEFT, BRACKETLEFT | BRACKETRIGHT, BRACKETRIGHT | PLUS, PLUS
  | NUM_ADD, NUM_ADD | MINUS, MINUS | NUM_SUBTRACT, NUM_SUBTRACT
  | A, A | D, D | E, E | Q, Q | S, S | W, W
  | LEFT, LEFT | RIGHT, RIGHT | UP, UP | DOWN, DOWN => true
  | Other m, Other n => Z.eqb m n
  | _, _ => false
  end.

End key.

Module ControlsModel.
Import Python.
Local Open Scope R_scope.

(** A key of the tables: the symbol and the masked modifiers. *)
Definition Key : Type := key.Symbol * Z.

Definition Key_eqb (a b : Key) : bool :=
  key.eqb (fst a) (fst b) && Z.eqb (snd a) (snd b).

(** A Python [dict] with such keys, in insertion order. *)
Section KeyDict.
Context {V : Type}.

(** [d.get(k, None)] *)
Fixpoint get (d : list (Key * V)) (k : Key) : option V :=
  match d with
  | [] => None
  | (k', v) :: rest => if Key_eqb k' k then Some v else get rest k
  end.

(** [k in d] *)
Definition mem (d : list (Key * V)) (k : Key) : bool :=
  match get d k with Some _ => true | None => false end.

(** [d[k] = v] *)
Fixpoint setitem (d : list (Key * V)) (k : Key) (v : V) : list (Key * V) :=
  match d with
  | [] => [(k, v)]
  | (k', v') :: rest =>
      if Key_eqb k' k then (k, v) :: rest else (k', v') :: setitem rest k v
  end.

(** [del d[k]]: raises [KeyError] for a key the dictionary lacks. *)
Fixpoint delitem (d : list (Key * V)) (k : Key) : Outcome (list (Key * V)) :=
  match d with
  | [] => Raised KeyError
  | (k', v') :: rest =>
      if Key_eqb k' k then Done rest
      else
        match delitem rest k with
        | Done rest' => Done ((k', v') :: rest')
        | Raised e => Raised e
        end
  end.

End KeyDict.

(** The calls the bound actions make on the world. *)
Inductive WorldCall : Type :=
| tilt_by (angle : R)
| zoom_by (steps : Z)
| move (x y : R)
| rotate_by (angle : R).

Record Controls : Type := mkControls {
  prev_moment : option R;
  active_actions : list (Key * (R -> WorldCall));
}.

Section WithModifiers.

(** [key.MOD_CTRL] and [key.MOD_SHIFT] of [pyglet]. *)
Variables MOD_CTRL MOD_SHIFT : Z.

Definition MOD_MASK : Z := Z.lor MOD_CTRL MOD_SHIFT.
Definition NOMODS : Z := 0.

Definition press_actions : list (Key * WorldCall) :=
  [ ((key.BRACKETLEFT, NOMODS), tilt_by (-0.1 * PI));
    ((key.BRACKETRIGHT, NOMODS), tilt_by (0.1 * PI));
    ((key.PLUS, NOMODS), zoom_by 5);
    ((key.NUM_ADD, NOMODS), zoom_by 5);
    ((key.MINUS, NOMODS), zoom_by (-5));
    ((key.NUM_SUBTRACT, NOMODS), zoom_by (-5)) ].

Definition release_actions : list (Key * WorldCall) := [].

Definition repeatable_actions : list (Key * (R -> WorldCall)) :=
  [ ((key.A, NOMODS), fun intv => move (- PI * intv) 0.0);
    ((key.D, NOMODS), fun intv => move (PI * intv) 0.0);
    ((key.E, NOMODS), fun intv => rotate_by (-0.5 * PI * intv));
    ((key.Q, NOMODS), fun intv => rotate_by (0.5 * PI * intv));
    ((key.S, NOMODS), fun intv => move 0.0 (PI * intv));
    ((key.W, NOMODS), fun intv => move 0.0 (- PI * intv));
    ((key.LEFT, NOMODS), fun intv => move (- PI * intv) 0.0);
    ((key.RIGHT, NOMODS), fun intv => move (PI * intv) 0.0);
    ((key.UP, NOMODS), fun intv => move 0.0 (- PI * intv));
    ((key.DOWN, NOMODS), fun intv => move 0.0 (PI * intv)) ].

(** [Controls.__init__] *)
Definition Controls_init : Controls := mkControls None [].

(** [Controls.handle_key_press], when [time.monotonic()] returns [now]:
    the controls as the call leaves them and the calls made on the world. *)
Definition handle_key_press (self : Controls) (now : R)
    (symbol : key.Symbol) (modifiers : Z) : Controls * list WorldCall :=
  let k := (symbol, Z.land MOD_MASK modifiers) in
  match get press_actions k with
  | Some action => (mkControls (Some now) (active_actions self), [action])
  | None =>
      match get repeatable_actions k with
      | Some action =>
          (mkControls (Some now) (setitem (active_actions self) k action), [])
      | None => (mkControls (Some now) (active_actions self), [])
      end
  end.

(** [Controls.handle_key_release] *)
Definition handle_key_release (self : Controls)
    (symbol : key.Symbol) (modifiers : Z)
  : Outcome (Controls * list WorldCall) :=
  let k := (symbol, Z.land MOD_MASK modifiers) in
  match get release_actions k with
  | Some action => Done (self, [action])
  | None =>
      if mem repeatable_actions k then
        match delitem (active_actions self) k with
        | Done active => Done (mkControls (prev_moment self) active, [])
        | Raised e => Raised e
        end
      else Done (self, [])
  end.

(** [Controls.on_draw], when [time.monotonic()] returns [now]: the
    controls, the calls made on the world and the value returned. *)
Definition on_draw (self : Controls) (now : R)
  : Controls * list WorldCall * bool :=
  let current_moment := now in
  let calls :=
    match prev_moment self with
    | Some prev =>
        let interval := current_moment - prev in
        if Rlt_dec 0 interval
        then map (fun ka => snd ka interval) (active_actions self)
        else []
    | None => []
    end in
  let active := (0 <? List.length (active_actions self))%nat in
  (mkControls (if active then Some current_moment else None)
     (active_actions self),
   calls, active).

(** [on_draw] at each of the moments of a list, and all the calls made. *)
Fixpoint draws (self : Controls) (moments : list R) : Controls * list WorldCall :=
  match moments with
  | [] => (self, [])
  | now :: rest =>
      let '(self1, calls1, _) := on_draw self now in
      let '(self2, calls2) := draws self1 rest in
      (self2, calls1 ++ calls2)
  end.

End WithModifiers.

(** How far a call moves the world along its first axis. *)
Definition move_x (c : WorldCall) : R :=
  match c with
  | move x _ => x
  | _ => 0
  end.

(** The moments of a list come one after the other, after [t0]. *)
Fixpoint increasing (t0 : R) (moments : list R) : Prop :=
  match moments with
  | [] => True
  | t :: rest => t0 < t /\ increasing t rest
  end.

End ControlsModel.

(** ** The behaviour of the entities and the rest of the tasks *)

Module Behaviour.
Import Defs Geometry Essentials Entities Vocabulary StateModel Tasks Python.
Local Open Scope R_scope.

(** The task of an entity: [essentials.IdleTask] or a task of
    [src/tasks.py]. *)
Inductive EntityTask : Type :=
| IdleTask
| Running (task : Task).

(** [WalkTask.finish]: the assertions fail for an entity that is not
    registered or has no position. *)
Definition WalkTask_finish (self : WalkTask) (state : State)
  : Outcome (WalkTask * State * list Action) :=
  match get_entity state (wt_entity_id self) with
  | None => Raised AssertionError
  | Some entity =>
      match get_position entity with
      | None => Raised AssertionError
      | Some position =>
          Done (self, state, [LocalizeAction (wt_entity_id self) position])
      end
  end.

(** [Warrior.handle_event]; [bearing] is what
    [random.uniform(-pi, pi)] returns. *)
Definition Warrior_handle_event (self : Entity) (task : EntityTask)
    (event : Event) (bearing : R) : EntityTask :=
  match event with
  | ResumeEvent _ | FinishedEvent _ =>
      Running (TWalk (WalkTask_init (get_id self) 1.0 bearing 1.0))
  | _ => task
  end.

(** The events that set a warrior walking. *)
Definition wakes (event : Event) : bool :=
  match event with
  | ResumeEvent _ | FinishedEvent _ => true
  | _ => false
  end.

(** [tasks.InventorySwapTask], the class [Pirate.handle_event] calls with a
    performer, a hand and an inventory index: [src/tasks.py] defines no
    class of that name. *)
Definition tasks_InventorySwapTask : option (ActorId -> Hand -> Z -> Task) :=
  None.

Section WithConclude.

(** [Task.conclude] of [essentials]. *)
Variable conclude : EntityTask -> EntityTask.

(** [Pirate.handle_event]: the task of the pirate after the event. *)
Definition Pirate_handle_event (self : Entity) (task : EntityTask)
    (event : Event) : Outcome EntityTask :=
  match inventory (features self) with
  | None => Raised AssertionError
  | Some inv =>
      match event with
      | ConcludeEvent _ => Done (conclude task)
      | StopEvent _ | FinishedEvent _ => Done IdleTask
      | StartMovingEvent _ bearing =>
          Done (Running (TMovement (MovementTask_init (get_id self) 1.0 bearing)))
      | HandActivationEvent _ hand object_id =>
          match get_hand inv hand with
          | Some item_id =>
              Done (Running (TUseItem
                               (UseItemTask_init (get_id self) item_id object_id hand)))
          | None =>
              Done (Running (TPickItem
                               (PickItemTask_init (get_id self) object_id hand)))
          end
      | InventorySwapEvent _ hand inventory_index =>
          match tasks_InventorySwapTask with
          | None => Raised AttributeError
          | Some InventorySwapTask =>
              Done (Running (InventorySwapTask (get_id self) hand inventory_index))
          end
      | CraftEvent _ assembly =>
          Done (Running (TCraft (CraftTask_init (get_id self) assembly)))
      | ResumeEvent _ => Done IdleTask
      | DamageEvent _ _ => Done task
      end
  end.

End WithConclude.

(** What a pick leaves of the picker and of the item. *)
Definition holding (entity : Entity) (inv : Inventory) : Entity :=
  set_features entity (set_inventory (features entity) (Some inv)).

Definition stored (item : Entity) (owner : ActorId) : Entity :=
  set_position
    (set_features item
       (with_inventorable (features item) (Some (mkInventorable (Some owner)))))
    None.

(** The events a job emits when it completes. *)
Definition job_events (job : Job) : list Event :=
  match job with
  | MovementJob _ _ _ _ events => events
  | WaitJob _ events => events
  | DamageJob _ _ _ _ events => events
  end.

(** A pirate with empty hands next to rocks. *)
Definition beach : State :=
  State_init Example.world
    [Pirate 1%Z (Some Example.origin); Rocks 4%Z (Some Example.origin)].

End Behaviour.

Module GeometryFacts.
Import PyMath Geometry.
Local Open Scope R_scope.

(** *** Trigonometric helpers *)

Lemma sin_cos_sq (x : R) : sin x * sin x + cos x * cos x = 1.
Proof. generalize (sin2_cos2 x); unfold Rsqr; lra. Qed.

Lemma sin_half_abs_sq (a : R) :
  sin (0.5 * Rabs a) * sin (0.5 * Rabs a) = (1 - cos a) / 2.
Proof.
  assert (E : forall x, sin (0.5 * x) * sin (0.5 * x) = (1 - cos x) / 2).
  { intro x. replace (cos x) with (cos (2 * (0.5 * x))) by (f_equal; lra).
    rewrite cos_2a_sin. lra. }
  unfold Rabs; destruct (Rcase_abs a) as [Hneg | Hpos].
  - rewrite E, cos_neg. reflexivity.
  - apply E.
Qed.

(** The haversine of two coordinates is half of one minus the cosine of the
    central angle, written with the spherical law of cosines. *)
Lemma haversine_law_of_cosines (c1 c2 : Coordinate) :
  haversine c1 c2 =
  (1 - (sin (lat c1) * sin (lat c2)
        + cos (lat c1) * cos (lat c2) * cos (lon c1 - lon c2))) / 2.
Proof.
  unfold haversine; cbv zeta.
  replace (cos (lat c1) * cos (lat c2)
           * sin (0.5 * Rabs (lon c1 - lon c2))
           * sin (0.5 * Rabs (lon c1 - lon c2)))
    with (cos (lat c1) * cos (lat c2)
          * (sin (0.5 * Rabs (lon c1 - lon c2))
             * sin (0.5 * Rabs (lon c1 - lon c2)))) by ring.
  rewrite !sin_half_abs_sq, cos_minus. field.
Qed.

Lemma coord_distance_haversine (c1 c2 : Coordinate) (r : R) :
  coord_great_circle_distance_to c1 c2 r = 2 * r * asin (sqrt (haversine c1 c2)).
Proof. reflexivity. Qed.

(** When the haversine is [(1 - cos D) / 2] for an angle [D] of [[0, pi]],
    the distance formula yields [r * D]. *)
Lemma asin_sqrt_half_angle (h D r : R) :
  0 <= D <= PI -> h = (1 - cos D) / 2 -> 2 * r * asin (sqrt h) = r * D.
Proof.
  intros HD ->.
  assert (Hs : (1 - cos D) / 2 = sin (D / 2) * sin (D / 2)).
  { replace (cos D) with (cos (2 * (D / 2))) by (f_equal; lra).
    rewrite cos_2a_sin. lra. }
  rewrite Hs, sqrt_square by (apply sin_ge_0; lra).
  rewrite asin_sin by lra. lra.
Qed.

(** Cauchy-Schwarz for the law of cosines: the cosine of the central angle
    lies in [[-1, 1]]. *)
Lemma law_of_cosines_bound (a b k : R) :
  -1 <= k <= 1 ->
  -1 <= sin a * sin b + cos a * cos b * k <= 1.
Proof.
  intros Hk.
  pose proof (sin_cos_sq a) as Ha. pose proof (sin_cos_sq b) as Hb.
  set (sa := sin a) in *. set (sb := sin b) in *.
  set (ca := cos a) in *. set (cb := cos b) in *.
  clearbody sa sb ca cb.
  pose proof (Rle_0_sqr (sa - sb)) as H1. pose proof (Rle_0_sqr (sa + sb)) as H2.
  pose proof (Rle_0_sqr (ca - cb)) as H3. pose proof (Rle_0_sqr (ca + cb)) as H4.
  unfold Rsqr in H1, H2, H3, H4.
  assert (H5 : - (ca * ca + cb * cb) / 2 <= ca * cb * k <= (ca * ca + cb * cb) / 2).
  { assert (- (ca * ca + cb * cb) / 2 <= ca * cb <= (ca * ca + cb * cb) / 2) by nra.
    destruct (Rle_dec 0 (ca * cb)); nra. }
  nra.
Qed.

Lemma cos_central_bound (c1 c2 : Coordinate) : -1 <= cos_central c1 c2 <= 1.
Proof. apply law_of_cosines_bound, COS_bound. Qed.

Lemma coord_distance_acos (c1 c2 : Coordinate) (r : R) :
  coord_great_circle_distance_to c1 c2 r = r * acos (cos_central c1 c2).
Proof.
  rewrite coord_distance_haversine.
  apply asin_sqrt_half_angle.
  - apply acos_bound.
  - rewrite cos_acos by apply cos_central_bound.
    apply haversine_law_of_cosines.
Qed.

Lemma cos_minus_2PI (x : R) : cos (x - 2 * PI) = cos x.
Proof. rewrite cos_minus, cos_2PI, sin_2PI. ring. Qed.

Lemma cos_plus_2PI (x : R) : cos (x + 2 * PI) = cos x.
Proof. rewrite cos_plus, cos_2PI, sin_2PI. ring. Qed.

Lemma sin_lat_to_coordinate (p : Point) : sin (lat (to_coordinate p)) = cos (theta p).
Proof.
  unfold to_coordinate; simpl.
  replace (0.5 * PI - theta p) with (PI / 2 - theta p) by lra.
  apply sin_shift.
Qed.

Lemma cos_lat_to_coordinate (p : Point) : cos (lat (to_coordinate p)) = sin (theta p).
Proof.
  unfold to_coordinate; simpl.
  replace (0.5 * PI - theta p) with (PI / 2 - theta p) by lra.
  apply cos_shift.
Qed.

Lemma cos_lon_to_coordinate (p q : Point) :
  cos (lon (to_coordinate p) - lon (to_coordinate q)) = cos (phi p - phi q).
Proof.
  unfold to_coordinate; simpl.
  destruct (Rle_dec (phi p) PI), (Rle_dec (phi q) PI); try reflexivity.
  - replace (phi p - (phi q - 2.0 * PI)) with (phi p - phi q + 2 * PI) by lra.
    apply cos_plus_2PI.
  - replace (phi p - 2.0 * PI - phi q) with (phi p - phi q - 2 * PI) by lra.
    apply cos_minus_2PI.
  - f_equal; lra.
Qed.

(** For points, the law-of-cosines expression is the dot product of the
    position vectors. *)
Lemma cos_central_dot (p q : Point) :
  cos_central (to_coordinate p) (to_coordinate q) =
  dot (unit_vector p) (unit_vector q).
Proof.
  unfold cos_central.
  rewrite !sin_lat_to_coordinate, !cos_lat_to_coordinate, cos_lon_to_coordinate.
  unfold unit_vector, Coordinates.spherical_to_cartesian, dot; cbv zeta.
  rewrite cos_minus. ring.
Qed.

Lemma roundtrip_theta (p : Point) : theta (to_point (to_coordinate p)) = theta p.
Proof.
  destruct p as [t f]; unfold to_point, to_coordinate; simpl. lra.
Qed.


Lemma cos_central_to_point (c1 c2 : Coordinate) :
  dot (unit_vector (to_point c1)) (unit_vector (to_point c2)) = cos_central c1 c2.
Proof.
  unfold cos_central, unit_vector, Coordinates.spherical_to_cartesian, dot,
    to_point; cbv zeta; simpl.
  replace (0.5 * PI - lat c1) with (PI / 2 - lat c1) by lra.
  replace (0.5 * PI - lat c2) with (PI / 2 - lat c2) by lra.
  rewrite !sin_shift, !cos_shift.
  assert (E : forall f1 f2,
             cos f1 = cos (lon c1) -> sin f1 = sin (lon c1) ->
             cos f2 = cos (lon c2) -> sin f2 = sin (lon c2) ->
             1 * cos (lat c1) * sin f1 * (1 * cos (lat c2) * sin f2)
             + 1 * sin (lat c1) * (1 * sin (lat c2))
             + 1 * cos (lat c1) * cos f1 * (1 * cos (lat c2) * cos f2)
             = sin (lat c1) * sin (lat c2)
               + cos (lat c1) * cos (lat c2) * cos (lon c1 - lon c2)).
  { intros f1 f2 -> -> -> ->. rewrite cos_minus. ring. }
  assert (P : forall x, cos (x + 2.0 * PI) = cos x /\ sin (x + 2.0 * PI) = sin x).
  { intro x. replace (2.0 * PI) with (2 * PI) by lra.
    rewrite cos_plus, sin_plus, cos_2PI, sin_2PI. split; ring. }
  destruct (Rge_dec (lon c1) 0), (Rge_dec (lon c2) 0);
    apply E; try reflexivity; apply P.
Qed.

(** C7. The great-circle distance of two points of a sphere of radius [r] is
    [r] times their central angle (the angle between their position vectors):
    the haversine expression of [great_circle_distance_to], read over the
    reals, equals the radius times the angular separation.  This holds for
    [Point.great_circle_distance_to] and for
    [Coordinate.great_circle_distance_to]. *)
Theorem great_circle_distance_to_radius_times_angle :
  (forall (p q : Point) (r : R),
      great_circle_distance_to p q r = r * central_angle p q)
  /\ (forall (c1 c2 : Coordinate) (r : R),
        coord_great_circle_distance_to c1 c2 r
        = r * central_angle (to_point c1) (to_point c2)).
Proof.
  split.
  - intros p q r.
    unfold great_circle_distance_to, central_angle; cbv zeta.
    rewrite coord_distance_acos, cos_central_dot. reflexivity.
  - intros c1 c2 r. unfold central_angle.
    rewrite coord_distance_acos, cos_central_to_point. reflexivity.
Qed.

(** A point is at distance [0] from itself. *)
Lemma great_circle_distance_to_self (p : Point) (r : R) :
  great_circle_distance_to p p r = 0.
Proof.
  unfold great_circle_distance_to; cbv zeta.
  rewrite coord_distance_acos. unfold cos_central.
  replace (lon (to_coordinate p) - lon (to_coordinate p)) with 0 by ring.
  rewrite cos_0.
  replace (sin (lat (to_coordinate p)) * sin (lat (to_coordinate p))
           + cos (lat (to_coordinate p)) * cos (lat (to_coordinate p)) * 1)
    with 1 by (pose proof (sin_cos_sq (lat (to_coordinate p))); lra).
  rewrite acos_1. ring.
Qed.

(** *** Moving along a great circle *)

Lemma sqrt_sq_pos (x : R) : 0 < x -> sqrt (x * x) = x.
Proof. intros; apply sqrt_square; lra. Qed.

Lemma sqrt_sq_neg (x : R) : x < 0 -> sqrt (x * x) = - x.
Proof.
  intros. replace (x * x) with (- x * - x) by ring. apply sqrt_square; lra.
Qed.

Lemma norm_factor (x y : R) :
  x <> 0 -> x * x + y * y = (x * x) * (1 + (y / x)²).
Proof. intros; unfold Rsqr; field; assumption. Qed.

Lemma one_plus_sqr_pos (t : R) : 0 < 1 + t².
Proof. pose proof (Rle_0_sqr t); lra. Qed.

Lemma sqrt_one_plus_sqr_pos (t : R) : 0 < sqrt (1 + t²).
Proof. apply sqrt_lt_R0, one_plus_sqr_pos. Qed.

(** The cosine of [atan2 y x] is [x] over the norm of [(x, y)]. *)
Lemma norm_cos_atan2 (y x : R) : sqrt (x * x + y * y) * cos (atan2 y x) = x.
Proof.
  unfold atan2.
  destruct (Rlt_dec 0 x) as [Hpos | Hnpos].
  - rewrite norm_factor by lra.
    rewrite sqrt_mult by (try apply Rlt_le, one_plus_sqr_pos; nra).
    rewrite sqrt_sq_pos, cos_atan by assumption.
    pose proof (sqrt_one_plus_sqr_pos (y / x)). field. lra.
  - destruct (Rlt_dec x 0) as [Hneg | Hnneg].
    + assert (E : sqrt (x * x + y * y) * - cos (atan (y / x)) = x).
      { rewrite norm_factor by lra.
        rewrite sqrt_mult by (try apply Rlt_le, one_plus_sqr_pos; nra).
        rewrite sqrt_sq_neg, cos_atan by assumption.
        pose proof (sqrt_one_plus_sqr_pos (y / x)). field. lra. }
      destruct (Rle_dec 0 y).
      * rewrite neg_cos. exact E.
      * rewrite cos_minus, cos_PI, sin_PI.
        replace (cos (atan (y / x)) * -1 + sin (atan (y / x)) * 0)
          with (- cos (atan (y / x))) by ring.
        exact E.
    + assert (x = 0) by lra. subst x.
      destruct (Rlt_dec 0 y); [rewrite cos_PI2; ring |].
      destruct (Rlt_dec y 0); [rewrite cos_neg, cos_PI2; ring |].
      assert (y = 0) by lra. subst y.
      replace (0 * 0 + 0 * 0) with 0 by ring. rewrite sqrt_0. ring.
Qed.

(** The sine of the destination latitude of [moved_by] is in the domain of
    [asin]. *)
Lemma moved_by_asin_domain (l delta b : R) :
  -1 <= sin l * cos delta + cos l * sin delta * cos b <= 1.
Proof.
  rewrite <- (sin_shift delta), <- (cos_shift delta).
  apply law_of_cosines_bound, COS_bound.
Qed.

(** The cosine of the central angle between a coordinate and the coordinate
    [moved_by] yields is the cosine of the angular distance moved. *)
Lemma cos_central_moved_by (c : Coordinate) (d b r : R) :
  - (PI / 2) <= lat c <= PI / 2 ->
  cos_central c (coord_moved_by c d b r) = cos (d / r).
Proof.
  intros Hlat.
  unfold cos_central, coord_moved_by; cbv zeta; simpl.
  set (delta := d / r).
  set (S := sin (lat c) * cos delta + cos (lat c) * sin delta * cos b).
  assert (HS : -1 <= S <= 1) by apply moved_by_asin_domain.
  rewrite sin_asin, cos_asin by exact HS.
  set (x := cos delta - sin (lat c) * S).
  set (y := sin b * sin delta * cos (lat c)).
  replace (lon c - (lon c + atan2 y x)) with (- atan2 y x) by ring.
  rewrite cos_neg.
  assert (Hc1 : 0 <= cos (lat c)) by (apply cos_ge_0; lra).
  assert (HS2 : 0 <= 1 - S²) by (unfold Rsqr; nra).
  assert (Hnorm : sqrt (x * x + y * y) = cos (lat c) * sqrt (1 - S²)).
  { apply sqrt_lem_1.
    - pose proof (Rle_0_sqr x); pose proof (Rle_0_sqr y); unfold Rsqr in *; lra.
    - apply Rmult_le_pos; [exact Hc1 | apply sqrt_pos].
    - replace (cos (lat c) * sqrt (1 - S²) * (cos (lat c) * sqrt (1 - S²)))
        with (cos (lat c) * cos (lat c) * (sqrt (1 - S²) * sqrt (1 - S²)))
        by ring.
      rewrite sqrt_sqrt by exact HS2.
      pose proof (sin_cos_sq (lat c)) as H1.
      pose proof (sin_cos_sq delta) as H2.
      pose proof (sin_cos_sq b) as H3.
      unfold x, y, S, Rsqr.
      set (s1 := sin (lat c)) in *. set (c1 := cos (lat c)) in *.
      set (sd := sin delta) in *. set (cd := cos delta) in *.
      set (sb := sin b) in *. set (cb := cos b) in *.
      clearbody s1 c1 sd cd sb cb. clear Hc1 HS HS2 Hlat.
      assert (E : (cd - s1 * (s1 * cd + c1 * sd * cb)) * (cd - s1 * (s1 * cd + c1 * sd * cb))
                  + sb * sd * c1 * (sb * sd * c1)
                  - c1 * c1 * (1 - (s1 * cd + c1 * sd * cb) * (s1 * cd + c1 * sd * cb))
                  = (s1 * s1 + c1 * c1 - 1)
                    * ((s1 * cd + c1 * sd * cb) * (s1 * cd + c1 * sd * cb) - cd * cd)
                    + c1 * c1 * (sd * sd + cd * cd - 1)
                    + c1 * c1 * sd * sd * (sb * sb + cb * cb - 1)) by ring.
      rewrite H1, H2, H3 in E. lra. }
  replace (cos (lat c) * sqrt (1 - S²) * cos (atan2 y x))
    with (sqrt (x * x + y * y) * cos (atan2 y x)) by (rewrite Hnorm; ring).
  rewrite norm_cos_atan2. unfold x. ring.
Qed.

Lemma coord_moved_by_distance (c : Coordinate) (d b r : R) :
  - (PI / 2) <= lat c <= PI / 2 ->
  0 < r -> 0 <= d <= PI * r ->
  coord_great_circle_distance_to c (coord_moved_by c d b r) r = d.
Proof.
  intros Hlat Hr Hd.
  rewrite coord_distance_acos, cos_central_moved_by by exact Hlat.
  assert (Hdelta : 0 <= d / r <= PI).
  { split.
    - apply Rmult_le_pos; [lra | apply Rlt_le, Rinv_0_lt_compat, Hr].
    - apply Rmult_le_reg_r with r; [exact Hr |].
      replace (d / r * r) with d by (field; lra). lra. }
  rewrite acos_cos by exact Hdelta. field; lra.
Qed.

(** C6, as the code has it.  For every coordinate [c] whose latitude lies in
    [[-pi/2, pi/2]], every bearing [b], radius [r > 0] and distance [d] with
    [0 <= d <= pi*r], the great-circle distance between [c] and
    [c.moved_by(d, b, r)] on the sphere of radius [r] is [d]; hence a
    movement at speed [v] along bearing [b] for an interval [t] advances the
    position by the great-circle distance [v * t]. *)
Theorem moved_by_great_circle_distance (c : Coordinate) (b r : R) :
  - (PI / 2) <= lat c <= PI / 2 ->
  0 < r ->
  (forall d, 0 <= d <= PI * r ->
             coord_great_circle_distance_to c (coord_moved_by c d b r) r = d)
  /\ (forall v t, 0 <= v * t <= PI * r ->
                  coord_great_circle_distance_to
                    c (coord_moved_by c (v * t) b r) r = v * t).
Proof.
  intros Hlat Hr. split.
  - intros d Hd. now apply coord_moved_by_distance.
  - intros v t Hvt. now apply coord_moved_by_distance.
Qed.

Lemma moved_by_great_circle_distance_witness :
  coord_great_circle_distance_to
    (mkCoordinate 0 0) (coord_moved_by (mkCoordinate 0 0) 1 (PI / 2) 1) 1 = 1.
Proof.
  pose proof PI2_1.
  apply (moved_by_great_circle_distance (mkCoordinate 0 0) (PI / 2) 1);
    simpl; lra.
Defined.

(** C6 fails outside the geographical range of the latitude: the coordinate
    [(pi, 0)] moved by the distance [0] becomes [(0, 0)], at great-circle
    distance [pi] on the unit sphere. *)
Lemma moved_by_distance_fails_at_latitude_pi :
  let c := mkCoordinate PI 0 in
  let d := 0 in let b := 0 in let r := 1 in
  (0 < r /\ 0 <= d <= PI * r)
  /\ coord_moved_by c d b r = mkCoordinate 0 0
  /\ coord_great_circle_distance_to c (coord_moved_by c d b r) r = PI
  /\ coord_great_circle_distance_to c (coord_moved_by c d b r) r <> d.
Proof.
  pose proof PI_RGT_0 as HPI. cbv zeta.
  assert (Hmove : coord_moved_by (mkCoordinate PI 0) 0 0 1 = mkCoordinate 0 0).
  { unfold coord_moved_by; cbv zeta; simpl.
    replace (0 / 1) with 0 by field.
    rewrite sin_PI, cos_PI, sin_0, cos_0.
    replace (0 * 1 + -1 * 0 * 1) with 0 by ring.
    rewrite asin_0, sin_0.
    replace (0 * 0 * -1) with 0 by ring.
    replace (1 - 0 * 0) with 1 by ring.
    unfold atan2. destruct (Rlt_dec 0 1); [| lra].
    replace (0 / 1) with 0 by field. rewrite atan_0.
    f_equal. ring. }
  assert (Hdist : coord_great_circle_distance_to
                    (mkCoordinate PI 0) (mkCoordinate 0 0) 1 = PI).
  { rewrite coord_distance_acos. unfold cos_central; simpl.
    replace (0 - 0) with 0 by ring.
    rewrite sin_PI, cos_PI, sin_0, cos_0.
    replace (0 * 0 + -1 * 1 * 1) with (Ropp 1) by ring.
    rewrite acos_opp, acos_1. ring. }
  split; [lra |]. split; [exact Hmove |].
  rewrite Hmove, Hdist. split; [reflexivity | lra].
Qed.

(** *** Round trip between spherical and geographical coordinates *)

Lemma roundtrip_phi (p : Point) :
  0 <= phi p < 2 * PI -> phi (to_point (to_coordinate p)) = phi p.
Proof.
  intros Hphi. destruct p as [t f]; unfold to_point, to_coordinate; simpl in *.
  destruct (Rle_dec f PI).
  - destruct (Rge_dec f 0); lra.
  - destruct (Rge_dec (f - 2.0 * PI) 0); lra.
Qed.

(** C10, as the code has it.  For every point with [theta] in [[0, pi]] and
    [phi] in [[0, 2*pi)], [Point.to_coordinate] followed by
    [Coordinate.to_point] returns the same [theta] and the same [phi]. *)
Theorem to_coordinate_to_point_roundtrip (p : Point) :
  0 <= theta p <= PI -> 0 <= phi p < 2 * PI ->
  theta (to_point (to_coordinate p)) = theta p
  /\ phi (to_point (to_coordinate p)) = phi p.
Proof.
  intros _ Hphi. split.
  - apply roundtrip_theta.
  - apply roundtrip_phi, Hphi.
Qed.

Lemma to_coordinate_to_point_roundtrip_witness :
  let p := mkPoint (PI / 2) PI in
  theta (to_point (to_coordinate p)) = theta p
  /\ phi (to_point (to_coordinate p)) = phi p.
Proof.
  intro p. pose proof PI_RGT_0.
  apply (to_coordinate_to_point_roundtrip p); simpl; lra.
Defined.

(** C10 fails at [phi = 2*pi]: the longitude of such a point is [0], which
    [Coordinate.to_point] maps to [phi = 0]. *)
Lemma roundtrip_fails_at_two_pi :
  let p := mkPoint 0 (2 * PI) in
  (0 <= theta p <= PI /\ 0 <= phi p <= 2 * PI)
  /\ phi (to_point (to_coordinate p)) = 0
  /\ phi (to_point (to_coordinate p)) <> phi p.
Proof.
  pose proof PI_RGT_0 as HPI. cbv zeta.
  assert (E : phi (to_point (to_coordinate (mkPoint 0 (2 * PI)))) = 0).
  { unfold to_point, to_coordinate; simpl.
    destruct (Rle_dec (2 * PI) PI); [lra |].
    destruct (Rge_dec (2 * PI - 2.0 * PI) 0); lra. }
  split; [simpl; lra |]. split; [exact E |].
  rewrite E. simpl. lra.
Qed.

End GeometryFacts.

Module StateFacts.
Import Defs Geometry Essentials Entities Vocabulary StateModel.
Local Open Scope Z_scope.

(** *** Dictionaries *)

Section DictFacts.
Context {V : Type}.
Implicit Types (d : list (Z * V)) (k : Z) (v : V).

Lemma dict_get_set_same d k v : dict_get (dict_set d k v) k = Some v.
Proof.
  induction d as [| [k' v'] d IH]; simpl.
  - now rewrite Z.eqb_refl.
  - destruct (Z.eqb k' k) eqn:E; simpl.
    + now rewrite Z.eqb_refl.
    + now rewrite E.
Qed.

Lemma dict_get_set_other d k k' v :
  k <> k' -> dict_get (dict_set d k v) k' = dict_get d k'.
Proof.
  intros Hne. induction d as [| [k0 v0] d IH]; simpl.
  - destruct (Z.eqb k k') eqn:E; [apply Z.eqb_eq in E; contradiction | reflexivity].
  - destruct (Z.eqb k0 k) eqn:E; simpl.
    + apply Z.eqb_eq in E; subst k0.
      destruct (Z.eqb k k') eqn:E'; [apply Z.eqb_eq in E'; contradiction | reflexivity].
    + destruct (Z.eqb k0 k'); [reflexivity | exact IH].
Qed.

Lemma dict_get_del_same d k : dict_get (dict_del d k) k = None.
Proof.
  induction d as [| [k' v'] d IH]; simpl; [reflexivity |].
  destruct (Z.eqb k' k) eqn:E; simpl; [exact IH | now rewrite E].
Qed.

Lemma dict_get_del_other d k k' :
  k <> k' -> dict_get (dict_del d k) k' = dict_get d k'.
Proof.
  intros Hne. induction d as [| [k0 v0] d IH]; simpl; [reflexivity |].
  destruct (Z.eqb k0 k) eqn:E; simpl.
  - apply Z.eqb_eq in E; subst k0.
    destruct (Z.eqb k k') eqn:E'; [apply Z.eqb_eq in E'; contradiction | exact IH].
  - destruct (Z.eqb k0 k'); [reflexivity | exact IH].
Qed.

Lemma dict_get_none_iff d k : dict_get d k = None <-> ~ In k (dict_keys d).
Proof.
  induction d as [| [k' v'] d IH]; simpl.
  - tauto.
  - destruct (Z.eqb k' k) eqn:E.
    + apply Z.eqb_eq in E. split; [discriminate | tauto].
    + apply Z.eqb_neq in E. rewrite IH. tauto.
Qed.

(** Setting a key the dictionary lacks appends it. *)
Lemma dict_keys_set_new d k v :
  dict_get d k = None -> dict_keys (dict_set d k v) = dict_keys d ++ [k].
Proof.
  induction d as [| [k' v'] d IH]; simpl; [reflexivity |].
  destruct (Z.eqb k' k) eqn:E; [discriminate |].
  intros Hnone. simpl. f_equal. apply IH, Hnone.
Qed.

End DictFacts.

(** *** Adding entities *)

Lemma is_registered_iff (st : State) (k : ActorId) :
  is_registered st k = true <-> In k (entity_ids st).
Proof.
  unfold is_registered, get_entity, entity_ids.
  pose proof (dict_get_none_iff (entities st) k) as Hiff.
  destruct (dict_get (entities st) k).
  - split; [intros _ | reflexivity].
    destruct (in_dec Z.eq_dec k (dict_keys (entities st))) as [Hin | Hnin];
      [exact Hin |].
    apply Hiff in Hnin. discriminate.
  - split; [discriminate |]. intros Hin. exfalso. now apply Hiff.
Qed.

Section AddEntity.
Context `{Collaborators}.

(** The id an entity is registered under is not in use before. *)
Lemma add_entity_id_new (st : State) (e : Entity) :
  ~ In (id (snd (add_entity st e))) (entity_ids st).
Proof.
  unfold add_entity; simpl.
  destruct ((get_id e <? 0) || is_registered st (get_id e)) eqn:E; simpl.
  - apply generate_new_entity_id_fresh.
  - apply Bool.orb_false_iff in E as [_ E].
    intros Hin. apply is_registered_iff in Hin. unfold get_id in *.
    rewrite E in Hin. discriminate.
Qed.

Lemma add_entity_ids (st : State) (e : Entity) :
  entity_ids (fst (add_entity st e))
  = entity_ids st ++ [id (snd (add_entity st e))].
Proof.
  pose proof (add_entity_id_new st e) as Hnew.
  unfold add_entity in *; simpl in *.
  unfold entity_ids in *; simpl.
  apply dict_keys_set_new, dict_get_none_iff, Hnew.
Qed.

Lemma add_entity_get_same (st : State) (e : Entity) :
  get_entity (fst (add_entity st e)) (id (snd (add_entity st e)))
  = Some (snd (add_entity st e)).
Proof. unfold add_entity, get_entity; simpl. apply dict_get_set_same. Qed.

Lemma add_entity_get_other (st : State) (e : Entity) (k : ActorId) :
  k <> id (snd (add_entity st e)) ->
  get_entity (fst (add_entity st e)) k = get_entity st k.
Proof.
  intros Hne. unfold add_entity, get_entity in *; simpl in *.
  apply dict_get_set_other. intros Heq. apply Hne. symmetry. exact Heq.
Qed.

(** Registering an entity changes nothing but its id. *)
Lemma add_entity_same_kind (st : State) (e : Entity) :
  let e' := snd (add_entity st e) in
  codename e' = codename e /\ essence e' = essence e
  /\ position e' = position e /\ features e' = features e.
Proof.
  unfold add_entity; simpl.
  destruct ((get_id e <? 0) || is_registered st (get_id e)); simpl; auto.
Qed.

Lemma add_entities_cons (st : State) (drop : Entity) (rest : list Entity) :
  add_entities st (drop :: rest)
  = (fst (add_entities (fst (add_entity st drop)) rest),
     snd (add_entity st drop) :: snd (add_entities (fst (add_entity st drop)) rest)).
Proof.
  cbn [add_entities].
  destruct (add_entity st drop) as [st1 drop']; cbn [fst snd].
  destruct (add_entities st1 rest) as [st2 rest']; reflexivity.
Qed.

Lemma add_entities_ids (st : State) (drops : list Entity) :
  entity_ids (fst (add_entities st drops))
  = entity_ids st ++ map id (snd (add_entities st drops)).
Proof.
  revert st. induction drops as [| drop rest IH]; intros st.
  - simpl. now rewrite app_nil_r.
  - rewrite add_entities_cons; cbn [fst snd map].
    rewrite IH, add_entity_ids, <- app_assoc. reflexivity.
Qed.

Lemma add_entities_length (st : State) (drops : list Entity) :
  List.length (snd (add_entities st drops)) = List.length drops.
Proof.
  revert st. induction drops as [| drop rest IH]; intros st; [reflexivity |].
  rewrite add_entities_cons; cbn [fst snd List.length]. now rewrite IH.
Qed.

(** The ids the drops are registered under are pairwise distinct and none
    was in use. *)
Lemma add_entities_ids_new (st : State) (drops : list Entity) :
  NoDup (map id (snd (add_entities st drops)))
  /\ (forall k, In k (map id (snd (add_entities st drops))) ->
                ~ In k (entity_ids st)).
Proof.
  revert st. induction drops as [| drop rest IH]; intros st.
  - simpl. split; [constructor | tauto].
  - rewrite add_entities_cons; cbn [fst snd map].
    destruct (IH (fst (add_entity st drop))) as [Hnodup Hnew].
    rewrite add_entity_ids in Hnew.
    split.
    + constructor; [| exact Hnodup].
      intros Hin. apply (Hnew _ Hin). apply in_or_app. right. now left.
    + intros k [<- | Hin].
      * apply add_entity_id_new.
      * intros Hk. apply (Hnew _ Hin). apply in_or_app. now left.
Qed.

(** Entities registered before stay registered, unchanged. *)
Lemma add_entities_get_old (st : State) (drops : list Entity) (k : ActorId) :
  In k (entity_ids st) ->
  get_entity (fst (add_entities st drops)) k = get_entity st k.
Proof.
  revert st. induction drops as [| drop rest IH]; intros st Hin; [reflexivity |].
  rewrite add_entities_cons; cbn [fst snd].
  rewrite IH.
  - apply add_entity_get_other. intros ->. now apply (add_entity_id_new st drop).
  - rewrite add_entity_ids. apply in_or_app. now left.
Qed.

(** Every drop is registered, under its id. *)
Lemma add_entities_get_new (st : State) (drops : list Entity) (d : Entity) :
  In d (snd (add_entities st drops)) ->
  get_entity (fst (add_entities st drops)) (id d) = Some d.
Proof.
  revert st. induction drops as [| drop rest IH]; intros st; [simpl; tauto |].
  rewrite add_entities_cons; cbn [fst snd].
  intros [<- | Hin].
  - rewrite add_entities_get_old.
    + apply add_entity_get_same.
    + rewrite add_entity_ids. apply in_or_app. right. now left.
  - apply IH, Hin.
Qed.

End AddEntity.

Lemma get_entity_registered (st : State) (k : ActorId) (e : Entity) :
  get_entity st k = Some e -> In k (entity_ids st).
Proof.
  intros Hget. apply is_registered_iff. unfold is_registered. now rewrite Hget.
Qed.

(** *** Merging stacks *)

Lemma Essence_eqb_refl (a : Essence) : Essence_eqb a a = true.
Proof. destruct a; reflexivity. Qed.

Lemma get_hand_set_hand (inv : Inventory) (hand : Hand) (e : option EntityInfo) :
  get_hand_entry (set_hand_entry inv hand e) hand = e.
Proof. destruct hand; reflexivity. Qed.

Lemma get_pocket_set_hand (inv : Inventory) (hand : Hand)
    (e : option EntityInfo) (i : Z) :
  get_pocket_entry (set_hand_entry inv hand e) i = get_pocket_entry inv i.
Proof. destruct hand; reflexivity. Qed.

Lemma get_pocket_set_pocket (inv : Inventory) (i : Z) (e : EntityInfo) :
  get_pocket_entry (set_pocket_entry inv i (Some e)) i = Some e.
Proof. unfold get_pocket_entry; simpl. apply dict_get_set_same. Qed.

Lemma get_entity_update_same (st : State) (k : ActorId) (e old : Entity) :
  get_entity st k = Some old -> get_entity (update_entity st k e) k = Some e.
Proof.
  intros Hold. unfold update_entity. rewrite Hold.
  unfold get_entity; simpl. apply dict_get_set_same.
Qed.

Lemma get_entity_update_other (st : State) (k k' : ActorId) (e : Entity) :
  k <> k' -> get_entity (update_entity st k e) k' = get_entity st k'.
Proof.
  intros Hne. unfold update_entity. destruct (get_entity st k); [| reflexivity].
  unfold get_entity; simpl. now apply dict_get_set_other.
Qed.

Lemma get_entity_delete_same (st : State) (k : ActorId) :
  get_entity (delete_entity st k) k = None.
Proof. unfold get_entity, delete_entity; simpl. apply dict_get_del_same. Qed.

Lemma get_entity_delete_other (st : State) (k k' : ActorId) :
  k <> k' -> get_entity (delete_entity st k) k' = get_entity st k'.
Proof.
  intros Hne. unfold get_entity, delete_entity; simpl.
  now apply dict_get_del_other.
Qed.

Lemma stackable_set_size (e : Entity) (s : Stackable) (n : Z) :
  stackable (features e) = Some s ->
  option_map size (stackable (features (set_size e n))) = Some n.
Proof. intros Hs. unfold set_size. rewrite Hs. reflexivity. Qed.

(** C2. For an inventory holding a hand stack of quantity [S] and a pocket
    stack of the same essence with quantity [T] and capacity [C], both
    backed by registered entities: if [S + T <= C], [merge_entities] empties
    the hand slot, removes the entity of the hand stack from the state and
    leaves the pocket stack with [S + T]; if [S + T > C], the pocket stack
    gets [C], the hand stack [S + T - C], and both entities stay
    registered. *)
Theorem merge_entities_quantities
    (st : State) (inv : Inventory) (hand : Hand) (pocket_index : Z)
    (source_entry target_entry : EntityInfo) (source target : Entity)
    (ss ts : Stackable) (S T C : Z) :
  get_hand_entry inv hand = Some source_entry ->
  get_pocket_entry inv pocket_index = Some target_entry ->
  info_essence source_entry = info_essence target_entry ->
  info_id source_entry <> info_id target_entry ->
  get_entity st (info_id source_entry) = Some source ->
  get_entity st (info_id target_entry) = Some target ->
  stackable (features source) = Some ss ->
  stackable (features target) = Some ts ->
  info_quantity source_entry = S -> size ss = S ->
  info_quantity target_entry = T -> size ts = T ->
  max_size ts = C ->
  let st' := fst (merge_entities st inv hand pocket_index) in
  let inv' := snd (merge_entities st inv hand pocket_index) in
  (S + T <= C ->
   get_hand_entry inv' hand = None
   /\ get_entity st' (info_id source_entry) = None
   /\ quantity (get_pocket_entry inv' pocket_index) = Some (S + T)
   /\ stack_size st' (info_id target_entry) = Some (S + T))
  /\ (S + T > C ->
      quantity (get_pocket_entry inv' pocket_index) = Some C
      /\ quantity (get_hand_entry inv' hand) = Some (S + T - C)
      /\ stack_size st' (info_id target_entry) = Some C
      /\ stack_size st' (info_id source_entry) = Some (S + T - C)).
Proof.
  intros Hh Hp Hess Hne Hs Ht Hss Hts HqS HS HqT HT HC st' inv'.
  subst st' inv'. unfold merge_entities.
  rewrite Hh, Hp, Hess, Essence_eqb_refl. cbn [negb].
  rewrite Hs, Ht, Hss, Hts. cbv zeta. rewrite HS, HT, HC.
  split; intros Hfit.
  - assert (E : (S + T <=? C) = true) by (apply Z.leb_le; exact Hfit).
    rewrite E. cbn [fst snd].
    split; [apply get_hand_set_hand |].
    split; [apply get_entity_delete_same |].
    split.
    + rewrite get_pocket_set_hand, get_pocket_set_pocket. reflexivity.
    + unfold stack_size.
      rewrite get_entity_delete_other by exact Hne.
      rewrite (get_entity_update_same _ _ _ target) by exact Ht.
      apply (stackable_set_size target ts), Hts.
  - assert (E : (S + T <=? C) = false) by (apply Z.leb_gt; lia).
    rewrite E. cbn [fst snd].
    assert (Hs1 : get_entity
                    (update_entity st (info_id target_entry) (set_size target C))
                    (info_id source_entry) = Some source).
    { rewrite get_entity_update_other by (intros Heq; apply Hne; now symmetry).
      exact Hs. }
    rewrite Hs1.
    split; [rewrite get_pocket_set_hand, get_pocket_set_pocket; reflexivity |].
    split; [rewrite get_hand_set_hand; reflexivity |].
    unfold stack_size. split.
    + rewrite get_entity_update_other by exact Hne.
      rewrite (get_entity_update_same _ _ _ target) by exact Ht.
      apply (stackable_set_size target ts), Hts.
    + rewrite (get_entity_update_same _ _ _ source) by exact Hs1.
      apply (stackable_set_size source ss), Hss.
Qed.

(** The stacks of [test_merge_entities_fit] (2 and 2 rocks) and of
    [test_merge_entities_not_fit] (12 and 12 rocks). *)
Lemma merge_entities_quantities_witness :
  (let r := merge_entities (Example.rocks_state 2 2)
              (Example.rocks_inventory 2 2) LEFT 2 in
   get_hand_entry (snd r) LEFT = None
   /\ get_entity (fst r) 1 = None
   /\ quantity (get_pocket_entry (snd r) 2) = Some 4
   /\ stack_size (fst r) 2 = Some 4)
  /\ (let r := merge_entities (Example.rocks_state 12 12)
                 (Example.rocks_inventory 12 12) LEFT 2 in
      quantity (get_pocket_entry (snd r) 2) = Some 20
      /\ quantity (get_hand_entry (snd r) LEFT) = Some 4
      /\ stack_size (fst r) 2 = Some 20
      /\ stack_size (fst r) 1 = Some 4).
Proof.
  split.
  - apply (merge_entities_quantities
             (Example.rocks_state 2 2) (Example.rocks_inventory 2 2) LEFT 2
             (as_info (Example.rocks_of 1 2)) (as_info (Example.rocks_of 2 2))
             (Example.rocks_of 1 2) (Example.rocks_of 2 2)
             (mkStackable 2 MAX_STACK_SIZE) (mkStackable 2 MAX_STACK_SIZE)
             2 2 20);
      try reflexivity; try discriminate; cbn; try lia.
  - apply (merge_entities_quantities
             (Example.rocks_state 12 12) (Example.rocks_inventory 12 12) LEFT 2
             (as_info (Example.rocks_of 1 12)) (as_info (Example.rocks_of 2 12))
             (Example.rocks_of 1 12) (Example.rocks_of 2 12)
             (mkStackable 12 MAX_STACK_SIZE) (mkStackable 12 MAX_STACK_SIZE)
             12 12 20);
      try reflexivity; try discriminate; cbn; try lia.
Defined.

End StateFacts.

Module TaskFacts.
Import Defs Geometry Essentials Entities Vocabulary StateModel Tasks.
Import GeometryFacts StateFacts.
Local Open Scope R_scope.

Ltac case_scrutinee :=
  match goal with
  | |- context [match ?x with _ => _ end] => destruct x eqn:?
  end.

Ltac run_task := repeat (case_scrutinee; cbn [fst snd]; try congruence).

(** Entities at the same position are in range of each other. *)
Lemma calculate_distance_same_position (st : State) (a b : Entity) (p : Point) :
  position a = Some p -> position b = Some p ->
  calculate_distance st a b = Some 0.
Proof.
  intros Ha Hb. unfold calculate_distance, get_position. rewrite Ha, Hb.
  now rewrite great_circle_distance_to_self.
Qed.

Section WithCollaborators.
Context `{Collaborators}.

(** *** [PickItemTask] *)

Lemma PickItemTask_start_fails (self : PickItemTask) (st : State) :
  PickFailure st (pt_who_id self) (resolved_target self st) ->
  PickItemTask_start self st
  = (mkPickItemTask (pt_who_id self) (resolved_target self st) (pt_hand self)
       (pt_job self), st, []).
Proof.
  intros Hfail. unfold PickItemTask_start. fold (resolved_target self st).
  cbv zeta; cbn [pt_who_id pt_what_id pt_hand pt_job].
  destruct Hfail as [Ht | Hw | what Ht Hi | what e i Ht He Hi Hd
                     | what e i d Ht He Hi Hd Hfar].
  - rewrite Ht. reflexivity.
  - destruct (resolved_target self st); [| reflexivity]. rewrite Hw. reflexivity.
  - rewrite Ht, Hi. destruct (get_entity st (pt_who_id self)); reflexivity.
  - rewrite Ht, He, Hi, Hd. reflexivity.
  - rewrite Ht, He, Hi, Hd.
    destruct (Rlt_dec PickItemTask_MAX_DISTANCE d); [reflexivity | contradiction].
Qed.

Lemma PickItemTask_start_in_range (self : PickItemTask) (st : State)
    (what : ActorId) (entity item : Entity) (d : R) :
  resolved_target self st = Some what ->
  get_entity st (pt_who_id self) = Some entity ->
  get_entity st what = Some item ->
  calculate_distance st entity item = Some d ->
  d <= PickItemTask_MAX_DISTANCE ->
  PickItemTask_start self st
  = (mkPickItemTask (pt_who_id self) (Some what) (pt_hand self)
       (Some (WaitJob PickItemTask_PICK_DURATION [FinishedEvent (pt_who_id self)])),
     st, [PickStartAction (pt_who_id self) what]).
Proof.
  intros Ht He Hi Hd Hle. unfold PickItemTask_start.
  fold (resolved_target self st).
  cbv zeta; cbn [pt_who_id pt_what_id pt_hand pt_job].
  rewrite Ht, He, Hi, Hd.
  destruct (Rlt_dec PickItemTask_MAX_DISTANCE d); [lra | reflexivity].
Qed.

Lemma PickItemTask_finish_fails (self : PickItemTask) (st : State) :
  PickFailure st (pt_who_id self) (pt_what_id self)
  \/ FeatureFailure st (pt_who_id self) (pt_what_id self) ->
  PickItemTask_finish self st = (self, st, []).
Proof.
  intros [Hfail | Hfail]; unfold PickItemTask_finish.
  - destruct Hfail as [Ht | Hw | what Ht Hi | what e i Ht He Hi Hd
                       | what e i d Ht He Hi Hd Hfar].
    + rewrite Ht. reflexivity.
    + destruct (pt_what_id self); [| reflexivity]. rewrite Hw. reflexivity.
    + rewrite Ht, Hi. destruct (get_entity st (pt_who_id self)); reflexivity.
    + rewrite Ht, He, Hi, Hd. run_task.
    + rewrite Ht, He, Hi, Hd.
      destruct (Rlt_dec PickItemTask_MAX_DISTANCE d); [| contradiction].
      run_task.
  - destruct Hfail as [e He Hinv | what i Ht Hi Hinv].
    + rewrite He, Hinv. run_task.
    + rewrite Ht, Hi, Hinv. run_task.
Qed.

(** C5, as the code has it.  When no target id is resolved, the picker or
    the item is absent from the registry, or their distance is undefined or
    greater than 1.0, [PickItemTask.start] returns an empty list of actions,
    [get_job()] then returns none, the state is unchanged and [finish]
    returns an empty list too.  [PickItemTask.finish] also returns an empty
    list, with the state unchanged, when the picker lacks the inventory
    feature or the item is not inventorable. *)
Theorem PickItemTask_fails_soft
    (who : ActorId) (what : option ActorId) (hand : Hand) (st : State) :
  let task := PickItemTask_init who what hand in
  (PickFailure st who (resolved_target task st) ->
   let r := PickItemTask_start task st in
   actions_of r = [] /\ PickItemTask_get_job (task_of r) = None
   /\ state_of r = st
   /\ PickItemTask_finish (task_of r) (state_of r) = (task_of r, state_of r, []))
  /\ (forall self : PickItemTask,
         PickFailure st (pt_who_id self) (pt_what_id self)
         \/ FeatureFailure st (pt_who_id self) (pt_what_id self) ->
         PickItemTask_finish self st = (self, st, [])).
Proof.
  intros task. split.
  - intros Hfail r. subst r.
    rewrite (PickItemTask_start_fails task st Hfail).
    unfold actions_of, task_of, state_of; cbn [fst snd].
    repeat split.
    apply PickItemTask_finish_fails. left. exact Hfail.
  - intros self. apply PickItemTask_finish_fails.
Qed.

(** *** [CraftTask] *)

(** C9. [CraftTask.start] returns an empty list of actions and [get_job()]
    returns none whenever the inventory of the crafter has no free hand,
    whatever [validate_assembly] answers: the free-hand check comes first. *)
Theorem CraftTask_start_without_free_hand
    (crafter_id : ActorId) (assembly : Assembly) (st : State)
    (crafter : Entity) (inv : Inventory) :
  get_entity st crafter_id = Some crafter ->
  inventory (features crafter) = Some inv ->
  get_free_hand inv = None ->
  let r := CraftTask_start (CraftTask_init crafter_id assembly) st in
  actions_of r = [] /\ CraftTask_get_job (task_of r) = None /\ state_of r = st.
Proof.
  intros Hc Hinv Hfree r. subst r. unfold CraftTask_start.
  cbn [ct_crafter_id CraftTask_init]. rewrite Hc, Hinv, Hfree.
  repeat split.
Qed.

(** *** [UseItemTask] *)

(** [UseItemTask.start] returns no action on any path and leaves the state
    as it is. *)
Lemma UseItemTask_start_actions (self : UseItemTask) (st : State) :
  actions_of (UseItemTask_start self st) = [] /\ state_of (UseItemTask_start self st) = st.
Proof.
  unfold UseItemTask_start, actions_of, state_of. run_task; split; reflexivity.
Qed.

(** On the [PAIN] branch, [UseItemTask.start] builds the [DamageJob]. *)
Lemma UseItemTask_start_pain (self : UseItemTask) (st : State)
    (performer item receiver : Entity) (rid : ActorId) (d : R) :
  get_entity st (ut_performer_id self) = Some performer ->
  get_entity st (ut_item_id self) = Some item ->
  (if truthy_id (ut_receiver_id self) then ut_receiver_id self
   else find_closest_absorbing_within st (ut_performer_id self)
          (delivery_claims (features item)) UseItemTask_MAX_DISTANCE)
  = Some rid ->
  get_entity st rid = Some receiver ->
  calculate_distance st performer receiver = Some d ->
  d <= UseItemTask_MAX_DISTANCE ->
  get_first_absorbed (features receiver) (delivery_claims (features item))
  = Some PAIN ->
  UseItemTask_get_job (task_of (UseItemTask_start self st))
  = Some (DamageJob (ut_performer_id self) rid (ut_item_id self) (ut_hand self)
            [FinishedEvent (ut_performer_id self)]).
Proof.
  intros Hp Hi Hr Hrec Hd Hle Hclaim. unfold UseItemTask_start.
  rewrite Hp, Hi. cbv zeta. rewrite Hr, Hrec, Hd.
  destruct (Rlt_dec UseItemTask_MAX_DISTANCE d); [lra |].
  rewrite Hclaim. reflexivity.
Qed.

Lemma start_TUseItem (t : UseItemTask) (st : State) :
  start (TUseItem t) st
  = (TUseItem (task_of (UseItemTask_start t st)),
     state_of (UseItemTask_start t st), actions_of (UseItemTask_start t st)).
Proof.
  unfold start, task_of, state_of, actions_of.
  destruct (UseItemTask_start t st) as [[t' s'] a]; reflexivity.
Qed.

Lemma start_TPickItem (t : PickItemTask) (st : State) :
  start (TPickItem t) st
  = (TPickItem (task_of (PickItemTask_start t st)),
     state_of (PickItemTask_start t st), actions_of (PickItemTask_start t st)).
Proof.
  unfold start, task_of, state_of, actions_of.
  destruct (PickItemTask_start t st) as [[t' s'] a]; reflexivity.
Qed.

(** A [start] that returns no action leaves the job as it was. *)
Lemma PickItemTask_start_empty_keeps_job (self : PickItemTask) (st : State) :
  actions_of (PickItemTask_start self st) = [] ->
  PickItemTask_get_job (task_of (PickItemTask_start self st)) = pt_job self.
Proof.
  unfold PickItemTask_start, actions_of, task_of. cbv zeta.
  cbn [pt_who_id pt_what_id pt_hand pt_job].
  run_task; cbn; intros; try reflexivity; congruence.
Qed.

Lemma CraftTask_start_empty_keeps_job (self : CraftTask) (st : State) :
  actions_of (CraftTask_start self st) = [] ->
  CraftTask_get_job (task_of (CraftTask_start self st)) = ct_job self.
Proof.
  unfold CraftTask_start, actions_of, task_of.
  run_task; cbn; intros; try reflexivity; congruence.
Qed.

(** *** [InventoryUpdateTask] *)

(** With the [MERGE] variant, [finish] runs [merge_entities] on the
    inventory of the performer and reports the merged inventory. *)
Lemma InventoryUpdateTask_finish_merge (self : InventoryUpdateTask) (st : State)
    (performer : Entity) (inv : Inventory) :
  it_update_variant self = MERGE ->
  get_entity st (it_performer_id self) = Some performer ->
  inventory (features performer) = Some inv ->
  let m := merge_entities st inv (it_hand self) (it_inventory_index self) in
  InventoryUpdateTask_finish self st
  = (self, write_inventory (fst m) (it_performer_id self) (snd m),
     [UpdateInventoryAction (it_performer_id self) (snd m)]).
Proof.
  intros Hv Hp Hinv m. subst m. unfold InventoryUpdateTask_finish.
  rewrite Hp, Hinv, Hv.
  destruct (merge_entities st inv (it_hand self) (it_inventory_index self));
    reflexivity.
Qed.

(** *** [DieAndDropTask] *)

Lemma DieAndDropTask_start_registered (self : DieAndDropTask) (st : State)
    (dier : Entity) :
  get_entity st (dt_dier_id self) = Some dier ->
  DieAndDropTask_start self st
  = (mkDieAndDropTask (dt_dier_id self) (snd (add_entities st (dt_drops self)))
       (dt_job self),
     fst (add_entities st (dt_drops self)),
     [CreateActorsAction (map actor_of (snd (add_entities st (dt_drops self))));
      DeleteActorsAction [dt_dier_id self]]).
Proof.
  intros Hd. unfold DieAndDropTask_start. rewrite Hd.
  destruct (add_entities st (dt_drops self)); reflexivity.
Qed.

(** C1, as the code has it.  For a [PickItemTask] and a [CraftTask], if
    [start] returns an empty list of actions then [get_job()] returns none;
    [MovementTask.start] and [WalkTask.start] never return an empty list.
    [UseItemTask.start] and [InventoryUpdateTask.start] always return an
    empty list: the job carries the effect.  After [UseItemTask.start] has
    resolved a receiver in range whose first absorbed claim is [PAIN],
    [get_job()] returns the [DamageJob]; [InventoryUpdateTask.get_job()]
    returns its [WaitJob].  [DieAndDropTask.start] returns actions whenever
    the dier is registered. *)
Theorem start_empty_and_get_job (st : State) :
  (forall who what hand,
      let r := start (TPickItem (PickItemTask_init who what hand)) st in
      actions_of r = [] -> get_job (task_of r) = None)
  /\ (forall crafter_id assembly,
         let r := start (TCraft (CraftTask_init crafter_id assembly)) st in
         actions_of r = [] -> get_job (task_of r) = None)
  /\ (forall t, actions_of (start (TMovement t) st) <> [])
  /\ (forall t, actions_of (start (TWalk t) st) <> [])
  /\ (forall t, actions_of (start (TUseItem t) st) = [])
  /\ (forall t performer item receiver rid d,
         get_entity st (ut_performer_id t) = Some performer ->
         get_entity st (ut_item_id t) = Some item ->
         (if truthy_id (ut_receiver_id t) then ut_receiver_id t
          else find_closest_absorbing_within st (ut_performer_id t)
                 (delivery_claims (features item)) UseItemTask_MAX_DISTANCE)
         = Some rid ->
         get_entity st rid = Some receiver ->
         calculate_distance st performer receiver = Some d ->
         d <= UseItemTask_MAX_DISTANCE ->
         get_first_absorbed (features receiver) (delivery_claims (features item))
         = Some PAIN ->
         get_job (task_of (start (TUseItem t) st))
         = Some (DamageJob (ut_performer_id t) rid (ut_item_id t) (ut_hand t)
                   [FinishedEvent (ut_performer_id t)]))
  /\ (forall t,
         let r := start (TInventoryUpdate t) st in
         actions_of r = []
         /\ get_job (task_of r)
            = Some (WaitJob InventoryUpdateTask_SWAP_DURATION
                      [FinishedEvent (it_performer_id t)]))
  /\ (forall dier_id drops dier,
         get_entity st dier_id = Some dier ->
         actions_of (start (TDieAndDrop (DieAndDropTask_init dier_id drops)) st)
         <> []).
Proof.
  split; [| split; [| split; [| split; [| split; [| split; [| split]]]]]].
  - intros who what hand r. subst r.
    pose proof (PickItemTask_start_empty_keeps_job
                  (PickItemTask_init who what hand) st) as Hjob.
    unfold start, actions_of, task_of in *.
    destruct (PickItemTask_start (PickItemTask_init who what hand) st)
      as [[t' s'] a]. exact Hjob.
  - intros crafter_id assembly r. subst r.
    pose proof (CraftTask_start_empty_keeps_job
                  (CraftTask_init crafter_id assembly) st) as Hjob.
    unfold start, actions_of, task_of in *.
    destruct (CraftTask_start (CraftTask_init crafter_id assembly) st)
      as [[t' s'] a]. exact Hjob.
  - intros t. cbn. discriminate.
  - intros t. cbn. discriminate.
  - intros t. pose proof (UseItemTask_start_actions t st) as [Ha _].
    unfold start, actions_of in *.
    destruct (UseItemTask_start t st) as [[t' s'] a]. exact Ha.
  - intros t performer item receiver rid d Hp Hi Hr Hrec Hd Hle Hclaim.
    pose proof (UseItemTask_start_pain t st performer item receiver rid d
                  Hp Hi Hr Hrec Hd Hle Hclaim) as Hjob.
    unfold start, task_of in *.
    destruct (UseItemTask_start t st) as [[t' s'] a]. exact Hjob.
  - intros t. split; reflexivity.
  - intros dier_id drops dier Hd. unfold start.
    rewrite (DieAndDropTask_start_registered
               (DieAndDropTask_init dier_id drops) st dier Hd).
    cbn. discriminate.
Qed.

(** C3, what the code does.  For every state containing the dying entity,
    [DieAndDropTask.start] adds every drop to the registry and returns a
    [CreateActorsAction] for the drops followed by a [DeleteActorsAction]
    for the id of the dier; the dier itself stays registered, and [finish]
    changes nothing. *)
Theorem DieAndDropTask_start_keeps_dier
    (dier_id : ActorId) (drops : list Entity) (st : State) (dier : Entity) :
  get_entity st dier_id = Some dier ->
  let r := DieAndDropTask_start (DieAndDropTask_init dier_id drops) st in
  (forall d, In d (dt_drops (task_of r)) ->
             get_entity (state_of r) (id d) = Some d)
  /\ actions_of r
     = [CreateActorsAction (map actor_of (dt_drops (task_of r)));
        DeleteActorsAction [dier_id]]
  /\ get_entity (state_of r) dier_id = Some dier
  /\ DieAndDropTask_finish (task_of r) (state_of r)
     = (task_of r, state_of r, []).
Proof.
  intros Hd r. subst r.
  rewrite (DieAndDropTask_start_registered
             (DieAndDropTask_init dier_id drops) st dier Hd).
  unfold task_of, state_of, actions_of;
    cbn [fst snd dt_drops dt_dier_id dt_job DieAndDropTask_init].
  split; [| split; [| split]].
  - intros d Hin. apply add_entities_get_new, Hin.
  - reflexivity.
  - rewrite add_entities_get_old; [exact Hd |].
    eapply get_entity_registered, Hd.
  - reflexivity.
Qed.

(** The logs of [Spruce.generate_drops] all carry the placeholder id, at the
    position of the spruce. *)
Lemma generate_drops_logs (spruce : Entity) (logs : list Entity) :
  generate_drops spruce = Some logs ->
  logs = [Log (-1)%Z (position spruce); Log (-1)%Z (position spruce);
          Log (-1)%Z (position spruce)].
Proof.
  unfold generate_drops. destruct (position spruce); [| discriminate].
  intros [= <-]. reflexivity.
Qed.

End WithCollaborators.

(** *** The tasks at work *)

Import Example.
Local Open Scope Z_scope.

Lemma PickItemTask_fails_soft_witness :
  (let r := @PickItemTask_start collaborators
              (PickItemTask_init 1 (Some 9%Z) LEFT) quarry in
   actions_of r = [] /\ PickItemTask_get_job (task_of r) = None
   /\ state_of r = quarry
   /\ PickItemTask_finish (task_of r) (state_of r)
      = (task_of r, state_of r, []))
  /\ PickItemTask_finish (PickItemTask_init 1 (Some 4%Z) LEFT) quarry
     = (PickItemTask_init 1 (Some 4%Z) LEFT, quarry, []).
Proof.
  destruct (@PickItemTask_fails_soft collaborators 1%Z (Some 9%Z) LEFT quarry)
    as [Hstart Hfinish].
  split.
  - apply Hstart. apply item_absent with (what := 9%Z); reflexivity.
  - apply Hfinish. right.
    apply no_inventory with (entity := Warrior 1 (Some origin)); reflexivity.
Defined.

(** C5 fails for the features: a warrior, who has no inventory, next to
    rocks starts the pick, with a [PickStartAction] and a [WaitJob]. *)
Lemma PickItemTask_start_ignores_features :
  let task := PickItemTask_init 1 (Some 4%Z) LEFT in
  let r := @PickItemTask_start collaborators task quarry in
  FeatureFailure quarry 1 (Some 4%Z)
  /\ actions_of r = [PickStartAction 1 4]
  /\ PickItemTask_get_job (task_of r)
     = Some (WaitJob PickItemTask_PICK_DURATION [FinishedEvent 1])
  /\ actions_of r <> [].
Proof.
  cbv zeta.
  rewrite (@PickItemTask_start_in_range collaborators
             (PickItemTask_init 1 (Some 4%Z) LEFT) quarry 4%Z
             (Warrior 1 (Some origin)) (Rocks 4 (Some origin)) 0%R);
    try reflexivity.
  - split; [| repeat split; discriminate].
    apply no_inventory with (entity := Warrior 1 (Some origin)); reflexivity.
  - apply calculate_distance_same_position with (p := origin); reflexivity.
  - unfold PickItemTask_MAX_DISTANCE. lra.
Qed.

Lemma CraftTask_start_without_free_hand_witness :
  let r := @CraftTask_start collaborators (CraftTask_init 1 axe_assembly) workshop in
  @validate_assembly collaborators workshop axe_assembly
    (store_entry (store_entry empty_inventory LEFT axe_info) RIGHT
       (as_info (Rocks 4 None))) = true
  /\ actions_of r = [] /\ CraftTask_get_job (task_of r) = None
  /\ state_of r = workshop.
Proof.
  split; [reflexivity |].
  apply (@CraftTask_start_without_free_hand collaborators 1%Z axe_assembly
           workshop busy_pirate
           (store_entry (store_entry empty_inventory LEFT axe_info) RIGHT
              (as_info (Rocks 4 None))));
    reflexivity.
Defined.

Lemma forest_in_range :
  calculate_distance forest armed_pirate (Spruce 7 (Some origin)) = Some 0%R.
Proof. apply calculate_distance_same_position with (p := origin); reflexivity. Qed.

Lemma start_empty_and_get_job_witness :
  let task := TUseItem (UseItemTask_init 1 2 (Some 7%Z) LEFT) in
  @get_job (task_of (@start collaborators task forest))
  = Some (DamageJob 1 7 2 LEFT [FinishedEvent 1]).
Proof.
  destruct (@start_empty_and_get_job collaborators forest)
    as (_ & _ & _ & _ & _ & Hpain & _).
  apply (Hpain (UseItemTask_init 1 2 (Some 7%Z) LEFT)
           armed_pirate (Axe 2 None) (Spruce 7 (Some origin)) 7%Z 0%R);
    try reflexivity.
  - exact forest_in_range.
  - unfold UseItemTask_MAX_DISTANCE. lra.
Defined.

(** C1 fails for [UseItemTask]: a pirate who uses an axe on the spruce next
    to him gets no action from [start], and [get_job()] then returns the
    [DamageJob]. *)
Lemma UseItemTask_start_empty_with_job :
  let task := TUseItem (UseItemTask_init 1 2 (Some 7%Z) LEFT) in
  let r := @start collaborators task forest in
  (@get_first_absorbed collaborators (features (Spruce 7 (Some origin)))
     (@delivery_claims collaborators (features (Axe 2 None))) = Some PAIN)
  /\ actions_of r = []
  /\ get_job (task_of r) = Some (DamageJob 1 7 2 LEFT [FinishedEvent 1])
  /\ get_job (task_of r) <> None.
Proof.
  cbv zeta.
  pose proof (@UseItemTask_start_actions collaborators
                (UseItemTask_init 1 2 (Some 7%Z) LEFT) forest) as [Hactions _].
  assert (Hjob : UseItemTask_get_job
                   (task_of (@UseItemTask_start collaborators
                               (UseItemTask_init 1 2 (Some 7%Z) LEFT) forest))
                 = Some (DamageJob 1 7 2 LEFT [FinishedEvent 1])).
  { apply (@UseItemTask_start_pain collaborators
             (UseItemTask_init 1 2 (Some 7%Z) LEFT) forest
             armed_pirate (Axe 2 None) (Spruce 7 (Some origin)) 7%Z 0%R);
      try reflexivity.
    - exact forest_in_range.
    - unfold UseItemTask_MAX_DISTANCE. lra. }
  rewrite start_TUseItem. unfold task_of, actions_of in *.
  cbn [fst snd get_job]. rewrite Hjob.
  split; [reflexivity |]. split; [exact Hactions |].
  split; [reflexivity | discriminate].
Qed.

Lemma DieAndDropTask_start_keeps_dier_witness :
  let r := @DieAndDropTask_start collaborators
             (DieAndDropTask_init 7 spruce_drops) forest in
  (forall d, In d (dt_drops (task_of r)) ->
             get_entity (state_of r) (id d) = Some d)
  /\ actions_of r
     = [CreateActorsAction (map actor_of (dt_drops (task_of r)));
        DeleteActorsAction [7%Z]]
  /\ get_entity (state_of r) 7 = Some (Spruce 7 (Some origin))
  /\ DieAndDropTask_finish (task_of r) (state_of r)
     = (task_of r, state_of r, []).
Proof.
  apply (@DieAndDropTask_start_keeps_dier collaborators 7%Z spruce_drops forest
           (Spruce 7 (Some origin))).
  reflexivity.
Defined.

(** The forest after the spruce died: the three logs are registered under
    the ids 8, 9 and 10, and the spruce is still there. *)
Lemma forest_after_DieAndDropTask_start :
  let r := @DieAndDropTask_start collaborators
             (DieAndDropTask_init 7 spruce_drops) forest in
  entity_ids (state_of r) = [1; 2; 7; 8; 9; 10]%Z
  /\ map id (dt_drops (task_of r)) = [8; 9; 10]%Z
  /\ is_registered (state_of r) 7 = true.
Proof. repeat split. Qed.

End TaskFacts.

Module AnimationFacts.
Import Defs Geometry Essentials Vocabulary Animations.
Local Open Scope R_scope.

(** C8. [animation_from_action] is total over the twelve action variants:
    for every action it returns an animation, of the animation class that
    goes with the class of the action, and raises nothing (neither the
    lookup in the table of constructors nor a constructor fails). *)
Theorem animation_from_action_total (now : R) (action : Action) :
  (exists animation,
      animation_from_action now action = Ok animation
      /\ class_of animation = animation_class_for (type_of action))
  /\ (forall exn, animation_from_action now action <> Raise exn).
Proof.
  destruct action; (split; [eexists; split; reflexivity | discriminate]).
Qed.

End AnimationFacts.

Module SpaceFacts.
Import PyMath Geometry Vocabulary GeometryFacts Space.
Local Open Scope R_scope.

(** *** [atan2] *)

Lemma atan_nonpos (t : R) : t <= 0 -> atan t <= 0.
Proof.
  intros [Hlt | ->]; [| rewrite atan_0; lra].
  pose proof (atan_increasing t 0 Hlt) as Hinc. rewrite atan_0 in Hinc. lra.
Qed.

Lemma atan_pos (t : R) : 0 < t -> 0 < atan t.
Proof.
  intros Hlt. pose proof (atan_increasing 0 t Hlt) as Hinc.
  rewrite atan_0 in Hinc. exact Hinc.
Qed.

Lemma atan2_bound (y x : R) : - PI < atan2 y x <= PI.
Proof.
  pose proof PI_RGT_0 as HPI. unfold atan2.
  destruct (Rlt_dec 0 x) as [Hpos | Hnpos].
  - pose proof (atan_bound (y / x)). lra.
  - destruct (Rlt_dec x 0) as [Hneg | Hnneg].
    + pose proof (atan_bound (y / x)) as Hb.
      destruct (Rle_dec 0 y) as [Hy | Hy].
      * assert (y / x <= 0).
        { unfold Rdiv. replace 0 with (y * 0) by ring.
          apply Rmult_le_compat_l; [exact Hy |].
          apply Rlt_le, Rinv_lt_0_compat, Hneg. }
        pose proof (atan_nonpos (y / x)). lra.
      * assert (0 < y / x).
        { unfold Rdiv. replace (y * / x) with (- y * - / x) by ring.
          apply Rmult_lt_0_compat; [lra |].
          pose proof (Rinv_lt_0_compat x Hneg). lra. }
        pose proof (atan_pos (y / x)). lra.
    + destruct (Rlt_dec 0 y); [lra |]. destruct (Rlt_dec y 0); lra.
Qed.

Lemma norm_sin_atan2 (y x : R) : sqrt (x * x + y * y) * sin (atan2 y x) = y.
Proof.
  unfold atan2.
  destruct (Rlt_dec 0 x) as [Hpos | Hnpos].
  - rewrite norm_factor by lra.
    rewrite sqrt_mult by (try apply Rlt_le, one_plus_sqr_pos; nra).
    rewrite sqrt_sq_pos, sin_atan by assumption.
    pose proof (sqrt_one_plus_sqr_pos (y / x)). field. lra.
  - destruct (Rlt_dec x 0) as [Hneg | Hnneg].
    + assert (E : sqrt (x * x + y * y) * - sin (atan (y / x)) = y).
      { rewrite norm_factor by lra.
        rewrite sqrt_mult by (try apply Rlt_le, one_plus_sqr_pos; nra).
        rewrite sqrt_sq_neg, sin_atan by assumption.
        pose proof (sqrt_one_plus_sqr_pos (y / x)). field. lra. }
      destruct (Rle_dec 0 y).
      * rewrite neg_sin. exact E.
      * rewrite sin_minus, cos_PI, sin_PI.
        replace (sin (atan (y / x)) * -1 - cos (atan (y / x)) * 0)
          with (- sin (atan (y / x))) by ring.
        exact E.
    + assert (x = 0) by lra. subst x.
      replace (0 * 0 + y * y) with (y * y) by ring.
      destruct (Rlt_dec 0 y) as [Hy | Hy].
      { rewrite sin_PI2, sqrt_sq_pos by exact Hy. ring. }
      destruct (Rlt_dec y 0) as [Hy' | Hy'].
      { rewrite sin_neg, sin_PI2, sqrt_sq_neg by exact Hy'. ring. }
      assert (y = 0) by lra. subst y.
      replace (0 * 0) with 0 by ring. rewrite sqrt_0. ring.
Qed.




(** *** Cartesian and spherical coordinates *)

Lemma norm3 (x y z : R) :
  x * x + y * y + z * z = y * y + sqrt (x * x + z * z) * sqrt (x * x + z * z).
Proof.
  rewrite sqrt_sqrt; [ring |].
  pose proof (Rle_0_sqr x); pose proof (Rle_0_sqr z); unfold Rsqr in *; lra.
Qed.

(** The radius times the sine, and times the cosine, of the polar angle. *)
Lemma polar_angle (x y z : R) :
  let '(r, t, _) := cartesian_to_spherical x y z in
  r * sin t = sqrt (x * x + z * z) /\ r * cos t = y.
Proof.
  unfold cartesian_to_spherical; cbv zeta.
  destruct (Req_dec_T y 0) as [-> | Hy].
  - replace (0.5 * PI) with (PI / 2) by lra. rewrite sin_PI2, cos_PI2.
    replace (x * x + 0 * 0 + z * z) with (x * x + z * z) by ring.
    split; ring.
  - rewrite norm3. split.
    + apply norm_sin_atan2.
    + apply norm_cos_atan2.
Qed.

(** X1. [spherical_to_cartesian] undoes [cartesian_to_spherical] for every
    vector off the plane [z = 0]; a vector [(x, y, 0)] comes back as
    [(|x|, y, 0)], the azimuth being [pi/2] whatever the sign of [x]. *)
Theorem cartesian_to_spherical_roundtrip (x y z : R) :
  let '(r, t, f) := cartesian_to_spherical x y z in
  (z <> 0 -> Coordinates.spherical_to_cartesian r t f = (x, y, z))
  /\ (z = 0 -> Coordinates.spherical_to_cartesian r t f = (Rabs x, y, 0)).
Proof.
  pose proof (polar_angle x y z) as Hpolar.
  unfold cartesian_to_spherical in *; cbv zeta in *.
  destruct Hpolar as [Hs Hc].
  unfold Coordinates.spherical_to_cartesian; cbv zeta.
  rewrite Hs, Hc.
  destruct (Req_dec_T z 0) as [-> | Hz]; (split; [intros Hz' | intros Hz']);
    try contradiction; try (exfalso; apply Hz'; reflexivity).
  - replace (0.5 * PI) with (PI / 2) by lra. rewrite sin_PI2, cos_PI2.
    replace (x * x + 0 * 0) with (x * x) by ring.
    fold (Rsqr x). rewrite sqrt_Rsqr_abs. f_equal; [f_equal |]; ring.
  - replace (x * x + z * z) with (z * z + x * x) by ring.
    rewrite norm_sin_atan2, norm_cos_atan2. reflexivity.
Qed.

Lemma cartesian_to_spherical_roundtrip_witness :
  Coordinates.spherical_to_cartesian
    (sqrt (0 * 0 + 0 * 0 + 1 * 1)) (0.5 * PI) (atan2 0 1) = (0, 0, 1).
Proof.
  pose proof (cartesian_to_spherical_roundtrip 0 0 1) as H.
  unfold cartesian_to_spherical in H; cbv zeta in H.
  destruct (Req_dec_T 0 0) as [_ | Hn]; [| exfalso; apply Hn; reflexivity].
  destruct (Req_dec_T 1 0) as [H1 | _]; [lra |].
  apply H. lra.
Defined.

(** *** Ranges and round trips of the geographical coordinates *)

Lemma to_coordinate_ranges (p : Point) :
  0 <= theta p <= PI -> 0 <= phi p <= 2 * PI ->
  - (PI / 2) <= lat (to_coordinate p) <= PI / 2
  /\ - PI < lon (to_coordinate p) <= PI.
Proof.
  pose proof PI_RGT_0 as HPI.
  destruct p as [t f]. intros Ht Hf. unfold to_coordinate; simpl in *.
  destruct (Rle_dec f PI); lra.
Qed.

(** X2. A point with [theta] in [[0, pi]] and [phi] in [[0, 2*pi]] has its
    latitude in [[-pi/2, pi/2]] and its longitude in [(-pi, pi]]; a
    coordinate with longitude in [[-pi, pi]] has [phi] in [[0, 2*pi)]. *)
Theorem geographical_ranges :
  (forall p, 0 <= theta p <= PI -> 0 <= phi p <= 2 * PI ->
             - (PI / 2) <= lat (to_coordinate p) <= PI / 2
             /\ - PI < lon (to_coordinate p) <= PI)
  /\ (forall c, - PI <= lon c <= PI -> 0 <= phi (to_point c) < 2 * PI).
Proof.
  pose proof PI_RGT_0 as HPI. split.
  - exact to_coordinate_ranges.
  - intros [la lo] Hlo. unfold to_point; simpl in *.
    destruct (Rge_dec lo 0); lra.
Qed.

Lemma geographical_ranges_witness :
  - (PI / 2) <= lat (to_coordinate (mkPoint 0 (2 * PI))) <= PI / 2
  /\ - PI < lon (to_coordinate (mkPoint 0 (2 * PI))) <= PI.
Proof.
  pose proof PI_RGT_0.
  apply (proj1 geographical_ranges (mkPoint 0 (2 * PI))); simpl; lra.
Defined.

(** X3. For every coordinate with longitude in [(-pi, pi]],
    [Coordinate.to_point] followed by [Point.to_coordinate] returns the
    same latitude and longitude; the longitude [-pi] comes back as [pi]. *)
Theorem to_point_to_coordinate_roundtrip :
  (forall c, - PI < lon c <= PI ->
             lat (to_coordinate (to_point c)) = lat c
             /\ lon (to_coordinate (to_point c)) = lon c)
  /\ (forall la, lon (to_coordinate (to_point (mkCoordinate la (- PI)))) = PI).
Proof.
  pose proof PI_RGT_0 as HPI. split.
  - intros [la lo] Hlo. unfold to_coordinate, to_point; simpl in *.
    split; [lra |].
    destruct (Rge_dec lo 0).
    + destruct (Rle_dec lo PI); lra.
    + destruct (Rle_dec (lo + 2.0 * PI) PI); lra.
  - intros la. unfold to_coordinate, to_point; simpl.
    destruct (Rge_dec (- PI) 0); [lra |].
    destruct (Rle_dec (- PI + 2.0 * PI) PI); lra.
Qed.

Lemma to_point_to_coordinate_roundtrip_witness :
  lat (to_coordinate (to_point (mkCoordinate 0 (- (PI / 2))))) = 0
  /\ lon (to_coordinate (to_point (mkCoordinate 0 (- (PI / 2))))) = - (PI / 2).
Proof.
  pose proof PI_RGT_0.
  apply (proj1 to_point_to_coordinate_roundtrip (mkCoordinate 0 (- (PI / 2))));
    simpl; lra.
Defined.

Lemma radians_degrees (x : R) : radians (degrees x) = x.
Proof. unfold radians, degrees. field. apply PI_neq0. Qed.

(** X4. In degrees: a point with [theta] in [[0, pi]] and [phi] in
    [[0, 2*pi)] has its latitude in [[-90, 90]] and its longitude in
    [(-180, 180]], and [geographical_degrees_to_spherical] gives back the
    radius, [theta] and [phi]. *)
Theorem geographical_degrees_roundtrip (r t f : R) :
  0 <= t <= PI -> 0 <= f < 2 * PI ->
  let '(r', la, lo) := spherical_to_geographical_degrees r t f in
  (-90 <= la <= 90 /\ -180 < lo <= 180)
  /\ geographical_degrees_to_spherical r' la lo = (r, t, f).
Proof.
  intros Ht Hf. pose proof PI_RGT_0 as HPI.
  unfold spherical_to_geographical_degrees, geographical_degrees_to_spherical,
    Coordinates.spherical_to_geographical_radians,
    Coordinates.geographical_radians_to_spherical; cbv zeta.
  rewrite !radians_degrees.
  assert (Hdeg : forall a lo hi, lo * PI <= a * 180 <= hi * PI ->
                                 lo <= degrees a <= hi).
  { intros a lo hi [H1 H2]. unfold degrees. split.
    - apply Rmult_le_reg_r with PI; [exact HPI |].
      replace (a * 180 / PI * PI) with (a * 180) by (field; lra). exact H1.
    - apply Rmult_le_reg_r with PI; [exact HPI |].
      replace (a * 180 / PI * PI) with (a * 180) by (field; lra). exact H2. }
  assert (Hdeg' : forall a lo, lo * PI < a * 180 -> lo < degrees a).
  { intros a lo H1. unfold degrees.
    apply Rmult_lt_reg_r with PI; [exact HPI |].
    replace (a * 180 / PI * PI) with (a * 180) by (field; lra). exact H1. }
  split.
  - split; [apply Hdeg; lra |].
    destruct (Rle_dec f PI).
    + split; [apply Hdeg'; lra | apply (Hdeg f (-180) 180); lra].
    + split; [apply Hdeg'; lra | apply (Hdeg (f - 2.0 * PI) (-180) 180); lra].
  - replace (0.5 * PI - (0.5 * PI - t)) with t by lra.
    destruct (Rle_dec f PI).
    + destruct (Rge_dec f 0); [reflexivity | lra].
    + destruct (Rge_dec (f - 2.0 * PI) 0); [lra |].
      replace (f - 2.0 * PI + 2.0 * PI) with f by lra. reflexivity.
Qed.

Lemma geographical_degrees_roundtrip_witness :
  let '(r', la, lo) := spherical_to_geographical_degrees 1 (PI / 2) PI in
  (-90 <= la <= 90 /\ -180 < lo <= 180)
  /\ geographical_degrees_to_spherical r' la lo = (1, PI / 2, PI).
Proof.
  pose proof PI_RGT_0.
  apply (geographical_degrees_roundtrip 1 (PI / 2) PI); lra.
Defined.

(** *** Bearings *)

(** X5. The bearing between two coordinates, and between two points, lies
    in [(-pi, pi]]. *)
Theorem bearing_to_range :
  (forall c1 c2, - PI < coord_bearing_to c1 c2 <= PI)
  /\ (forall p q, - PI < bearing_to p q <= PI).
Proof.
  split; intros; [unfold coord_bearing_to | unfold bearing_to, coord_bearing_to];
    cbv zeta; apply atan2_bound.
Qed.




(** *** The great-circle distance as a metric *)

Lemma cos_central_sym (c1 c2 : Coordinate) : cos_central c1 c2 = cos_central c2 c1.
Proof.
  unfold cos_central.
  replace (lon c2 - lon c1) with (- (lon c1 - lon c2)) by ring.
  rewrite cos_neg. ring.
Qed.

(** X7. The great-circle distance of two points is symmetric, and for a
    radius [r >= 0] it lies between [0] and [pi * r]. *)
Theorem great_circle_distance_to_metric (p q : Point) (r : R) :
  great_circle_distance_to p q r = great_circle_distance_to q p r
  /\ (0 <= r -> 0 <= great_circle_distance_to p q r <= PI * r).
Proof.
  unfold great_circle_distance_to; cbv zeta.
  rewrite !coord_distance_acos. split.
  - now rewrite cos_central_sym.
  - intros Hr.
    pose proof (acos_bound (cos_central (to_coordinate p) (to_coordinate q)))
      as [Hlo Hhi].
    split.
    + apply Rmult_le_pos; assumption.
    + rewrite (Rmult_comm PI r). apply Rmult_le_compat_l; assumption.
Qed.

Lemma great_circle_distance_to_metric_witness :
  0 <= great_circle_distance_to (mkPoint 0 0) (mkPoint PI 0) 2 <= PI * 2.
Proof.
  apply (great_circle_distance_to_metric (mkPoint 0 0) (mkPoint PI 0) 2). lra.
Defined.

(** *** Moving a point *)




(** *** Transformation matrices *)

Ltac matrix_compute :=
  cbv zeta;
  cbv [matmul matvec column inner map seq nth hd List.length
       Matrices3D.identity Matrices3D.translation Matrices3D.rotation_x
       Matrices3D.rotation_y Matrices3D.rotation_z
       Matrices3D.personal_to_global
       Matrices2D.identity Matrices2D.translation Matrices2D.rotation
       Matrices2D.scale].

Ltac matrix_eq := repeat (f_equal; try lra; try ring).

(** X9. Rotations about one axis compose by adding their angles, in space
    about each of the three axes and in the plane, and the rotation by [0]
    is the identity. *)
Theorem rotations_compose (a b : R) :
  matmul (Matrices3D.rotation_x a) (Matrices3D.rotation_x b)
  = Matrices3D.rotation_x (a + b)
  /\ matmul (Matrices3D.rotation_y a) (Matrices3D.rotation_y b)
     = Matrices3D.rotation_y (a + b)
  /\ matmul (Matrices3D.rotation_z a) (Matrices3D.rotation_z b)
     = Matrices3D.rotation_z (a + b)
  /\ matmul (Matrices2D.rotation a) (Matrices2D.rotation b)
     = Matrices2D.rotation (a + b)
  /\ Matrices3D.rotation_x 0 = Matrices3D.identity
  /\ Matrices3D.rotation_y 0 = Matrices3D.identity
  /\ Matrices3D.rotation_z 0 = Matrices3D.identity
  /\ Matrices2D.rotation 0 = Matrices2D.identity.
Proof.
  repeat split; matrix_compute;
    rewrite ?cos_plus, ?sin_plus, ?cos_0, ?sin_0; matrix_eq.
Qed.

(** The product of the three rotations acts as their composition. *)
Lemma personal_to_global_matvec (theta phi bearing x y z w : R) :
  matvec (Matrices3D.personal_to_global theta phi bearing) [x; y; z; w]
  = matvec (Matrices3D.rotation_y phi)
      (matvec (Matrices3D.rotation_x theta)
         (matvec (Matrices3D.rotation_y (- bearing)) [x; y; z; w])).
Proof. matrix_compute. matrix_eq. Qed.

Lemma rotation_x_isometry (a x y z w : R) :
  exists x' y' z',
    matvec (Matrices3D.rotation_x a) [x; y; z; w] = [x'; y'; z'; w]
    /\ x' * x' + y' * y' + z' * z' = x * x + y * y + z * z.
Proof.
  eexists _, _, _. split.
  - matrix_compute. matrix_eq.
  - pose proof (sin_cos_sq a). nra.
Qed.

Lemma rotation_y_isometry (a x y z w : R) :
  exists x' y' z',
    matvec (Matrices3D.rotation_y a) [x; y; z; w] = [x'; y'; z'; w]
    /\ x' * x' + y' * y' + z' * z' = x * x + y * y + z * z.
Proof.
  eexists _, _, _. split.
  - matrix_compute. matrix_eq.
  - pose proof (sin_cos_sq a). nra.
Qed.

(** X10. [personal_to_global] is a rotation: applied to a vector in
    homogeneous coordinates it keeps the fourth coordinate and the length of
    the spatial part; for the angles [0, 0, 0] it is the identity. *)
Theorem personal_to_global_isometry (theta phi bearing x y z w : R) :
  (exists x' y' z',
      matvec (Matrices3D.personal_to_global theta phi bearing) [x; y; z; w]
      = [x'; y'; z'; w]
      /\ x' * x' + y' * y' + z' * z' = x * x + y * y + z * z)
  /\ Matrices3D.personal_to_global 0 0 0 = Matrices3D.identity.
Proof.
  split.
  - rewrite personal_to_global_matvec.
    destruct (rotation_y_isometry (- bearing) x y z w) as (x1 & y1 & z1 & E1 & N1).
    rewrite E1.
    destruct (rotation_x_isometry theta x1 y1 z1 w) as (x2 & y2 & z2 & E2 & N2).
    rewrite E2.
    destruct (rotation_y_isometry phi x2 y2 z2 w) as (x3 & y3 & z3 & E3 & N3).
    rewrite E3. exists x3, y3, z3. split; [reflexivity | lra].
  - matrix_compute.
    replace (- 0) with 0 by ring. rewrite cos_0, sin_0. matrix_eq.
Qed.

(** X11. Translations compose by adding their vectors, in space and in the
    plane, and scalings by multiplying their factors. *)
Theorem translations_and_scales_compose :
  (forall x y z x' y' z',
      matmul (Matrices3D.translation (x, y, z)) (Matrices3D.translation (x', y', z'))
      = Matrices3D.translation (x + x', y + y', z + z'))
  /\ (forall x y x' y',
         matmul (Matrices2D.translation (x, y)) (Matrices2D.translation (x', y'))
         = Matrices2D.translation (x + x', y + y'))
  /\ (forall x y x' y',
         matmul (Matrices2D.scale (x, y)) (Matrices2D.scale (x', y'))
         = Matrices2D.scale (x * x', y * y')).
Proof.
  repeat split; intros; matrix_compute; matrix_eq.
Qed.

(** *** Tiles and boundaries *)

(** X12. On a tile built from a position and a size, a translation moves the
    position, a scaling multiplies position and size, and two rotations
    make the rotation by the sum of the angles. *)
Theorem Tile_transformations (id : list string) (px py sx sy : R) :
  (forall ux uy,
      translate (Tile_init id (px, py) (sx, sy)) (ux, uy)
      = Tile_init id (px + ux, py + uy) (sx, sy))
  /\ (forall kx ky,
         scale (Tile_init id (px, py) (sx, sy)) (kx, ky)
         = Tile_init id (kx * px, ky * py) (kx * sx, ky * sy))
  /\ (forall a b,
         rotate (rotate (Tile_init id (px, py) (sx, sy)) a) b
         = rotate (Tile_init id (px, py) (sx, sy)) (a + b)).
Proof.
  repeat split; intros;
    unfold translate, scale, rotate, transform, Tile_init;
    cbn [points tile_id fst snd map]; f_equal;
    matrix_compute; rewrite ?cos_plus, ?sin_plus; matrix_eq.
Qed.

Lemma Rltb_true (a b : R) : Rltb a b = true <-> a < b.
Proof. unfold Rltb. destruct (Rlt_dec a b); split; intros; try discriminate; tauto. Qed.

(** *** The elevation of the terrain *)

Lemma product_bound (u v : R) : -1 <= u <= 1 -> -1 <= v <= 1 -> -1 <= u * v <= 1.
Proof. intros Hu Hv. nra. Qed.

Lemma scaled_bound (k m : R) : 0 <= k -> -1 <= m <= 1 -> - k <= k * m <= k.
Proof. intros Hk Hm. nra. Qed.

Lemma Hills_bound (o pos : Point) (r : R) :
  0 <= theta pos <= PI -> 0 <= r ->
  - (0.012 * r) <= evaluate (Hills o) pos r <= 0.012 * r.
Proof.
  intros Ht Hr. pose proof PI_RGT_0 as HPI. unfold evaluate.
  set (u := theta pos / PI).
  assert (Hu : 0 <= u <= 1).
  { unfold u. split.
    - apply Rmult_le_pos; [lra | apply Rlt_le, Rinv_0_lt_compat, HPI].
    - apply Rmult_le_reg_r with PI; [exact HPI |].
      replace (theta pos / PI * PI) with (theta pos) by (field; lra). lra. }
  pose proof (product_bound _ _ (SIN_bound (50 * phi pos))
                (SIN_bound (50 * theta pos))) as Hm.
  set (m := sin (50 * phi pos) * sin (50 * theta pos)) in *.
  replace (0.006 * r * (u - 1) * sin (50 * phi pos) * (u - 2) * sin (50 * theta pos))
    with (0.006 * r * ((u - 1) * (u - 2)) * m) by (unfold m; ring).
  assert (Hq : 0 <= (u - 1) * (u - 2) <= 2) by nra.
  set (q := (u - 1) * (u - 2)) in *.
  assert (Hk : 0 <= 0.006 * r * q <= 0.012 * r) by nra.
  pose proof (scaled_bound (0.006 * r * q) m (proj1 Hk) Hm). lra.
Qed.

Lemma Ranges_bound (o pos : Point) (r : R) :
  0 <= r -> - (0.012 * r) <= evaluate (Ranges o) pos r <= 0.012 * r.
Proof.
  intros Hr. unfold evaluate.
  pose proof (product_bound _ _ (COS_bound (10 * theta pos + PI))
                (COS_bound (10 * phi pos))) as Hm.
  replace (0.012 * r * cos (10 * theta pos + PI) * cos (10 * phi pos))
    with (0.012 * r * (cos (10 * theta pos + PI) * cos (10 * phi pos))) by ring.
  apply scaled_bound; [lra | exact Hm].
Qed.

Lemma Continents_bound (o pos : Point) (r : R) :
  0 <= r -> - (0.018 * r) <= evaluate (Continents o) pos r <= 0.018 * r.
Proof.
  intros Hr. unfold evaluate.
  pose proof (product_bound _ _ (SIN_bound (theta pos)) (SIN_bound (phi pos)))
    as Hm.
  replace (0.018 * r * sin (theta pos) * sin (phi pos))
    with (0.018 * r * (sin (theta pos) * sin (phi pos))) by ring.
  apply scaled_bound; [lra | exact Hm].
Qed.

Lemma sum_from (l : list R) (a : R) : fold_left Rplus l a = a + sum l.
Proof.
  unfold sum. revert a. induction l as [| x l IH]; intros a; simpl.
  - ring.
  - rewrite IH, (IH (0 + x)). ring.
Qed.

Lemma sum_cons (x : R) (l : list R) : sum (x :: l) = x + sum l.
Proof. unfold sum at 1. simpl. rewrite sum_from. ring. Qed.

(** X13. The terrain stays close to the sphere: at a position with [theta]
    in [[0, pi]], each terrain of an elevation function of radius [r >= 0]
    adds at most [0.018 * r] in absolute value, and the elevation of the
    world [WorldGenerator.generate] builds lies between [0.958 * r] and
    [1.042 * r]; without terrain it is [r]. *)
Theorem elevation_band (r : R) (pos : Point) :
  0 <= theta pos <= PI -> 0 <= r ->
  (forall ef, radius ef = r ->
              - (0.018 * r * INR (List.length (terrain ef)))
              <= evaluate_without_radius ef pos
              <= 0.018 * r * INR (List.length (terrain ef)))
  /\ 0.958 * r <= evaluate_with_radius (generate_elevation_function r) pos
     <= 1.042 * r
  /\ evaluate_with_radius (ElevationFunction_init r) pos = r.
Proof.
  intros Ht Hr. split; [| split].
  - intros [rad ts] Hrad; simpl in Hrad; subst rad.
    unfold evaluate_without_radius; cbn [radius terrain].
    induction ts as [| t ts IH].
    + unfold sum; simpl. lra.
    + cbn [map List.length]. rewrite sum_cons, S_INR.
      assert (Hone : - (0.018 * r) <= evaluate t pos r <= 0.018 * r).
      { destruct t as [o | o | o].
        - pose proof (Hills_bound o pos r Ht Hr). lra.
        - pose proof (Ranges_bound o pos r Hr). lra.
        - apply Continents_bound, Hr. }
      lra.
  - unfold evaluate_with_radius, evaluate_without_radius,
      generate_elevation_function, add, ElevationFunction_init;
      cbn [radius terrain app map].
    rewrite !sum_cons. unfold sum; cbn [fold_left].
    pose proof (Hills_bound (mkPoint 0.0 0.0) pos r Ht Hr).
    pose proof (Ranges_bound (mkPoint 0.0 0.0) pos r Hr).
    pose proof (Continents_bound (mkPoint 0.0 0.0) pos r Hr).
    lra.
  - unfold evaluate_with_radius, evaluate_without_radius, ElevationFunction_init,
      sum; simpl. ring.
Qed.

Lemma elevation_band_witness :
  0.958 * 1000
  <= evaluate_with_radius (generate_elevation_function 1000) (mkPoint 0 0)
  <= 1.042 * 1000.
Proof.
  pose proof PI_RGT_0.
  apply (elevation_band 1000 (mkPoint 0 0)); simpl; lra.
Defined.

(** *** Polyhedra *)

Lemma Indices3D_eqb_eq (s t : Indices3D) : Indices3D_eqb s t = true <-> s = t.
Proof.
  destruct s as [[a b] c], t as [[a' b'] c']; unfold Indices3D_eqb.
  rewrite !andb_true_iff, !Z.eqb_eq. split.
  - intros [[-> ->] ->]. reflexivity.
  - intros [= -> -> ->]. auto.
Qed.

Lemma existsb_Indices3D (t : Indices3D) (s : list Indices3D) :
  existsb (Indices3D_eqb t) s = true <-> In t s.
Proof.
  rewrite existsb_exists. split.
  - intros (x & Hin & Heq). apply Indices3D_eqb_eq in Heq. now subst.
  - intros Hin. exists t. split; [exact Hin | now apply Indices3D_eqb_eq].
Qed.

Lemma set_add_In (t u : Indices3D) (s : list Indices3D) :
  In u (set_add t s) <-> u = t \/ In u s.
Proof.
  unfold set_add. destruct (existsb (Indices3D_eqb t) s) eqn:E.
  - apply existsb_Indices3D in E. split; [tauto |].
    intros [-> | H]; assumption.
  - rewrite in_app_iff. simpl. split; intros; intuition congruence.
Qed.

Lemma set_add_NoDup (t : Indices3D) (s : list Indices3D) :
  NoDup s -> NoDup (set_add t s).
Proof.
  intros Hs. unfold set_add.
  destruct (existsb (Indices3D_eqb t) s) eqn:E; [exact Hs |].
  assert (Hnin : ~ In t s).
  { intros Hin. apply existsb_Indices3D in Hin. congruence. }
  clear E. induction s as [| x s IH]; simpl.
  - constructor; [tauto | constructor].
  - inversion Hs; subst. constructor.
    + rewrite in_app_iff. simpl. intros [H | [H | []]]; [tauto |].
      subst. apply Hnin. now left.
    + apply IH; [assumption |]. intros H. apply Hnin. now right.
Qed.

Lemma set_of_from (l acc : list Indices3D) :
  NoDup acc ->
  NoDup (fold_left (fun s t => set_add t s) l acc)
  /\ (forall u, In u (fold_left (fun s t => set_add t s) l acc)
                <-> In u acc \/ In u l).
Proof.
  revert acc. induction l as [| t l IH]; intros acc Hacc; simpl.
  - split; [exact Hacc | tauto].
  - destruct (IH (set_add t acc) (set_add_NoDup t acc Hacc)) as [Hn Hin].
    split; [exact Hn |].
    intros u. rewrite Hin, set_add_In. intuition congruence.
Qed.

Lemma sorted3_ordered (t : Indices3D) :
  let '(a, b, c) := sorted3 t in (a <= b <= c)%Z.
Proof. destruct t as [[a b] c]. unfold sorted3. lia. Qed.

Lemma sorted3_permutation (a b c : Z) :
  sorted3 (a, b, c) = sorted3 (b, a, c) /\ sorted3 (a, b, c) = sorted3 (a, c, b).
Proof.
  unfold sorted3.
  split; refine (f_equal2 pair (f_equal2 pair _ _) _); lia.
Qed.

(** X14. A polyhedron keeps its vertices in order and its triangles as a
    set of sorted triples: a triangle is stored once, with its indices in
    ascending order, however often and in whatever order of its indices it
    is given. *)
Theorem Polyhedron_init_triangles (vs : list Point3D) (ts : list Indices3D) :
  let p := Polyhedron_init vs ts in
  vertices p = vs
  /\ NoDup (triangles p)
  /\ (forall t, In t (triangles p) <-> exists t0, In t0 ts /\ t = sorted3 t0)
  /\ (forall a b c, In (a, b, c) (triangles p) -> (a <= b <= c)%Z)
  /\ (forall a b c,
         sorted3 (a, b, c) = sorted3 (b, a, c)
         /\ sorted3 (a, b, c) = sorted3 (a, c, b)).
Proof.
  intros p. subst p. unfold Polyhedron_init, set_of; cbn [vertices triangles].
  destruct (set_of_from (map sorted3 ts) [] (NoDup_nil _)) as [Hn Hin].
  assert (Hmem : forall t,
             In t (fold_left (fun s t0 => set_add t0 s) (map sorted3 ts) [])
             <-> exists t0, In t0 ts /\ t = sorted3 t0).
  { intros t. rewrite Hin, in_map_iff. simpl. split.
    - intros [[] | (t0 & Heq & Ht0)]. exists t0. split; [exact Ht0 | now symmetry].
    - intros (t0 & Ht0 & Heq). right. exists t0. split; [now symmetry | exact Ht0]. }
  split; [reflexivity |]. split; [exact Hn |]. split; [exact Hmem |].
  split; [| apply sorted3_permutation].
  intros a b c Hin'. apply Hmem in Hin' as (t0 & _ & Heq).
  pose proof (sorted3_ordered t0) as Hord. rewrite <- Heq in Hord. exact Hord.
Qed.





(** The golden ratio in the icosahedron: with [f = (sqrt 5 + 1) / 2],
    [b = sqrt (2 / (5 + sqrt 5))] and [a = b * f], [a^2 + b^2 = 1] and
    [a^2 = a*b + b^2]. *)
Lemma icosahedron_numbers :
  let f := (sqrt 5.0 + 1.0) / 2.0 in
  let b := sqrt (2.0 / (5.0 + sqrt 5.0)) in
  let a := b * f in
  a * a + b * b = 1 /\ a * a = a * b + b * b.
Proof.
  intros f b a.
  assert (Hs : sqrt 5.0 * sqrt 5.0 = 5.0) by (apply sqrt_sqrt; lra).
  assert (Hs0 : 0 <= sqrt 5.0) by apply sqrt_pos.
  assert (Hb : b * b = 2.0 / (5.0 + sqrt 5.0)).
  { unfold b. apply sqrt_sqrt. apply Rmult_le_pos; [lra |].
    apply Rlt_le, Rinv_0_lt_compat. lra. }
  assert (Hf : f * f = f + 1) by (unfold f; nra).
  assert (Hbf : b * b * (f + 2) = 1).
  { rewrite Hb. unfold f.
    assert (E5 : 5.0 = 5) by lra. assert (E2 : 2.0 = 2) by lra.
    assert (E1 : 1.0 = 1) by lra. rewrite E5, E2, E1 in *.
    field. lra. }
  unfold a. split.
  - replace (b * f * (b * f) + b * b) with (b * b * (f * f + 1)) by ring.
    rewrite Hf. replace (f + 1 + 1) with (f + 2) by ring. exact Hbf.
  - replace (b * f * (b * f)) with (b * b * (f * f)) by ring.
    rewrite Hf. ring.
Qed.

(** X16. The icosahedron is regular: it has twelve vertices, all on the unit
    sphere, and twenty distinct triangles over the indices [0..11], each
    with its three sides of the same length (squared: [8 / (5 + sqrt 5)]),
    every vertex belonging to five of them. *)
Theorem icosahedron_regular :
  List.length (vertices icosahedron) = 12%nat
  /\ Forall (fun v => norm2 v = 1) (vertices icosahedron)
  /\ List.length (triangles icosahedron) = 20%nat
  /\ NoDup (triangles icosahedron)
  /\ Forall (fun t => let '(i, j, k) := t in (0 <= i < j)%Z /\ (j < k < 12)%Z)
       (triangles icosahedron)
  /\ Forall (fun t =>
               let '(i, j, k) := t in
               let side := 4 * (2.0 / (5.0 + sqrt 5.0)) in
               dist2 (vertex_at icosahedron i) (vertex_at icosahedron j) = side
               /\ dist2 (vertex_at icosahedron j) (vertex_at icosahedron k) = side
               /\ dist2 (vertex_at icosahedron i) (vertex_at icosahedron k) = side)
       (triangles icosahedron)
  /\ Forall (fun i =>
               List.length (filter (uses i) (triangles icosahedron)) = 5%nat)
       [0; 1; 2; 3; 4; 5; 6; 7; 8; 9; 10; 11]%Z.
Proof.
  assert (Ht : triangles icosahedron
               = [ (0, 2, 4); (0, 2, 6); (1, 3, 5); (1, 3, 7);
                   (4, 5, 8); (4, 5, 9); (6, 7, 10); (6, 7, 11);
                   (0, 8, 10); (1, 8, 10); (2, 9, 11); (3, 9, 11);
                   (0, 4, 8); (1, 5, 8); (2, 4, 9); (3, 5, 9);
                   (0, 6, 10); (1, 7, 10); (2, 6, 11); (3, 7, 11) ]%Z)
    by reflexivity.
  rewrite Ht.
  destruct icosahedron_numbers as [Hunit Hgold].
  cbv zeta in Hunit, Hgold.
  assert (Hb : sqrt (2.0 / (5.0 + sqrt 5.0)) * sqrt (2.0 / (5.0 + sqrt 5.0))
               = 2.0 / (5.0 + sqrt 5.0)).
  { apply sqrt_sqrt. pose proof (sqrt_pos 5.0).
    apply Rmult_le_pos; [lra |]. apply Rlt_le, Rinv_0_lt_compat. lra. }
  unfold vertex_at, icosahedron, Polyhedron_init; cbv zeta; cbn [vertices].
  set (b := sqrt (2.0 / (5.0 + sqrt 5.0))) in *.
  set (a := b * ((sqrt 5.0 + 1.0) / 2.0)) in *.
  rewrite <- Hb. clearbody a. clearbody b.
  split; [reflexivity |].
  split.
  { repeat (apply Forall_cons; [unfold norm2; lra |]). apply Forall_nil. }
  split; [reflexivity |].
  split.
  { repeat (constructor; [cbn; intuition discriminate |]). constructor. }
  split.
  { repeat (apply Forall_cons; [lia |]). apply Forall_nil. }
  split.
  { repeat (apply Forall_cons; [simpl; unfold dist2; repeat split; lra |]).
    apply Forall_nil. }
  repeat (apply Forall_cons; [reflexivity |]). apply Forall_nil.
Qed.

(** *** The projections *)

Lemma ratio_band (a lo hi : R) :
  lo < hi ->
  (lo <= a <= hi <-> -1 <= (2 * a - (hi + lo)) / (hi - lo) <= 1).
Proof.
  intros Hlt.
  assert (Hpos : 0 < hi - lo) by lra.
  assert (Hinv : 0 < / (hi - lo)) by now apply Rinv_0_lt_compat.
  replace (2 * a - (hi + lo)) with ((a - lo) - (hi - a)) by ring.
  unfold Rdiv. split.
  - intros [H1 H2].
    assert (E : (hi - lo) * / (hi - lo) = 1) by (field; lra).
    split.
    + apply Rmult_le_reg_r with (hi - lo); [lra |].
      rewrite Rmult_assoc, (Rmult_comm (/ _)), E. lra.
    + apply Rmult_le_reg_r with (hi - lo); [lra |].
      rewrite Rmult_assoc, (Rmult_comm (/ _)), E. lra.
  - intros [H1 H2].
    assert (E : (hi - lo) * / (hi - lo) = 1) by (field; lra).
    apply (Rmult_le_compat_r (hi - lo)) in H1; [| lra].
    apply (Rmult_le_compat_r (hi - lo)) in H2; [| lra].
    rewrite Rmult_assoc, (Rmult_comm (/ _)), E in H1, H2. lra.
Qed.

(** X30. The projections map the view volume onto the cube [[-1, 1]^3]:
    [orthographic], for [left < right], [bottom < top] and [near < far],
    sends a point to a point whose coordinates lie in [[-1, 1]] exactly when
    the point lies between left and right, bottom and top, and at a depth
    [-z] between near and far; [perspective], for [0 < near < far], sends a
    point in front of the eye to one whose fourth coordinate is its depth
    and whose third, divided by it, lies in [[-1, 1]] exactly when the depth
    lies between near and far.  Both fail for [near = far]. *)
Theorem projections_map_volume :
  (forall l r b t n f x y z,
      l < r -> b < t -> n < f ->
      exists m x' y' z',
        Matrices3D.orthographic l r b t n f = Some m
        /\ matvec m [x; y; z; 1] = [x'; y'; z'; 1]
        /\ (l <= x <= r <-> -1 <= x' <= 1)
        /\ (b <= y <= t <-> -1 <= y' <= 1)
        /\ (n <= - z <= f <-> -1 <= z' <= 1))
  /\ (forall fovy w h n f x y z,
         tan (0.5 * fovy) <> 0 -> w <> 0 -> 0 < n < f -> z < 0 ->
         exists m x' y' z',
           Matrices3D.perspective fovy w h n f = Some m
           /\ matvec m [x; y; z; 1] = [x'; y'; z'; - z]
           /\ (n <= - z <= f <-> -1 <= z' / - z <= 1))
  /\ (forall fovy w h l r b t n,
         Matrices3D.perspective fovy w h n n = None
         /\ Matrices3D.orthographic l r b t n n = None).
Proof.
  assert (E1 : 1.0 = 1) by lra.
  assert (E2 : 2.0 = 2) by lra.
  assert (E3 : -2.0 = -2) by lra.
  split; [| split].
  - intros l r b t n f x y z Hlr Hbt Hnf.
    unfold Matrices3D.orthographic.
    destruct (Req_dec_T (r - l) 0); [lra |].
    destruct (Req_dec_T (t - b) 0); [lra |].
    destruct (Req_dec_T (f - n) 0); [lra |].
    cbv zeta. rewrite ?E1, ?E2, ?E3.
    exists [ [2 * (1 / (r - l)); 0; 0; - (r + l) * (1 / (r - l))];
             [0; 2 * (1 / (t - b)); 0; - (t + b) * (1 / (t - b))];
             [0; 0; -2 * (1 / (f - n)); - (f + n) * (1 / (f - n))];
             [0; 0; 0; 1] ],
           ((2 * x - (r + l)) / (r - l)),
           ((2 * y - (t + b)) / (t - b)),
           ((2 * - z - (f + n)) / (f - n)).
    split; [reflexivity |].
    split.
    { unfold matvec; cbn [map inner].
      repeat (apply f_equal2; [field; lra |]). reflexivity. }
    split; [| split]; now apply ratio_band.
  - intros fovy w h n f x y z Htan Hw Hnf Hz.
    unfold Matrices3D.perspective.
    destruct (Req_dec_T (tan (0.5 * fovy)) 0); [contradiction |].
    destruct (Req_dec_T w 0); [contradiction |].
    destruct (Req_dec_T (n - f) 0); [lra |].
    cbv zeta. rewrite ?E1.
    eexists _, (1 / tan (0.5 * fovy) * h / w * x), (1 / tan (0.5 * fovy) * y),
      ((f + n) / (n - f) * z + 2 * f * n / (n - f)).
    split; [reflexivity |].
    split.
    { unfold matvec; cbn [map inner].
      repeat (apply f_equal2; [field; repeat split; assumption || lra |]).
      reflexivity. }
    set (d := - z). assert (Hd : 0 < d) by (unfold d; lra).
    assert (Hz' : z = - d) by (unfold d; ring). rewrite Hz'.
    replace (((f + n) / (n - f) * - d + 2 * f * n / (n - f)) / d)
      with (((f + n) * d - 2 * f * n) / ((f - n) * d)) by (field; lra).
    assert (Hpos : 0 < (f - n) * d) by (apply Rmult_lt_0_compat; lra).
    assert (E : (f - n) * d * / ((f - n) * d) = 1) by (field; lra).
    unfold Rdiv. split.
    + intros [H1 H2]. split.
      * apply Rmult_le_reg_r with ((f - n) * d); [lra |].
        rewrite Rmult_assoc, (Rmult_comm (/ _)), E. nra.
      * apply Rmult_le_reg_r with ((f - n) * d); [lra |].
        rewrite Rmult_assoc, (Rmult_comm (/ _)), E. nra.
    + intros [H1 H2].
      apply (Rmult_le_compat_r ((f - n) * d)) in H1; [| lra].
      apply (Rmult_le_compat_r ((f - n) * d)) in H2; [| lra].
      rewrite Rmult_assoc, (Rmult_comm (/ _)), E in H1, H2.
      split; nra.
  - intros fovy w h l r b t n. split.
    + unfold Matrices3D.perspective.
      destruct (Req_dec_T (tan (0.5 * fovy)) 0); [reflexivity |].
      destruct (Req_dec_T w 0); [reflexivity |].
      destruct (Req_dec_T (n - n) 0); [reflexivity | lra].
    + unfold Matrices3D.orthographic.
      destruct (Req_dec_T (r - l) 0); [reflexivity |].
      destruct (Req_dec_T (t - b) 0); [reflexivity |].
      destruct (Req_dec_T (n - n) 0); [reflexivity | lra].
Qed.

Lemma projections_map_volume_witness :
  exists m x' y' z',
    Matrices3D.orthographic 0 2 0 2 1 3 = Some m
    /\ matvec m [1; 1; -2; 1] = [x'; y'; z'; 1]
    /\ (0 <= 1 <= 2 <-> -1 <= x' <= 1).
Proof.
  destruct (proj1 projections_map_volume 0 2 0 2 1 3 1 1 (-2))
    as (m & x' & y' & z' & Hm & Hv & Hx & _); try lra.
  exists m, x', y', z'. auto.
Defined.

End SpaceFacts.

Module PlaybackFacts.
Import Defs Geometry Essentials Vocabulary Animations Python Space Playback.
Import SpaceFacts.
Local Open Scope R_scope.

(** What [animation_from_action] builds, by cases. *)
Lemma animation_from_action_cases (now : R) (action : Action) (a : Animation) :
  animation_from_action now action = Ok a ->
  _expired (base_of a) = false
  /\ start_time (base_of a) = now
  /\ timeout (base_of a)
     = match action with
       | MovementAction _ _ _ d => Some d
       | _ => None
       end
  /\ get_actor_id a
     = match action with
       | MovementAction i _ _ _ | LocalizeAction i _ => Some i
       | _ => None
       end
  /\ class_of a = animation_class_for (type_of action)
  /\ tick_count a = 0%Z.
Proof.
  destruct action; cbn; intros [= <-]; repeat split.
Qed.

Lemma expired_expire (a : Animation) (t : R) : expired (expire a) t = true.
Proof. destruct a; reflexivity. Qed.

(** X17. An animation made from an action is not expired until [expire] is
    called or its time is over: after [expire] it is expired at any time;
    before, only the animation of a [MovementAction] expires, once the
    duration of the action has passed since it was made. *)
Theorem animation_expiry (now : R) (action : Action) (a : Animation) :
  animation_from_action now action = Ok a ->
  (forall t, expired (expire a) t = true)
  /\ (forall t,
         expired a t = true
         <-> exists i s b d, action = MovementAction i s b d /\ now + d < t).
Proof.
  intros Hmade. split; [intros t; apply expired_expire |].
  intros t.
  destruct (animation_from_action_cases now action a Hmade)
    as (Hflag & Hstart & Htimeout & _).
  unfold expired. rewrite Hflag, Hstart, Htimeout.
  destruct action;
    try (split; [discriminate | intros (i & s & b & d & Heq & _); discriminate]).
  rewrite Rltb_true. split.
  - intros Hlt. eauto 6.
  - intros (i & s & b & d & [= -> -> -> ->] & Hlt). exact Hlt.
Qed.

Lemma animation_expiry_witness :
  expired (MovementAnimation (Animation_init 0 (Some 1)) 7%Z 1 0 0%Z) 2 = true.
Proof.
  apply (proj2 (animation_expiry 0 (MovementAction 7%Z 1 0 1) _ eq_refl) 2).
  exists 7%Z, 1, 0, 1. split; [reflexivity | lra].
Defined.

(** X18. An animation made from an action names an actor, whose other
    animation it replaces, exactly when the action is a [MovementAction] or
    a [LocalizeAction], and then it is the actor of the action. *)
Theorem animation_actor_id (now : R) (action : Action) (a : Animation)
    (i : ActorId) :
  animation_from_action now action = Ok a ->
  (get_actor_id a = Some i
   <-> (exists s b d, action = MovementAction i s b d)
       \/ (exists p, action = LocalizeAction i p)).
Proof.
  intros Hmade.
  destruct (animation_from_action_cases now action a Hmade)
    as (_ & _ & _ & Hid & _).
  rewrite Hid.
  destruct action;
    try (split; [discriminate
                | intros [(s & b & d & Heq) | (p & Heq)]; discriminate]).
  - split.
    + intros [= ->]. left. eauto.
    + intros [(s & b & d & [= -> _ _ _]) | (p & Heq)];
        [reflexivity | discriminate].
  - split.
    + intros [= ->]. right. eauto.
    + intros [(s & b & d & Heq) | (p & [= -> _])];
        [discriminate | reflexivity].
Qed.

Lemma animation_actor_id_witness :
  get_actor_id (LocalizeAnimation (Animation_init 0 None) 7%Z (mkPoint 0 0))
  = Some 7%Z.
Proof.
  apply (proj2 (animation_actor_id 0 (LocalizeAction 7%Z (mkPoint 0 0)) _ 7%Z
                  eq_refl)).
  right. exists (mkPoint 0 0). reflexivity.
Defined.

(** X19. One [tick] ends every animation but a [MovementAnimation]: it
    returns with the animation expired.  The tick of a [MovementAnimation]
    leaves its expiry to the timeout and counts the tick when the scene has
    the actor; it raises [AttributeError] when the scene has not, where the
    tick of a [LocalizeAnimation] only skips the position. *)
Theorem tick_expires (now : R) (action : Action) (a : Animation)
    (interval : R) (scene : Scene) :
  animation_from_action now action = Ok a ->
  (type_of action <> MovementActionC ->
   exists a' calls,
     tick a interval scene = Done (a', calls)
     /\ forall t, expired a' t = true)
  /\ (forall i s b d,
         action = MovementAction i s b d ->
         (get_actor scene i = None ->
          tick a interval scene = Raised AttributeError)
         /\ (get_actor scene i <> None ->
             exists a' calls,
               tick a interval scene = Done (a', calls)
               /\ tick_count a' = 1%Z
               /\ forall t, expired a' t = expired a t)).
Proof.
  intros Hmade. split.
  - intros Hkind.
    destruct action; cbn in Hmade; injection Hmade as <-;
      try (exfalso; apply Hkind; reflexivity);
      cbn [tick]; eexists _, _; (split; [reflexivity |]);
      intros t; apply expired_expire.
  - intros i s b d ->. cbn in Hmade. injection Hmade as <-. cbn [tick].
    split.
    + intros ->. reflexivity.
    + intros Hsome. destruct (get_actor scene i); [| contradiction].
      eexists _, _. split; [reflexivity |]. split; reflexivity.
Qed.

Lemma tick_expires_witness :
  tick (MovementAnimation (Animation_init 0 (Some 1)) 7%Z 1 0 0%Z) 1
    (mkScene (fun _ => None) 1000)
  = Raised AttributeError.
Proof.
  apply (proj2 (tick_expires 0 (MovementAction 7%Z 1 0 1) _ 1
                  (mkScene (fun _ => None) 1000) eq_refl) 7%Z 1 0 1 eq_refl).
  reflexivity.
Defined.

Lemma sum_app (l1 l2 : list R) : sum (l1 ++ l2) = sum l1 + sum l2.
Proof.
  induction l1 as [| x l1 IH]; simpl.
  - unfold sum at 2; simpl. ring.
  - rewrite !sum_cons, IH. ring.
Qed.

Lemma movement_ticks (b : AnimationBase) (i : ActorId) (s g : R) (n : Z)
    (intervals : list R) (scene : Scene) :
  get_actor scene i <> None -> (0 <= n)%Z ->
  exists calls,
    ticks (MovementAnimation b i s g n) intervals scene
    = Done (MovementAnimation b i s g (n + Z.of_nat (List.length intervals)),
            calls)
    /\ sum (map moved_distance calls) = s * sum intervals
    /\ List.length (filter (plays WALK) calls)
       = (if (n =? 0)%Z then
            match intervals with [] => 0%nat | _ => 1%nat end
          else 0%nat).
Proof.
  intros Hactor. revert n. induction intervals as [| x rest IH]; intros n Hn.
  - exists []. cbn [ticks List.length Z.of_nat]. rewrite Z.add_0_r.
    split; [reflexivity |]. split.
    + unfold sum; simpl. ring.
    + destruct (n =? 0)%Z; reflexivity.
  - cbn [ticks tick]. destruct (get_actor scene i) eqn:E; [| contradiction].
    destruct (IH (n + 1)%Z ltac:(lia)) as (calls & Hticks & Hsum & Hwalk).
    rewrite Hticks. eexists. split.
    + f_equal. f_equal. f_equal.
      rewrite <- Z.add_assoc. f_equal. cbn [List.length]. lia.
    + split.
      * rewrite map_app, sum_app, Hsum. cbn [map]. rewrite !sum_cons.
        destruct (n =? 0)%Z; cbn [map moved_distance];
          rewrite ?sum_cons; unfold sum at 1; simpl; ring.
      * rewrite filter_app, length_app, Hwalk.
        assert (Hn1 : (n + 1 =? 0)%Z = false) by (apply Z.eqb_neq; lia).
        rewrite Hn1.
        destruct (n =? 0)%Z; reflexivity.
Qed.

(** X20. A [MovementAnimation] ticked over a list of intervals, on a scene
    that has its actor, moves the actor by its speed times the sum of the
    intervals in all, plays the walk animation once, on the first tick, and
    counts one tick per interval. *)
Theorem movement_animation_ticks (now : R) (i : ActorId) (s g d : R)
    (a : Animation) (intervals : list R) (scene : Scene) :
  animation_from_action now (MovementAction i s g d) = Ok a ->
  get_actor scene i <> None ->
  intervals <> [] ->
  exists a' calls,
    ticks a intervals scene = Done (a', calls)
    /\ tick_count a' = Z.of_nat (List.length intervals)
    /\ sum (map moved_distance calls) = s * sum intervals
    /\ List.length (filter (plays WALK) calls) = 1%nat.
Proof.
  intros Hmade Hactor Hne. cbn in Hmade. injection Hmade as <-.
  destruct (movement_ticks (Animation_init now (Some d)) i s g 0%Z intervals scene
              Hactor ltac:(lia)) as (calls & Hticks & Hsum & Hwalk).
  eexists _, calls. split; [exact Hticks |].
  split; [reflexivity |]. split; [exact Hsum |].
  rewrite Hwalk. destruct intervals; [contradiction | reflexivity].
Qed.

Lemma movement_animation_ticks_witness :
  exists a' calls,
    ticks (MovementAnimation (Animation_init 0 (Some 1)) 7%Z 2 0 0%Z) [0.25; 0.5]
      (mkScene (fun i => Some (mkActor i "warrior" None)) 1000)
    = Done (a', calls)
    /\ tick_count a' = 2%Z
    /\ sum (map moved_distance calls) = 2 * sum [0.25; 0.5]
    /\ List.length (filter (plays WALK) calls) = 1%nat.
Proof.
  apply (movement_animation_ticks 0 7%Z 2 0 1 _ [0.25; 0.5]
           (mkScene (fun i => Some (mkActor i "warrior" None)) 1000) eq_refl);
    discriminate.
Defined.

End PlaybackFacts.

Module ControlsFacts.
Import Python ControlsModel Space SpaceFacts PlaybackFacts.
Local Open Scope R_scope.

Lemma key_eqb_eq (a b : key.Symbol) : key.eqb a b = true <-> a = b.
Proof.
  destruct a, b; simpl; split; intros H; try discriminate; try reflexivity.
  - apply Z.eqb_eq in H. now subst.
  - injection H as ->. apply Z.eqb_refl.
Qed.

Lemma Key_eqb_eq (a b : Key) : Key_eqb a b = true <-> a = b.
Proof.
  destruct a as [s m], b as [s' m']. unfold Key_eqb; simpl.
  rewrite andb_true_iff, key_eqb_eq, Z.eqb_eq. split.
  - intros [-> ->]. reflexivity.
  - intros [= -> ->]. auto.
Qed.

Lemma Key_eqb_refl (a : Key) : Key_eqb a a = true.
Proof. now apply Key_eqb_eq. Qed.

Section KeyDictFacts.
Context {V : Type}.
Implicit Types (d : list (Key * V)) (k : Key) (v : V).

Lemma delitem_missing d k : get d k = None -> delitem d k = Raised KeyError.
Proof.
  induction d as [| [k' v'] d IH]; simpl; [reflexivity |].
  destruct (Key_eqb k' k); [discriminate |].
  intros Hnone. now rewrite (IH Hnone).
Qed.

Lemma delitem_setitem d k v :
  get d k = None -> delitem (setitem d k v) k = Done d.
Proof.
  induction d as [| [k' v'] d IH]; simpl.
  - now rewrite Key_eqb_refl.
  - destruct (Key_eqb k' k) eqn:E; [discriminate |].
    intros Hnone. simpl. rewrite E, (IH Hnone). reflexivity.
Qed.

Lemma get_setitem d k v : get (setitem d k v) k = Some v.
Proof.
  induction d as [| [k' v'] d IH]; simpl.
  - now rewrite Key_eqb_refl.
  - destruct (Key_eqb k' k) eqn:E; simpl.
    + now rewrite Key_eqb_refl.
    + now rewrite E.
Qed.

Lemma setitem_nonempty d k v : (0 <? List.length (setitem d k v))%nat = true.
Proof.
  destruct d as [| [k' v'] d]; simpl; [reflexivity |].
  destruct (Key_eqb k' k); reflexivity.
Qed.

End KeyDictFacts.

Section WithModifiers.
Variables MOD_CTRL MOD_SHIFT : Z.


(** The repeatable keys are bound without modifiers and to no action at
    press. *)
Lemma repeatable_key (symbol : key.Symbol) (m : Z) :
  mem repeatable_actions (symbol, m) = true ->
  m = 0%Z
  /\ get press_actions (symbol, m) = None
  /\ exists action, get repeatable_actions (symbol, m) = Some action.
Proof.
  unfold mem. intros Hmem.
  destruct (get repeatable_actions (symbol, m)) as [action |] eqn:E;
    [| discriminate].
  assert (Hm : m = 0%Z).
  { destruct m as [| p | p]; [reflexivity | exfalso | exfalso];
      destruct symbol; discriminate E. }
  subst m. split; [reflexivity |]. split; [| eauto].
  destruct symbol; try reflexivity; try discriminate.
Qed.

(** X21. Releasing a repeatable key that is not active raises [KeyError];
    released after it was pressed, from controls where it was not active,
    it leaves the active actions as they were before the press, and neither
    call acts on the world. *)
Theorem press_release_roundtrip (self : Controls) (now : R)
    (symbol : key.Symbol) (modifiers : Z) :
  let k := (symbol, Z.land (MOD_MASK MOD_CTRL MOD_SHIFT) modifiers) in
  mem repeatable_actions k = true ->
  get (active_actions self) k = None ->
  handle_key_release MOD_CTRL MOD_SHIFT self symbol modifiers = Raised KeyError
  /\ (let pressed :=
        handle_key_press MOD_CTRL MOD_SHIFT self now symbol modifiers in
      snd pressed = []
      /\ get (active_actions (fst pressed)) k <> None
      /\ handle_key_release MOD_CTRL MOD_SHIFT (fst pressed) symbol modifiers
         = Done (mkControls (Some now) (active_actions self), [])).
Proof.
  intros k Hrep Hidle.
  destruct (repeatable_key symbol _ Hrep) as (Hm & Hpress & action & Haction).
  fold k in Hpress, Haction.
  unfold handle_key_release, handle_key_press. fold k.
  cbn [release_actions get]. rewrite Hrep, Hpress, Haction.
  split.
  - now rewrite (delitem_missing _ _ Hidle).
  - cbn [fst snd active_actions prev_moment].
    split; [reflexivity |]. split.
    + rewrite get_setitem. discriminate.
    + now rewrite (delitem_setitem _ _ _ Hidle).
Qed.

(** X22. A repeatable key released while a masked modifier is held stays
    active: the release does nothing, and [on_draw] goes on returning
    true. *)
Theorem release_with_modifier_keeps_key (self : Controls) (now later : R)
    (symbol : key.Symbol) (modifiers held : Z) :
  mem repeatable_actions (symbol, Z.land (MOD_MASK MOD_CTRL MOD_SHIFT) modifiers) = true ->
  Z.land (MOD_MASK MOD_CTRL MOD_SHIFT) held <> 0%Z ->
  let pressed :=
    fst (handle_key_press MOD_CTRL MOD_SHIFT self now symbol modifiers) in
  handle_key_release MOD_CTRL MOD_SHIFT pressed symbol held = Done (pressed, [])
  /\ snd (on_draw pressed later) = true.
Proof.
  intros Hrep Hheld pressed.
  destruct (repeatable_key symbol _ Hrep) as (Hm & Hpress & action & Haction).
  assert (Hnot : mem repeatable_actions (symbol, Z.land (MOD_MASK MOD_CTRL MOD_SHIFT) held) = false).
  { destruct (mem repeatable_actions (symbol, Z.land (MOD_MASK MOD_CTRL MOD_SHIFT) held)) eqn:E;
      [| reflexivity].
    destruct (repeatable_key symbol _ E) as (H0 & _). contradiction. }
  unfold handle_key_release. cbn [release_actions get]. rewrite Hnot.
  split; [reflexivity |].
  subst pressed. unfold handle_key_press. rewrite Hpress, Haction.
  unfold on_draw; cbn [fst snd active_actions]. apply setitem_nonempty.
Qed.

Lemma last_cons (rest : list R) (t d : R) :
  last (t :: rest) d = last rest t.
Proof.
  revert t d. induction rest as [| t' rest IH]; intros t d; [reflexivity |].
  change (last (t :: t' :: rest) d) with (last (t' :: rest) d).
  rewrite IH. symmetry. apply IH.
Qed.

(** A draw while one key is held. *)
Lemma on_draw_held (action : R -> WorldCall) (k : Key) (t0 t : R) :
  t0 < t ->
  on_draw (mkControls (Some t0) [(k, action)]) t
  = (mkControls (Some t) [(k, action)], [action (t - t0)], true).
Proof.
  intros Hlt. unfold on_draw; cbn [prev_moment active_actions].
  destruct (Rlt_dec 0 (t - t0)); [reflexivity | lra].
Qed.

(** While a key is held, the draws add up. *)
Lemma draws_held (action : R -> WorldCall) (k : Key) (coefficient : R)
    (t0 : R) (moments : list R) :
  (forall intv, move_x (action intv) = coefficient * intv) ->
  increasing t0 moments ->
  sum (map move_x (snd (draws (mkControls (Some t0) [(k, action)]) moments)))
  = coefficient * (last moments t0 - t0).
Proof.
  intros Haction. revert t0.
  induction moments as [| t rest IH]; intros t0 Hinc.
  - simpl. unfold sum; simpl. ring.
  - destruct Hinc as [Hlt Hinc].
    specialize (IH t Hinc).
    cbn [draws]. rewrite (on_draw_held _ _ _ _ Hlt).
    destruct (draws (mkControls (Some t) [(k, action)]) rest) as [self2 calls2].
    cbn [snd] in *. rewrite last_cons.
    cbn [app map]. rewrite sum_cons, IH, Haction. ring.
Qed.

(** X23. Holding [A] moves the world at the speed [-pi] however the draws
    are spaced: after [A] is pressed at [t0] with no masked modifier, the
    draws at later, increasing moments move the world along its first axis
    by [-pi * (t - t0)] in all, [t] being the moment of the last draw. *)
Theorem held_key_total_move (t0 : R) (modifiers : Z) (moments : list R) :
  Z.land (MOD_MASK MOD_CTRL MOD_SHIFT) modifiers = 0%Z ->
  increasing t0 moments ->
  let pressed :=
    fst (handle_key_press MOD_CTRL MOD_SHIFT Controls_init t0 key.A modifiers) in
  sum (map move_x (snd (draws pressed moments)))
  = - PI * (last moments t0 - t0).
Proof.
  intros Hmod Hinc pressed. subst pressed.
  unfold handle_key_press. rewrite Hmod. cbn [fst snd].
  cbn [Controls_init active_actions setitem].
  apply draws_held; [| exact Hinc].
  intros intv. reflexivity.
Qed.

End WithModifiers.

Lemma press_release_roundtrip_witness :
  handle_key_release 2 1 Controls_init key.W 0 = Raised KeyError
  /\ handle_key_release 2 1 (fst (handle_key_press 2 1 Controls_init 0 key.W 0))
       key.W 0
     = Done (mkControls (Some 0) [], []).
Proof.
  destruct (press_release_roundtrip 2 1 Controls_init 0 key.W 0 eq_refl eq_refl)
    as (Hraise & _ & _ & Hback).
  split; [exact Hraise | exact Hback].
Defined.

Lemma release_with_modifier_keeps_key_witness :
  let pressed := fst (handle_key_press 2 1 Controls_init 0 key.W 0) in
  handle_key_release 2 1 pressed key.W 1 = Done (pressed, [])
  /\ snd (on_draw pressed 5) = true.
Proof.
  apply (release_with_modifier_keeps_key 2 1 Controls_init 0 5 key.W 0 1).
  - reflexivity.
  - discriminate.
Defined.

Lemma held_key_total_move_witness :
  sum (map move_x
         (snd (draws (fst (handle_key_press 2 1 Controls_init 0 key.A 0))
                 [1; 3])))
  = - PI * (3 - 0).
Proof.
  apply (held_key_total_move 2 1 0 0%Z [1; 3]).
  - reflexivity.
  - simpl. lra.
Defined.

End ControlsFacts.

Module BehaviourFacts.
Import Defs Geometry Essentials Entities Vocabulary StateModel Tasks Python.
Import Behaviour StateFacts TaskFacts.
Local Open Scope R_scope.

(** *** Walking *)

(** X24. [WalkTask.finish] reports where the entity is registered and
    changes nothing: it returns one [LocalizeAction] with the position of
    the entity, and it raises [AssertionError], instead of returning an
    empty list as the other tasks do, exactly when the entity is not
    registered or has no position. *)
Theorem WalkTask_finish_localizes (self : WalkTask) (state : State) :
  match WalkTask_finish self state with
  | Done r =>
      task_of r = self /\ state_of r = state
      /\ exists entity position,
           get_entity state (wt_entity_id self) = Some entity
           /\ get_position entity = Some position
           /\ actions_of r = [LocalizeAction (wt_entity_id self) position]
  | Raised e =>
      e = AssertionError
      /\ (get_entity state (wt_entity_id self) = None
          \/ exists entity,
               get_entity state (wt_entity_id self) = Some entity
               /\ get_position entity = None)
  end.
Proof.
  unfold WalkTask_finish.
  destruct (get_entity state (wt_entity_id self)) as [entity |] eqn:He.
  - destruct (get_position entity) as [position |] eqn:Hp.
    + repeat split. exists entity, position. auto.
    + split; [reflexivity |]. right. exists entity. auto.
  - split; [reflexivity |]. now left.
Qed.

(** X25. A warrior never stops walking: an event that is a [ResumeEvent] or
    a [FinishedEvent] gives it a [WalkTask] at speed 1 for 1 second along the
    bearing drawn; the task starts with one [MovementAction], its job ends
    with a [FinishedEvent] for the warrior, which gives it the next
    [WalkTask]; any other event leaves its task as it is.  For a warrior
    registered with a position the task finishes with a [LocalizeAction] at
    that position. *)
Theorem Warrior_keeps_walking `{Collaborators} (self : Entity)
    (task : EntityTask) (event : Event) (bearing : R) (state : State)
    (position : Point) :
  get_entity state (get_id self) = Some self ->
  get_position self = Some position ->
  (wakes event = false -> Warrior_handle_event self task event bearing = task)
  /\ (wakes event = true ->
      exists walk,
        Warrior_handle_event self task event bearing = Running (TWalk walk)
        /\ WalkTask_start walk state
           = (walk, state, [MovementAction (get_id self) 1.0 bearing 1.0])
        /\ option_map job_events (WalkTask_get_job walk)
           = Some [FinishedEvent (get_id self)]
        /\ WalkTask_finish walk state
           = Done (walk, state, [LocalizeAction (get_id self) position])
        /\ forall next bearing',
             In next [FinishedEvent (get_id self)] ->
             Warrior_handle_event self (Running (TWalk walk)) next bearing'
             = Running (TWalk (WalkTask_init (get_id self) 1.0 bearing' 1.0))).
Proof.
  intros Hself Hposition. split.
  - destruct event; simpl; intros Hw; try reflexivity; discriminate.
  - intros Hw. exists (WalkTask_init (get_id self) 1.0 bearing 1.0).
    split; [destruct event; simpl in Hw; try discriminate; reflexivity |].
    split; [reflexivity |]. split; [reflexivity |]. split.
    + unfold WalkTask_finish. cbn [WalkTask_init wt_entity_id].
      now rewrite Hself, Hposition.
    + intros next bearing' [<- | []]. reflexivity.
Qed.

Lemma Warrior_keeps_walking_witness :
  WalkTask_finish (WalkTask_init 1%Z 1.0 0 1.0) Example.quarry
  = Done (WalkTask_init 1%Z 1.0 0 1.0, Example.quarry,
          [LocalizeAction 1%Z Example.origin]).
Proof.
  destruct (@Warrior_keeps_walking Example.collaborators
              (Warrior 1%Z (Some Example.origin)) IdleTask (ResumeEvent 1%Z) 0
              Example.quarry Example.origin eq_refl eq_refl) as [_ Hwalk].
  destruct (Hwalk eq_refl) as (walk & Hhandle & _ & _ & Hfinish & _).
  injection Hhandle as <-. exact Hfinish.
Defined.

(** *** The pirate *)

Section WithConclude.
Variable conclude : EntityTask -> EntityTask.

(** X26. [Pirate.handle_event] cannot handle an [InventorySwapEvent]: the
    class [tasks.InventorySwapTask] it names does not exist, so for a pirate
    with its inventory the call raises [AttributeError] for this event, and
    for this event alone; a pirate without inventory fails the assertion
    whatever the event. *)
Theorem Pirate_handle_event_raises (self : Entity) (task : EntityTask)
    (event : Event) :
  match inventory (features self) with
  | None => Pirate_handle_event conclude self task event = Raised AssertionError
  | Some _ =>
      match event with
      | InventorySwapEvent _ _ _ =>
          Pirate_handle_event conclude self task event = Raised AttributeError
      | _ => exists task', Pirate_handle_event conclude self task event = Done task'
      end
  end.
Proof.
  unfold Pirate_handle_event.
  destruct (inventory (features self)) as [inv |]; [| reflexivity].
  destruct event; try (eexists; reflexivity); try reflexivity.
  destruct (get_hand inv hand); eexists; reflexivity.
Qed.

End WithConclude.

(** *** Picking an item up *)

Section WithCollaborators.
Context `{Collaborators}.

Lemma PickItemTask_finish_in_range (self : PickItemTask) (state : State)
    (what : ActorId) (entity item : Entity) (inv : Inventory)
    (storage : Inventorable) (d : R) :
  pt_what_id self = Some what ->
  pt_who_id self <> what ->
  get_entity state (pt_who_id self) = Some entity ->
  get_entity state what = Some item ->
  inventory (features entity) = Some inv ->
  inventorable (features item) = Some storage ->
  calculate_distance state entity item = Some d ->
  d <= PickItemTask_MAX_DISTANCE ->
  PickItemTask_finish self state
  = (self,
     update_entity
       (update_entity state (pt_who_id self)
          (holding entity (store_entry inv (pt_hand self) (as_info item))))
       what (stored item (get_id entity)),
     [PickEndAction (pt_who_id self);
      UpdateInventoryAction (pt_who_id self)
        (store_entry inv (pt_hand self) (as_info item))]).
Proof.
  intros Hwhat Hne He Hi Hinv Hstorage Hd Hle.
  unfold PickItemTask_finish.
  rewrite Hwhat, He, Hi, Hinv, Hstorage, Hd.
  destruct (Rlt_dec PickItemTask_MAX_DISTANCE d); [lra |].
  rewrite (get_entity_update_other _ _ _ _ Hne), Hi.
  reflexivity.
Qed.

Lemma get_hand_store_entry (inv : Inventory) (hand : Hand) (info : EntityInfo) :
  get_hand (store_entry inv hand info) hand = Some (info_id info).
Proof. destruct hand; reflexivity. Qed.

Lemma get_hand_store_entry_other (inv : Inventory) (hand other : Hand)
    (info : EntityInfo) :
  hand <> other ->
  get_hand (store_entry inv hand info) other = get_hand inv other.
Proof. destruct hand, other; intros Hne; try reflexivity; contradiction. Qed.

(** X27. A pick that succeeds moves the item from the world to the hand:
    for a picker with an inventory and another, inventorable, entity within
    [MAX_DISTANCE], [PickItemTask.finish] returns [PickEndAction] and an
    [UpdateInventoryAction] with the inventory in which the hand of the task
    holds the item and the other hand what it held; the picker is
    registered with this inventory, the item is registered as stored by the
    picker and without position, and no other entity changes.  The item
    cannot be picked up again: every later pick of it, by whichever picker,
    starts and finishes with no action. *)
Theorem PickItemTask_finish_picks (self : PickItemTask) (state : State)
    (what : ActorId) (entity item : Entity) (inv : Inventory)
    (storage : Inventorable) (d : R) :
  pt_what_id self = Some what ->
  pt_who_id self <> what ->
  get_entity state (pt_who_id self) = Some entity ->
  get_entity state what = Some item ->
  inventory (features entity) = Some inv ->
  inventorable (features item) = Some storage ->
  calculate_distance state entity item = Some d ->
  d <= PickItemTask_MAX_DISTANCE ->
  let r := PickItemTask_finish self state in
  exists inv',
    actions_of r
    = [PickEndAction (pt_who_id self); UpdateInventoryAction (pt_who_id self) inv']
    /\ get_hand inv' (pt_hand self) = Some (id item)
    /\ (forall other, pt_hand self <> other ->
                      get_hand inv' other = get_hand inv other)
    /\ get_entity (state_of r) (pt_who_id self) = Some (holding entity inv')
    /\ get_entity (state_of r) what = Some (stored item (get_id entity))
    /\ (forall k, k <> pt_who_id self -> k <> what ->
                  get_entity (state_of r) k = get_entity state k)
    /\ (forall again,
          pt_what_id again = Some what ->
          PickItemTask_start again (state_of r) = (again, state_of r, [])
          /\ PickItemTask_finish again (state_of r) = (again, state_of r, [])).
Proof.
  intros Hwhat Hne He Hi Hinv Hstorage Hd Hle r.
  exists (store_entry inv (pt_hand self) (as_info item)).
  subst r.
  rewrite (PickItemTask_finish_in_range self state what entity item inv
             storage d Hwhat Hne He Hi Hinv Hstorage Hd Hle).
  unfold actions_of, state_of; cbn [fst snd].
  set (inv' := store_entry inv (pt_hand self) (as_info item)).
  set (state1 := update_entity state (pt_who_id self) (holding entity inv')).
  set (state2 := update_entity state1 what (stored item (get_id entity))).
  assert (Hi1 : get_entity state1 what = Some item).
  { subst state1. now rewrite (get_entity_update_other _ _ _ _ Hne). }
  assert (Hi2 : get_entity state2 what = Some (stored item (get_id entity))).
  { subst state2. exact (get_entity_update_same _ _ _ _ Hi1). }
  split; [reflexivity |].
  split; [apply get_hand_store_entry |].
  split; [intros other Hother; now apply get_hand_store_entry_other |].
  split.
  { subst state2. rewrite get_entity_update_other by congruence.
    subst state1. exact (get_entity_update_same _ _ _ _ He). }
  split; [exact Hi2 |].
  split.
  { intros k Hk1 Hk2. subst state2 state1.
    rewrite !get_entity_update_other by congruence. reflexivity. }
  intros again Hagain. split.
  - destruct again as [who' what' hand' job']. cbn [pt_what_id] in Hagain.
    subst what'. unfold PickItemTask_start. cbv zeta.
    cbn [pt_who_id pt_what_id pt_hand pt_job]. rewrite Hi2.
    destruct (get_entity state2 who') as [picker |]; [| reflexivity].
    unfold calculate_distance.
    destruct (get_position picker); reflexivity.
  - unfold PickItemTask_finish. rewrite Hagain, Hi2.
    destruct (get_entity state2 (pt_who_id again)) as [picker |]; [| reflexivity].
    destruct (inventory (features picker)); [| reflexivity].
    cbn [stored set_position set_features features inventorable with_inventorable].
    unfold calculate_distance.
    destruct (get_position picker); reflexivity.
Qed.

(** X28. A pirate picks with an empty hand and uses what the hand holds:
    a [HandActivationEvent] for an empty hand gives the pirate a
    [PickItemTask] for the object; once this task has started and finished
    on an inventorable entity within reach, the pirate as registered holds
    the item, and every further activation of that hand gives a
    [UseItemTask] with the item, whatever the object of the event. *)
Theorem Pirate_picks_then_uses (conclude : EntityTask -> EntityTask)
    (self : Entity) (task : EntityTask) (state : State)
    (receiver : ActorId) (hand : Hand) (what : ActorId) (item : Entity)
    (inv : Inventory) (storage : Inventorable) (d : R) :
  get_entity state (get_id self) = Some self ->
  get_id self <> what ->
  get_entity state what = Some item ->
  inventory (features self) = Some inv ->
  get_hand inv hand = None ->
  inventorable (features item) = Some storage ->
  calculate_distance state self item = Some d ->
  d <= PickItemTask_MAX_DISTANCE ->
  exists pick,
    Pirate_handle_event conclude self task
      (HandActivationEvent receiver hand (Some what))
    = Done (Running (TPickItem pick))
    /\ (let started := PickItemTask_start pick state in
        actions_of started = [PickStartAction (get_id self) what]
        /\ option_map job_events (PickItemTask_get_job (task_of started))
           = Some [FinishedEvent (get_id self)]
        /\ (let finished :=
              PickItemTask_finish (task_of started) (state_of started) in
            exists self',
              get_entity (state_of finished) (get_id self) = Some self'
              /\ forall task' receiver' target,
                   Pirate_handle_event conclude self' task'
                     (HandActivationEvent receiver' hand target)
                   = Done (Running
                             (TUseItem
                                (UseItemTask_init (get_id self) (id item)
                                   target hand))))).
Proof.
  intros Hself Hne Hi Hinv Hhand Hstorage Hd Hle.
  exists (PickItemTask_init (get_id self) (Some what) hand).
  split.
  { unfold Pirate_handle_event. now rewrite Hinv, Hhand. }
  cbv zeta.
  rewrite (PickItemTask_start_in_range
             (PickItemTask_init (get_id self) (Some what) hand) state what
             self item d eq_refl Hself Hi Hd Hle).
  unfold task_of, state_of, actions_of; cbn [fst snd PickItemTask_init pt_who_id pt_hand].
  split; [reflexivity |]. split; [reflexivity |].
  rewrite (PickItemTask_finish_in_range
             (mkPickItemTask (get_id self) (Some what) hand
                (Some (WaitJob PickItemTask_PICK_DURATION
                         [FinishedEvent (get_id self)])))
             state what self item inv storage d
             eq_refl Hne Hself Hi Hinv Hstorage Hd Hle).
  cbn [fst snd pt_who_id pt_hand].
  eexists. split.
  { rewrite get_entity_update_other by congruence.
    exact (get_entity_update_same _ _ _ _ Hself). }
  intros task' receiver' target.
  unfold Pirate_handle_event.
  cbn [holding set_features features set_inventory inventory].
  rewrite get_hand_store_entry. reflexivity.
Qed.

(** X29. An explicit receiver with the id 0 counts as no receiver: when the
    performer and the item are registered, [UseItemTask.start] keeps a
    receiver id other than 0 and replaces both an absent receiver and the
    receiver 0 by the closest entity absorbing the claims of the item within
    [MAX_DISTANCE], if any; it returns no action and leaves the state as it
    is. *)
Theorem UseItemTask_start_receiver (self : UseItemTask) (state : State)
    (performer item : Entity) :
  get_entity state (ut_performer_id self) = Some performer ->
  get_entity state (ut_item_id self) = Some item ->
  let found :=
    find_closest_absorbing_within state (ut_performer_id self)
      (delivery_claims (features item)) UseItemTask_MAX_DISTANCE in
  let r := UseItemTask_start self state in
  ut_receiver_id (task_of r)
  = match ut_receiver_id self with
    | Some receiver => if (receiver =? 0)%Z then found else Some receiver
    | None => found
    end
  /\ state_of r = state /\ actions_of r = [].
Proof.
  intros Hp Hi found r.
  assert (Hres : (if truthy_id (ut_receiver_id self) then ut_receiver_id self
                  else found)
                 = match ut_receiver_id self with
                   | Some receiver =>
                       if (receiver =? 0)%Z then found else Some receiver
                   | None => found
                   end).
  { unfold truthy_id. destruct (ut_receiver_id self) as [receiver |];
      [| reflexivity].
    destruct (receiver =? 0)%Z; reflexivity. }
  rewrite <- Hres. subst r. unfold UseItemTask_start.
  rewrite Hp, Hi. fold found. cbv zeta.
  cbn [ut_performer_id ut_item_id ut_hand ut_job].
  destruct (if truthy_id (ut_receiver_id self) then ut_receiver_id self
            else found) as [rid |]; [| repeat split].
  destruct (get_entity state rid) as [target |]; [| repeat split].
  destruct (calculate_distance state performer target) as [distance |];
    [| repeat split].
  destruct (Rlt_dec UseItemTask_MAX_DISTANCE distance); [repeat split |].
  destruct (get_first_absorbed (features target) (delivery_claims (features item)))
    as [[| |] |]; repeat split.
Qed.

End WithCollaborators.

(** The rocks of the beach are where the pirate stands. *)
Lemma beach_in_range :
  calculate_distance beach (Pirate 1%Z (Some Example.origin))
    (Rocks 4%Z (Some Example.origin)) = Some 0.
Proof.
  unfold calculate_distance; cbn [get_position position Pirate Rocks].
  now rewrite GeometryFacts.great_circle_distance_to_self.
Qed.

Lemma PickItemTask_finish_picks_witness :
  exists inv',
    actions_of (PickItemTask_finish (mkPickItemTask 1%Z (Some 4%Z) LEFT None) beach)
    = [PickEndAction 1%Z; UpdateInventoryAction 1%Z inv']
    /\ get_hand inv' LEFT = Some 4%Z.
Proof.
  destruct (@PickItemTask_finish_picks Example.collaborators
              (mkPickItemTask 1%Z (Some 4%Z) LEFT None) beach 4%Z
              (Pirate 1%Z (Some Example.origin)) (Rocks 4%Z (Some Example.origin))
              empty_inventory (mkInventorable None) 0)
    as (inv' & Hactions & Hhand & _).
  - reflexivity.
  - discriminate.
  - reflexivity.
  - reflexivity.
  - reflexivity.
  - reflexivity.
  - exact beach_in_range.
  - unfold PickItemTask_MAX_DISTANCE. lra.
  - exists inv'. split; [exact Hactions | exact Hhand].
Defined.

Lemma Pirate_picks_then_uses_witness :
  exists pick,
    Pirate_handle_event (fun task => task) (Pirate 1%Z (Some Example.origin))
      IdleTask (HandActivationEvent 1%Z RIGHT (Some 4%Z))
    = Done (Running (TPickItem pick)).
Proof.
  destruct (@Pirate_picks_then_uses Example.collaborators (fun task => task)
              (Pirate 1%Z (Some Example.origin)) IdleTask beach 1%Z RIGHT 4%Z
              (Rocks 4%Z (Some Example.origin)) empty_inventory
              (mkInventorable None) 0)
    as (pick & Hpick & _).
  - reflexivity.
  - discriminate.
  - reflexivity.
  - reflexivity.
  - reflexivity.
  - reflexivity.
  - exact beach_in_range.
  - unfold PickItemTask_MAX_DISTANCE. lra.
  - exists pick. exact Hpick.
Defined.

Lemma UseItemTask_start_receiver_witness :
  ut_receiver_id
    (task_of (@UseItemTask_start Example.collaborators
                (UseItemTask_init 1%Z 2%Z (Some 0%Z) LEFT) Example.forest))
  = None.
Proof.
  exact (proj1 (@UseItemTask_start_receiver Example.collaborators
                  (UseItemTask_init 1%Z 2%Z (Some 0%Z) LEFT) Example.forest
                  Example.armed_pirate (Axe 2%Z None) eq_refl eq_refl)).
Defined.

End BehaviourFacts.
